(** * Session-Tracker: the hand parser, the session builder and the
      aggregators of [tracker.py], embedded in Rocq.

    Python values are modelled as follows.
    - [str] is a list of characters.  A character is a code point below 256
      (the Latin-1 block), held in an [ascii]; the classes [\d], [\s], [.]
      and the case mapping of [re.IGNORECASE] are the ones CPython uses on
      that block.
    - [float] is IEEE-754 binary64, taken from the Standard Library's
      [SpecFloat] (round to nearest, ties to even).
    - [datetime] (naive, whole seconds) is the number of seconds since
      0001-01-01 00:00:00; a [timedelta] is a number of seconds.
    - a raised exception is the [Raise] branch of [result].
    - where a claim is about a list being changed in place, lists are
      objects on a heap ([build_sessions_st]); elsewhere they are values. *)

From Stdlib Require Import ZArith List Ascii String Bool Lia SpecFloat.
From stdpp Require Import gmap strings sorting.
Import ListNotations.

Local Open Scope nat_scope.

(** ** Characters and strings *)

Abbreviation str := (list ascii) (only parsing).

Definition s (x : string) : str := list_ascii_of_string x.

Definition code (c : ascii) : nat := nat_of_ascii c.

Definition between (lo hi n : nat) : bool := (lo <=? n) && (n <=? hi).

(** [\d] on a [str] pattern: Unicode decimal digits; below 256 only 0-9. *)
Definition is_digit (c : ascii) : bool := between 48 57 (code c).

(** [\s] on a [str] pattern: Unicode white space; below 256 these are
    TAB..CR, FS..US, SPACE, NEL (0x85) and NBSP (0xA0). *)
Definition is_space (c : ascii) : bool :=
  between 9 13 (code c) || between 28 32 (code c)
  || (code c =? 133) || (code c =? 160).

(** [.] without [re.DOTALL]: anything but the line feed. *)
Definition is_dot (c : ascii) : bool := negb (code c =? 10).

(** [str.lower] on one character of the Latin-1 block. *)
Definition lower (c : ascii) : ascii :=
  if between 65 90 (code c) || (between 192 222 (code c) && negb (code c =? 215))
  then ascii_of_nat (code c + 32) else c.

(** [str.upper] on one character.  The three Latin-1 letters whose upper
    case lies outside the block (0xB5, 0xDF, 0xFF) are left alone: [upper]
    is only applied to text matched by the stake pattern, in which they
    cannot occur. *)
Definition upper (c : ascii) : ascii :=
  if between 97 122 (code c) || (between 224 254 (code c) && negb (code c =? 247))
  then ascii_of_nat (code c - 32) else c.

Definition str_upper (x : str) : str := map upper x.
Definition str_lower (x : str) : str := map lower x.

Definition ascii_eqb (a b : ascii) : bool := code a =? code b.

(** A literal character of a pattern compiled with [re.IGNORECASE]: the
    subject character matches when both have the same lower case. *)
Definition ci (p c : ascii) : bool := ascii_eqb (lower c) (lower p).

(** A literal character of a pattern compiled without flags. *)
Definition lit (p c : ascii) : bool := ascii_eqb c p.

(** ** A backtracking matcher for the fragment of [re] the tracker uses

    Alternatives are tried left to right, [?] and greedy repetition prefer
    the longer match, lazy repetition the shorter one, and [re.search]
    returns the match at the leftmost position where one exists: the order
    in which CPython's engine explores matches. *)

Inductive re : Type :=
| Eps
| Chr (p : ascii -> bool)
| Cat (r1 r2 : re)
| Alt (r1 r2 : re)
| Opt (r : re)
| Star (p : ascii -> bool) (greedy : bool)
| Grp (n : nat) (r : re).

(** Captured groups, most recent first. *)
Abbreviation captures := (list (nat * list ascii)) (only parsing).

Fixpoint group (n : nat) (c : captures) : option str :=
  match c with
  | [] => None
  | (i, x) :: c' => if i =? n then Some x else group n c'
  end.

Definition or_else {A} (x y : option A) : option A :=
  match x with Some _ => x | None => y end.

Fixpoint star {A} (p : ascii -> bool) (greedy : bool) (x : str) (c : captures)
    (k : str -> captures -> option A) : option A :=
  if greedy then
    match x with
    | a :: x' => if p a then or_else (star p true x' c k) (k x c) else k x c
    | [] => k x c
    end
  else
    or_else (k x c)
      match x with
      | a :: x' => if p a then star p false x' c k else None
      | [] => None
      end.

(** The text consumed between the suffix [x] and its suffix [x']. *)
Definition consumed (x x' : str) : str := firstn (length x - length x') x.

Fixpoint matches {A} (r : re) (x : str) (c : captures)
    (k : str -> captures -> option A) : option A :=
  match r with
  | Eps => k x c
  | Chr p =>
      match x with
      | a :: x' => if p a then k x' c else None
      | [] => None
      end
  | Cat r1 r2 => matches r1 x c (fun x1 c1 => matches r2 x1 c1 k)
  | Alt r1 r2 => or_else (matches r1 x c k) (matches r2 x c k)
  | Opt r1 => or_else (matches r1 x c k) (k x c)
  | Star p g => star p g x c k
  | Grp n r1 => matches r1 x c (fun x1 c1 => k x1 ((n, consumed x x1) :: c1))
  end.

(** A match object: [group(0)] and the numbered groups. *)
Record match_obj := MatchObj {
  m_group0 : str;
  m_groups : captures
}.

(** A match that starts at the beginning of [x]. *)
Definition match_here (r : re) (x : str) : option match_obj :=
  matches r x [] (fun x' c => Some (MatchObj (consumed x x') c)).

(** [re.search]: the first position, from the left, with a match. *)
Fixpoint search (r : re) (x : str) : option match_obj :=
  match match_here r x with
  | Some m => Some m
  | None =>
      match x with
      | [] => None
      | _ :: x' => search r x'
      end
  end.

(** Pattern building blocks. *)
Fixpoint lit_str (f : ascii -> ascii -> bool) (x : str) : re :=
  match x with
  | [] => Eps
  | a :: x' => Cat (Chr (f a)) (lit_str f x')
  end.

Fixpoint times (n : nat) (r : re) : re :=
  match n with
  | 0 => Eps
  | S n' => Cat r (times n' r)
  end.

Definition plus (p : ascii -> bool) : re := Cat (Chr p) (Star p true).

Definition word_ci (x : string) : re := lit_str ci (s x).
Definition chr_is (x : string) : ascii -> bool :=
  match s x with a :: _ => lit a | [] => fun _ => false end.

(** [(NL|PL)\s?(\d+)] with [re.IGNORECASE]. *)
Definition stake_letters_re : re := Grp 1 (Alt (word_ci "NL") (word_ci "PL")).
Definition limit_tail_re : re := Cat (Opt (Chr is_space)) (Grp 2 (plus is_digit)).
Definition limit_re : re := Cat stake_letters_re limit_tail_re.

(** [(\d{4}-\d{2}-\d{2} \d{2}:\d{2}:\d{2})]. *)
Definition digits_re (n : nat) : re := times n (Chr is_digit).
Definition sep (x : string) : re := Chr (chr_is x).
Definition stamp_re : re :=
  Cat (digits_re 4) (Cat (sep "-") (Cat (digits_re 2) (Cat (sep "-")
    (Cat (digits_re 2) (Cat (sep " ") (Cat (digits_re 2) (Cat (sep ":")
      (Cat (digits_re 2) (Cat (sep ":") (digits_re 2)))))))))).
Definition date_re : re := Grp 1 stamp_re.

(** [[+-]?\d+(\.\d+)?], the body of group 2 of the hero pattern. *)
Definition is_sign (c : ascii) : bool := chr_is "+" c || chr_is "-" c.
Definition frac_re : re := Opt (Grp 3 (Cat (Chr (chr_is ".")) (plus is_digit))).
Definition number_re : re :=
  Cat (Opt (Chr is_sign)) (Cat (plus is_digit) frac_re).

(** [(won|lost)\s([+-]?\d+(\.\d+)?)]. *)
Definition keyword_re : re := Grp 1 (Alt (word_ci "won") (word_ci "lost")).
Definition clause_re : re :=
  Cat keyword_re (Cat (Chr is_space) (Grp 2 number_re)).

(** [re.escape(hero_name) .*?(won|lost)\s([+-]?\d+(\.\d+)?)] with
    [re.IGNORECASE]; the escaped name matches as literal text. *)
Definition hero_re (hero_name : str) : re :=
  Cat (lit_str ci hero_name) (Cat (Star is_dot false) clause_re).

(** [Hand\s*#(\d+)] with [re.IGNORECASE]. *)
Definition hand_id_re : re :=
  Cat (word_ci "Hand")
      (Cat (Star is_space true)
           (Cat (Chr (ci "#"%char)) (Grp 1 (plus is_digit)))).

(** ** Exceptions *)

Inductive exn := ValueError | ZeroDivisionError | IndexError | OverflowError.

Inductive result (A : Type) : Type :=
| Ok (a : A)
| Raise (e : exn).
Arguments Ok {A} a.
Arguments Raise {A} e.

#[global] Instance result_bind : MBind result :=
  fun A B f x => match x with Ok a => f a | Raise e => Raise e end.
#[global] Instance result_ret : MRet result := fun A a => Ok a.

Fixpoint mapM {A B} (f : A -> result B) (l : list A) : result (list B) :=
  match l with
  | [] => Ok []
  | a :: l' => b ← f a; bs ← mapM f l'; Ok (b :: bs)
  end.

(** ** Floats *)

Abbreviation float := spec_float (only parsing).
Definition prec : Z := 53.
Definition emax : Z := 1024.

Definition fadd : float -> float -> float := SFadd prec emax.
Definition fmul : float -> float -> float := SFmul prec emax.
Definition fdiv : float -> float -> float := SFdiv prec emax.
Definition feqb : float -> float -> bool := SFeqb.
Definition fltb : float -> float -> bool := SFltb.

Definition fzero : float := S754_zero false.

(** [float(n)] for an [int] in range, and [float] literals with an
    integral value. *)
Definition float_of_Z (n : Z) : float := binary_normalize prec emax n 0 false.

(** The double nearest to [n / d] ([0 <= n], [0 < d]), ties to even, with
    the sign [neg]: what [strtod] returns for a decimal numeral. *)
Definition float_of_ratio (neg : bool) (n d : Z) : float :=
  match n with
  | Z0 => S754_zero neg
  | Zpos _ =>
      let '(q, e, l) := SFdiv_core_binary prec emax n 0 d 0 in
      binary_round_aux prec emax neg q e l
  | Zneg _ => S754_nan
  end.

(** Truth value of a [float]: false exactly for [0.0] and [-0.0]. *)
Definition float_truthy (x : float) : bool := negb (feqb x fzero).

(** [x / y] on floats raises on a zero divisor. *)
Definition truediv (x y : float) : result float :=
  if feqb y fzero then Raise ZeroDivisionError else Ok (fdiv x y).

(** [x / n] with [n] an [int]: [n] is converted first, and a non-zero
    [int] never converts to zero. *)
Definition truediv_int (x : float) (n : Z) : result float :=
  if (n =? 0)%Z then Raise ZeroDivisionError else Ok (fdiv x (float_of_Z n)).

(** [round(x, 2)]: infinities and NaN round to themselves; a finite [x] is
    printed with two decimals, correctly rounded from its exact value
    (ties to even), and read back. *)
Definition round_half_even (num den : Z) : Z :=
  let q := (num / den)%Z in
  let r := (num mod den)%Z in
  match (2 * r ?= den)%Z with
  | Lt => q
  | Gt => (q + 1)%Z
  | Eq => if Z.even q then q else (q + 1)%Z
  end.

Definition round2 (x : float) : float :=
  match x with
  | S754_finite sg m e =>
      let hundredths :=
        match e with
        | Zneg p => round_half_even (100 * Zpos m) (2 ^ Zpos p)
        | _ => (100 * Zpos m * 2 ^ e)%Z
        end in
      float_of_ratio sg hundredths 100
  | _ => x
  end.

(** [round(x)] of a finite float: the nearest [int], ties to even. *)
Definition round_int (x : float) : Z :=
  match x with
  | S754_finite sg m e =>
      let a :=
        match e with
        | Zneg p => round_half_even (Zpos m) (2 ^ Zpos p)
        | _ => (Zpos m * 2 ^ e)%Z
        end in
      if sg then (- a)%Z else a
  | _ => 0%Z
  end.

(** [sum(xs)] over floats: the [int] start value 0 becomes [0.0] at the
    first float, then the items are added from left to right.  (From
    version 3.12 on CPython adds floats with a compensated sum, which can
    differ in the last bits; nothing below depends on the value of a sum.) *)
Definition fsum (xs : list float) : float := fold_left fadd xs fzero.

(** Decimal numerals. *)
Definition digit_val (c : ascii) : Z := Z.of_nat (code c) - 48.

Definition int_of_digits (ds : str) : Z :=
  fold_left (fun acc c => (10 * acc + digit_val c)%Z) ds 0%Z.

Definition all_digits (ds : str) : bool := forallb is_digit ds.

(** Splits [x] at the first character satisfying [p]. *)
Fixpoint break_at (p : ascii -> bool) (x : str) : str * str :=
  match x with
  | [] => ([], [])
  | a :: x' =>
      if p a then ([], x)
      else let '(l, r) := break_at p x' in (a :: l, r)
  end.

(** [float(x)] for the numerals the patterns can capture: an optional
    sign, digits, and optionally a point followed by digits.  (The other
    spellings [float] accepts, such as exponents, are never captured and
    are treated here like malformed text.) *)
Definition float_of_unsigned (neg : bool) (x : str) : result float :=
  let '(ip, rest) := break_at (chr_is ".") x in
  match ip, rest with
  | [], _ => Raise ValueError
  | _, [] =>
      if all_digits ip then Ok (float_of_ratio neg (int_of_digits ip) 1)
      else Raise ValueError
  | _, _ :: fp =>
      if all_digits ip && all_digits fp && negb (length fp =? 0) then
        Ok (float_of_ratio neg (int_of_digits (ip ++ fp))
              (10 ^ Z.of_nat (length fp)))
      else Raise ValueError
  end.

Definition py_float (x : str) : result float :=
  match x with
  | a :: x' =>
      if chr_is "-" a then float_of_unsigned true x'
      else if chr_is "+" a then float_of_unsigned false x'
      else float_of_unsigned false x
  | [] => Raise ValueError
  end.

(** ** Dates *)

(** Seconds since 0001-01-01 00:00:00. *)
Abbreviation datetime := Z (only parsing).

Definition is_leap (y : Z) : bool :=
  ((y mod 4 =? 0) && (negb (y mod 100 =? 0) || (y mod 400 =? 0)))%Z.

Definition days_in_month (y m : Z) : Z :=
  if (m =? 2)%Z then (if is_leap y then 29 else 28)%Z
  else if ((m =? 4) || (m =? 6) || (m =? 9) || (m =? 11))%Z then 30%Z
  else 31%Z.

Definition days_before_year (y : Z) : Z :=
  let y1 := (y - 1)%Z in (y1 * 365 + y1 / 4 - y1 / 100 + y1 / 400)%Z.

Definition days_before_month (y m : Z) : Z :=
  (nth (Z.to_nat m) [0; 0; 31; 59; 90; 120; 151; 181; 212; 243; 273; 304; 334] 0
   + (if (2 <? m) && is_leap y then 1 else 0))%Z.

Definition ymd2ord (y m d : Z) : Z :=
  (days_before_year y + days_before_month y m + d)%Z.

Definition mk_datetime (y mo d h mi sec : Z) : result datetime :=
  if ((1 <=? y) && (y <=? 9999) && (1 <=? mo) && (mo <=? 12)
      && (1 <=? d) && (d <=? days_in_month y mo)
      && (h <=? 23) && (mi <=? 59) && (sec <=? 59))%Z
  then Ok ((ymd2ord y mo d - 1) * 86400 + h * 3600 + mi * 60 + sec)%Z
  else Raise ValueError.

(** [datetime.strptime(x, "%Y-%m-%d %H:%M:%S")] on the texts laid out
    like the ones the date pattern captures, four digits for the year and
    two for each other field: the six fields are read as numbers, and a
    field out of range (month 13, 30 February, hour 24, second 60, year 0)
    raises [ValueError].  (Other layouts are never captured and are
    treated here like malformed text.) *)
Definition strptime (x : str) : result datetime :=
  match x with
  | [y1; y2; y3; y4; a; m1; m2; b; d1; d2; c; h1; h2; e; i1; i2; f; s1; s2] =>
      if all_digits [y1; y2; y3; y4; m1; m2; d1; d2; h1; h2; i1; i2; s1; s2]
         && chr_is "-" a && chr_is "-" b && is_space c
         && chr_is ":" e && chr_is ":" f
      then
        mk_datetime (int_of_digits [y1; y2; y3; y4]) (int_of_digits [m1; m2])
          (int_of_digits [d1; d2]) (int_of_digits [h1; h2])
          (int_of_digits [i1; i2]) (int_of_digits [s1; s2])
      else Raise ValueError
  | _ => Raise ValueError
  end.

(** [timedelta(minutes=m)], in seconds; a [timedelta] holds at most
    999999999 days in either direction and the constructor raises
    [OverflowError] beyond. *)
Definition timedelta_minutes (m : Z) : result Z :=
  let days := (60 * m / 86400)%Z in
  if ((-999999999 <=? days) && (days <=? 999999999))%Z
  then Ok (60 * m)%Z else Raise OverflowError.

(** ** Hands *)

(** [hand_id] is the captured number text, or [id(raw_hand)], an [int]. *)
Module Hand.
Record t := mk {
  hand_id : str + Z;
  datetime : option datetime;
  limit : str;
  bb_size : option float;
  hero_result_money : float;
  hero_result_bb : option float;
  raw : str
}.
End Hand.

Definition group_of (n : nat) (m : match_obj) : str :=
  match n with
  | 0 => m_group0 m
  | _ => default [] (group n (m_groups m))
  end.

(** Step 1 of [parse_hand]: the time of the hand. *)
Definition parse_time (raw_hand : str) : result (option datetime) :=
  match search date_re raw_hand with
  | Some date_match => t ← strptime (group_of 1 date_match); Ok (Some t)
  | None => Ok None
  end.

(** Step 2: the stake label. *)
Definition parse_limit (raw_hand : str) : str :=
  match search limit_re raw_hand with
  | Some limit_match => str_upper (group_of 0 limit_match)
  | None => s "unknown"
  end.

(** Step 3: the size of the big blind; a failing [float] is caught. *)
Definition parse_bb_size (raw_hand : str) : option float :=
  match search limit_re raw_hand with
  | Some limit_match =>
      match (x ← py_float (group_of 2 limit_match); truediv_int x 100) with
      | Ok b => Some b
      | Raise _ => None
      end
  | None => None
  end.

(** Step 4: the result of the hero, in money. *)
Definition parse_result_money (raw_hand hero_name : str) : result float :=
  match search (hero_re hero_name) raw_hand with
  | Some hero_match =>
      let sign : Z :=
        if decide (str_lower (group_of 1 hero_match) = s "won") then 1%Z else (-1)%Z in
      x ← py_float (group_of 2 hero_match);
      Ok (fmul (float_of_Z sign) x)
  | None => Ok fzero
  end.

(** Step 5: the result in big blinds. *)
Definition parse_result_bb (bb : option float) (result_money : float)
    : result (option float) :=
  match bb with
  | Some b =>
      if float_truthy b && fltb fzero b
      then r ← truediv result_money b; Ok (Some r)
      else Ok None
  | None => Ok None
  end.

(** Step 6: the identifier. *)
Definition parse_hand_id (raw_hand : str) (raw_id : Z) : str + Z :=
  match search hand_id_re raw_hand with
  | Some hand_id_match => inl (group_of 1 hand_id_match)
  | None => inr raw_id
  end.

(** [parse_hand(raw_hand, hero_name)]; [raw_id] stands for [id(raw_hand)],
    which the interpreter chooses. *)
Definition parse_hand (raw_hand : str) (raw_id : Z) (hero_name : str) : result Hand.t :=
  hand_time ← parse_time raw_hand;
  let limit := parse_limit raw_hand in
  let bb := parse_bb_size raw_hand in
  result_money ← parse_result_money raw_hand hero_name;
  result_bb ← parse_result_bb bb result_money;
  let hid := parse_hand_id raw_hand raw_id in
  Ok (Hand.mk hid hand_time limit bb result_money result_bb raw_hand).

(** ** Sessions *)

Module Session.
Record t := mk {
  session_id : Z;
  start_time : datetime;
  end_time : datetime;
  duration_minutes : Z;
  hands_count : Z;
  limit : str;
  total_result_money : float;
  total_result_bb : option float;
  bb_per_100 : option float;
  hands : list Hand.t
}.
End Session.

(** A hand that passed the filter on its time, paired with that time. *)
Abbreviation timed := (Z * Hand.t)%type (only parsing).

(** [[h for h in hands if h["datetime"] is not None]], each hand kept
    with its time. *)
Definition with_time (hands : list Hand.t) : list timed :=
  omap (fun h => t ← Hand.datetime h; Some (t, h)) hands.

(** [hands.sort(key=lambda x: x["datetime"])]: the sort is stable, so the
    result is the one of an insertion sort that keeps equal keys in
    their order. *)
Fixpoint insert_by_time (x : timed) (l : list timed) : list timed :=
  match l with
  | [] => [x]
  | y :: l' => if (x.1 <=? y.1)%Z then x :: l else y :: insert_by_time x l'
  end.

Definition sort_by_time (l : list timed) : list timed :=
  foldr insert_by_time [] l.

(** One turn of the loop over the sorted hands; the state is
    [(sessions, current, prev_time)]. *)
Abbreviation seg_state := (list (list (Z * Hand.t)) * list (Z * Hand.t) * option Z)%type (only parsing).

Definition seg_step (gap : Z) (st : seg_state) (hand : timed) : seg_state :=
  let '(sessions, current, prev_time) := st in
  match prev_time with
  | None => (sessions, [hand], Some hand.1)
  | Some p =>
      if (gap <? hand.1 - p)%Z
      then (sessions ++ [current], [hand], Some hand.1)
      else (sessions, current ++ [hand], Some hand.1)
  end.

Definition segment (gap : Z) (hands : list timed) : list (list timed) :=
  let '(sessions, current, _) := fold_left (seg_step gap) hands ([], [], None) in
  match current with
  | [] => sessions
  | _ :: _ => sessions ++ [current]
  end.

(** [sess[0]] and [sess[-1]]. *)
Definition first_item {A} (l : list A) : result A :=
  match l with a :: _ => Ok a | [] => Raise IndexError end.

Definition last_item {A} (l : list A) : result A :=
  match last l with Some a => Ok a | None => Raise IndexError end.

(** [limits[0] if len(limits) == 1 else "mixed"] over the set of the
    labels; the order of a set only matters when it has one element. *)
Definition session_limit (labels : list str) : str :=
  match remove_dups labels with
  | [l] => l
  | _ => s "mixed"
  end.

(** [x * 100] with [x] a float. *)
Definition per_100 (bb_total : float) (hands_count : Z) : result float :=
  q ← truediv_int bb_total hands_count; Ok (fmul q (float_of_Z 100)).

Definition bb_sum (bb_results : list float) : option float :=
  match bb_results with
  | [] => None
  | _ :: _ => Some (fsum bb_results)
  end.

Definition make_session (idx : Z) (sess : list timed) : result Session.t :=
  first ← first_item sess;
  lst ← last_item sess;
  let start_time := first.1 in
  let end_time := lst.1 in
  duration ← truediv_int (float_of_Z (end_time - start_time)) 60;
  let hands_count := Z.of_nat (length sess) in
  let limit := session_limit (map (fun h => Hand.limit h.2) sess) in
  let money_total := fsum (map (fun h => Hand.hero_result_money h.2) sess) in
  let bb_total := bb_sum (omap (fun h => Hand.hero_result_bb h.2) sess) in
  bb_per_100 ←
    match bb_total with
    | Some b => x ← per_100 b hands_count; Ok (Some x)
    | None => Ok None
    end;
  Ok (Session.mk idx start_time end_time (round_int duration) hands_count
        limit (round2 money_total) (round2 <$> bb_total)
        (round2 <$> bb_per_100) (map snd sess)).

(** [enumerate(l, start)]. *)
Fixpoint enumerate {A} (start : Z) (l : list A) : list (Z * A) :=
  match l with
  | [] => []
  | a :: l' => (start, a) :: enumerate (start + 1) l'
  end.

Definition build_sessions (hands : list Hand.t) (session_gap_minutes : Z)
    : result (list Session.t) :=
  let hands := sort_by_time (with_time hands) in
  gap ← timedelta_minutes session_gap_minutes;
  let sessions := segment gap hands in
  mapM (fun '(idx, sess) => make_session idx sess) (enumerate 1 sessions).

(** ** Statistics per stake *)

Module StakeStat.
(** The entry of [stats] while the sessions are added up. *)
Record acc := mk_acc {
  sessions_count : Z;
  hands_count : Z;
  total_result_money : float;
  total_result_bb : float
}.
(** The finished entry. *)
Record t := mk {
  limit : str;
  totals : acc;
  bb_per_100 : option float
}.
End StakeStat.

(** [stats] is a [dict]: keys in the order of their first insertion. *)
Abbreviation stats_dict := (list (list ascii * StakeStat.acc)) (only parsing).

Fixpoint dict_get (k : str) (d : stats_dict) : option StakeStat.acc :=
  match d with
  | [] => None
  | (k', v) :: d' => if decide (k' = k) then Some v else dict_get k d'
  end.

Fixpoint dict_set (k : str) (v : StakeStat.acc) (d : stats_dict) : stats_dict :=
  match d with
  | [] => [(k, v)]
  | (k', v') :: d' =>
      if decide (k' = k) then (k, v) :: d' else (k', v') :: dict_set k v d'
  end.

Definition acc_init : StakeStat.acc := StakeStat.mk_acc 0 0 fzero fzero.

Definition acc_add (d : StakeStat.acc) (sess : Session.t) : StakeStat.acc :=
  StakeStat.mk_acc
    (StakeStat.sessions_count d + 1)
    (StakeStat.hands_count d + Session.hands_count sess)
    (fadd (StakeStat.total_result_money d) (Session.total_result_money sess))
    (match Session.total_result_bb sess with
     | Some b => fadd (StakeStat.total_result_bb d) b
     | None => StakeStat.total_result_bb d
     end).

Definition stats_step (stats : stats_dict) (sess : Session.t) : stats_dict :=
  let limit := Session.limit sess in
  if decide (limit = s "mixed") then stats
  else
    let d := default acc_init (dict_get limit stats) in
    dict_set limit (acc_add d sess) stats.

Definition stake_bb100 (d : StakeStat.acc) : result (option float) :=
  if (0 <? StakeStat.hands_count d)%Z then
    if float_truthy (StakeStat.total_result_bb d)
    then x ← per_100 (StakeStat.total_result_bb d) (StakeStat.hands_count d);
         Ok (Some x)
    else Ok None
  else Ok None.

Definition finish_stat (e : str * StakeStat.acc) : result StakeStat.t :=
  bb100 ← stake_bb100 e.2;
  Ok (StakeStat.mk e.1 e.2 (round2 <$> bb100)).

Definition build_limits_stats (sessions : list Session.t) : result (list StakeStat.t) :=
  let stats := fold_left stats_step sessions [] in
  mapM finish_stat stats.

(** ** Summary *)

Inductive number := Int (n : Z) | Float (x : float).

Module Summary.
Record t := mk {
  total_hands : Z;
  total_sessions : Z;
  total_result_money : number;
  total_result_bb : option float;
  overall_bb_per_100 : option float;
  first_hand_time : option datetime;
  last_hand_time : option datetime
}.
End Summary.

(** [min(times) if times else None] and [max(times) if times else None]. *)
Definition min_time (times : list datetime) : option datetime :=
  match times with
  | [] => None
  | t :: ts => Some (fold_left Z.min ts t)
  end.

Definition max_time (times : list datetime) : option datetime :=
  match times with
  | [] => None
  | t :: ts => Some (fold_left Z.max ts t)
  end.

Definition build_summary (hands : list Hand.t) (sessions : list Session.t)
    : result Summary.t :=
  match hands with
  | [] => Ok (Summary.mk 0 0 (Int 0) None None None None)
  | _ :: _ =>
      let total_hands := Z.of_nat (length hands) in
      let total_sessions := Z.of_nat (length sessions) in
      let money_total := fsum (map Hand.hero_result_money hands) in
      let bb_total := bb_sum (omap Hand.hero_result_bb hands) in
      bb_per_100 ←
        match bb_total with
        | Some b => x ← per_100 b total_hands; Ok (Some x)
        | None => Ok None
        end;
      let times := omap Hand.datetime hands in
      Ok (Summary.mk total_hands total_sessions (Float (round2 money_total))
            (round2 <$> bb_total) (round2 <$> bb_per_100)
            (min_time times) (max_time times))
  end.

(** ** Auxiliary definitions used in the statements *)

(** The groups the loop of [build_sessions] builds, by recursion on the
    remaining hands: [current] is the open session and [prev] the time of
    its last hand. *)
Fixpoint seg_rec (gap : Z) (current : list timed) (prev : datetime)
    (l : list timed) : list (list timed) :=
  match l with
  | [] => [current]
  | h :: l' =>
      if (gap <? h.1 - prev)%Z
      then current :: seg_rec gap [h] h.1 l'
      else seg_rec gap (current ++ [h]) h.1 l'
  end.

Definition seg_finish (st : seg_state) : list (list timed) :=
  let '(sessions, current, _) := st in
  match current with
  | [] => sessions
  | _ :: _ => sessions ++ [current]
  end.

(** The index of the group that holds position [i] of [concat gs]. *)
Fixpoint group_index {A} (gs : list (list A)) (i : nat) : nat :=
  match gs with
  | [] => 0
  | g :: gs' => if i <? length g then 0 else S (group_index gs' (i - length g))
  end.

Definition by_time (a b : timed) : Prop := (a.1 <= b.1)%Z.

(** The gap thresholds, in minutes, that [timedelta] can hold. *)
Definition gap_in_range (G : Z) : Prop :=
  (-999999999 <= 60 * G / 86400 <= 999999999)%Z.

Definition has_time (h : Hand.t) : bool :=
  match Hand.datetime h with Some _ => true | None => false end.

(** What [make_session idx g] puts in the session built from group [g]. *)
Definition session_view (idx : Z) (g : list timed) (sn : Session.t) : Prop :=
  Session.session_id sn = idx /\
  Session.hands sn = map snd g /\
  Session.hands_count sn = Z.of_nat (length g) /\
  fst <$> head g = Some (Session.start_time sn) /\
  fst <$> last g = Some (Session.end_time sn) /\
  Session.limit sn = session_limit (map (fun h => Hand.limit h.2) g) /\
  Session.total_result_money sn
    = round2 (fsum (map (fun h => Hand.hero_result_money h.2) g)) /\
  Session.total_result_bb sn
    = round2 <$> bb_sum (omap (fun h => Hand.hero_result_bb h.2) g).

Definition mixed : str := s "mixed".


(** The sessions with the stake label [l], in their order. *)
Definition sessions_at (l : str) (sessions : list Session.t) : list Session.t :=
  filter (fun sn => Session.limit sn = l) sessions.

(** [lang r x x']: the pattern [r] matches a prefix of [x] and leaves
    [x']; no order of preference, no groups. *)
Fixpoint lang (r : re) (x x' : str) : Prop :=
  match r with
  | Eps => x' = x
  | Chr p => exists a, x = a :: x' /\ p a = true
  | Cat r1 r2 => exists x1, lang r1 x x1 /\ lang r2 x1 x'
  | Alt r1 r2 => lang r1 x x' \/ lang r2 x x'
  | Opt r1 => lang r1 x x' \/ x' = x
  | Star p _ => exists w, x = w ++ x' /\ forallb p w = true
  | Grp _ r1 => lang r1 x x'
  end.

(** ** What the patterns look for, in words of lists *)

(** One or more decimal digits. *)
Definition digits (ds : str) : Prop := ds <> [] /\ forallb is_digit ds = true.

(** Nothing, or one white-space character. *)
Definition opt_space (ws : str) : Prop :=
  ws = [] \/ exists w, ws = [w] /\ is_space w = true.

(** The text that follows does not go on with a digit. *)
Definition no_digit_ahead (post : str) : Prop :=
  match post with
  | a :: _ => is_digit a = false
  | [] => True
  end.

(** [NL] or [PL], in upper or lower case. *)
Definition stake_letters (l : str) : Prop :=
  str_upper l = s "NL" \/ str_upper l = s "PL".

(** A stake token starts the text [x]: the letters, optional white space,
    digits. *)
Definition stake_token (x : str) : Prop :=
  exists l ws ds rest,
    x = l ++ ws ++ ds ++ rest /\ stake_letters l /\ opt_space ws /\ digits ds.

(** [won] or [lost], in upper or lower case. *)
Definition keyword (kw : str) : Prop :=
  str_lower kw = s "won" \/ str_lower kw = s "lost".

Definition sign_text (sg : str) : Prop := sg = [] \/ sg = s "+" \/ sg = s "-".

(** Nothing, or a point and digits. *)
Definition frac_text (fr : str) : Prop :=
  fr = [] \/ exists fd, fr = s "." ++ fd /\ digits fd.

(** A decimal number: sign, digits, fraction. *)
Definition number_text (num : str) : Prop :=
  exists sg ip fr, num = sg ++ ip ++ fr /\ sign_text sg /\ digits ip /\ frac_text fr.

(** The number [.. ++ fr] cannot be made longer with the text [post]. *)
Definition number_ends (fr post : str) : Prop :=
  no_digit_ahead post /\
  (fr = [] -> forall d rest, post = s "." ++ d :: rest -> is_digit d = false).

(** A won/lost clause starts the text [y]: the word, one white-space
    character, a number. *)
Definition clause_at (y : str) : Prop :=
  exists kw sp num rest,
    y = kw ++ sp :: num ++ rest /\ keyword kw /\ is_space sp = true /\ number_text num.

(** The same text up to case. *)
Definition same_name (hero_name nm : str) : Prop := str_lower nm = str_lower hero_name.

(** The hero pattern matches at the start of [y]: the name, then text
    without a line feed, then a clause. *)
Definition hero_match_at (hero_name y : str) : Prop :=
  exists nm gap z,
    y = nm ++ gap ++ z /\ same_name hero_name nm /\
    forallb is_dot gap = true /\ clause_at z.

(** [float(ds)] for a text of digits. *)
Definition float_of_digits (ds : str) : float :=
  float_of_ratio false (int_of_digits ds) 1.

(** The groups left by the fraction of a number. *)
Definition frac_caps (fr : list ascii) (c : list (nat * list ascii)) : list (nat * list ascii) :=
  match fr with
  | [] => c
  | _ :: _ => (3, fr) :: c
  end.

(** The value of the numeral with the digits [ip] before and [fd] after
    the point. *)
Definition decimal_value (neg : bool) (ip fd : str) : float :=
  float_of_ratio neg (int_of_digits (ip ++ fd)) (10 ^ Z.of_nat (length fd)).

(** The value of the number [sg ++ ip ++ fr]. *)
Definition number_value (sg ip fr : str) : float :=
  decimal_value (bool_decide (sg = s "-")) ip (drop 1 fr).

(** Exactly [n] decimal digits. *)
Definition ndigits (n : nat) (x : str) : Prop :=
  length x = n /\ forallb is_digit x = true.

Definition stamp_text (y mo d h mi sec : str) : str :=
  y ++ s "-" ++ mo ++ s "-" ++ d ++ s " " ++ h ++ s ":" ++ mi ++ s ":" ++ sec.

(** A text of the shape [YYYY-MM-DD HH:MM:SS]. *)
Definition stamp_shape (w : str) : Prop :=
  exists y mo d h mi sec,
    w = stamp_text y mo d h mi sec /\
    ndigits 4 y /\ ndigits 2 mo /\ ndigits 2 d /\
    ndigits 2 h /\ ndigits 2 mi /\ ndigits 2 sec.

(** A text of that shape starts [x]. *)
Definition stamp_at (x : str) : Prop :=
  exists w rest, x = w ++ rest /\ stamp_shape w.

(** ** List objects

    A Python list is an object: a name holds a reference to it, and
    [sort] and [append] change the object in place.  The heap maps the
    references to the current contents of the lists of hands.  The lists
    [sessions] and [result] hold references only and are kept as values. *)

Abbreviation heap := (gmap nat (list Hand.t)) (only parsing).

(** A new list object. *)
Definition alloc (v : list Hand.t) (h : heap) : nat * heap :=
  let l := fresh (dom h) in (l, <[l := v]> h).

Definition load (l : nat) (h : heap) : list Hand.t := default [] (h !! l).

Definition store (l : nat) (v : list Hand.t) (h : heap) : heap := <[l := v]> h.

(** One turn of the loop of [build_sessions]; [sessions] holds references
    to the closed session lists and [current] the reference to the open
    one. *)
Definition seg_step_st (gap : Z) (st : list nat * nat * option Z) (hand : Z * Hand.t)
    (h : heap) : (list nat * nat * option Z) * heap :=
  let '(sessions, current, prev_time) := st in
  match prev_time with
  | None =>
      let '(c, h') := alloc [hand.2] h in
      ((sessions, c, Some hand.1), h')
  | Some p =>
      if (gap <? hand.1 - p)%Z
      then
        let '(c, h') := alloc [hand.2] h in
        ((sessions ++ [current], c, Some hand.1), h')
      else
        ((sessions, current, Some hand.1), store current (load current h ++ [hand.2]) h)
  end.

Fixpoint seg_loop_st (gap : Z) (hands : list (Z * Hand.t))
    (st : list nat * nat * option Z) (h : heap)
    : (list nat * nat * option Z) * heap :=
  match hands with
  | [] => (st, h)
  | hand :: rest =>
      let '(st', h') := seg_step_st gap st hand h in
      seg_loop_st gap rest st' h'
  end.

(** [build_sessions] on the heap: [hands] is the reference the caller
    passes.  The comprehension makes a new list, and it is this new list
    that [sort] reorders. *)
Definition build_sessions_st (hands : nat) (session_gap_minutes : Z) (h : heap)
    : result (list Session.t) * heap :=
  let '(hands1, h1) := alloc (List.filter has_time (load hands h)) h in
  let h2 := store hands1 (map snd (sort_by_time (with_time (load hands1 h1)))) h1 in
  match timedelta_minutes session_gap_minutes with
  | Raise e => (Raise e, h2)
  | Ok gap =>
      let '(current0, h3) := alloc [] h2 in
      let '((sessions, current, _), h4) :=
        seg_loop_st gap (with_time (load hands1 h3)) ([], current0, None) h3 in
      let sessions :=
        match load current h4 with
        | [] => sessions
        | _ :: _ => sessions ++ [current]
        end in
      (mapM (fun '(idx, sess) => make_session idx (with_time (load sess h4)))
         (enumerate 1 sessions), h4)
  end.

(** The two calls of [main], one after the other, on the same list. *)
Definition sessions_then_summary (hands : nat) (session_gap_minutes : Z) (h : heap)
    : result (list Session.t * Summary.t) * heap :=
  let '(r, h') := build_sessions_st hands session_gap_minutes h in
  (sessions ← r;
   summary ← build_summary (load hands h') sessions;
   Ok (sessions, summary), h').

(** The loop on the heap and the loop on values agree. *)
Definition seg_inv (h0 h : heap) (st : list nat * nat * option Z)
    (sp : list (list (Z * Hand.t)) * list (Z * Hand.t) * option Z) : Prop :=
  st.2 = sp.2 /\
  h0 ⊆ h /\
  h !! st.1.2 = Some (map snd sp.1.2) /\
  Forall2 (fun r g => h !! r = Some (map snd g)) st.1.1 sp.1.1 /\
  (st.1.2 ∉ st.1.1) /\
  h0 !! st.1.2 = None.

(** A caller's list of three hands, the second without a time. *)
Definition demo_hands : list Hand.t :=
  [Hand.mk (inr 1%Z) (Some 120%Z) (s "NL25") None fzero None [];
   Hand.mk (inr 2%Z) None (s "NL25") None fzero None [];
   Hand.mk (inr 3%Z) (Some 60%Z) (s "NL25") None fzero None []].

Definition demo_heap : gmap nat (list Hand.t) := {[ 0 := demo_hands ]}.

(** Four sessions, the second one "mixed"; the two NL25 sessions cancel
    out in big blinds, the NL50 session of four hands wins two. *)
Definition demo_sessions : list Session.t :=
  [Session.mk 1 0 1200 20 2 (s "NL25") (float_of_Z 3) (Some (float_of_Z 6))
     (Some (float_of_Z 300)) [];
   Session.mk 2 9000 9000 0 1 (s "mixed") (float_of_Z 1) (Some (float_of_Z 2))
     (Some (float_of_Z 200)) [];
   Session.mk 3 90000 90000 0 1 (s "NL25") (float_of_Z (-3)) (Some (float_of_Z (-6)))
     (Some (float_of_Z (-600))) [];
   Session.mk 4 180000 180600 10 4 (s "NL50") (float_of_Z 1) (Some (float_of_Z 2))
     (Some (float_of_Z 50)) []].

(** The scenario with two NL25 hands twenty minutes apart. *)
Definition scenario_hands (second : string) : list Hand.t :=
  omap (fun x => match parse_hand (s x) 0 (s "Hero") with Ok h => Some h | Raise _ => None end)
    ["Hand #1 NL25 2024-01-01 10:00:00 Hero won 2.50"%string;
     ("Hand #2 NL25 2024-01-01 " ++ second ++ " Hero lost 1.00")%string].

(** ** Splitting a file into blocks *)

(** [str.lstrip], [str.rstrip] and [str.strip] without argument: white
    space is removed from the ends. *)
Fixpoint lstrip (x : list ascii) : list ascii :=
  match x with
  | a :: x' => if is_space a then lstrip x' else x
  | [] => []
  end.

Definition rstrip (x : list ascii) : list ascii := rev (lstrip (rev x)).

Definition strip (x : list ascii) : list ascii := rstrip (lstrip x).

Definition newline : ascii := "010"%char.

(** The pattern of a blank line: a line feed, white space, a line feed;
    no flags. *)
Definition blank_re : re :=
  Cat (Chr (lit newline)) (Cat (Star is_space true) (Chr (lit newline))).

(** [re.split(r, x)] for a pattern without groups that matches at least
    one character, as [blank_re] does: the text is scanned from the left;
    where the pattern matches the piece read so far is closed and the
    matched text is skipped.  [skip] counts the characters of the match
    still to be skipped and [cur] is the piece read so far. *)
Fixpoint split_go (r : re) (skip : nat) (cur : list ascii) (x : list ascii)
    : list (list ascii) :=
  match x with
  | [] => [cur]
  | a :: x' =>
      match skip with
      | S n => split_go r n cur x'
      | 0 =>
          match match_here r x with
          | Some m =>
              match length (m_group0 m) with
              | S n => cur :: split_go r n [] x'
              | 0 => split_go r 0 (cur ++ [a]) x'
              end
          | None => split_go r 0 (cur ++ [a]) x'
          end
      end
  end.

Definition re_split (r : re) (x : list ascii) : list (list ascii) := split_go r 0 [] x.

(** [split_raw_hands(text)]. *)
Definition split_raw_hands (text : list ascii) : list (list ascii) :=
  let blocks := re_split blank_re (strip text) in
  omap (fun b => match strip b with [] => None | _ :: _ => Some (strip b) end) blocks.

Definition nonspace (a : ascii) : bool := negb (is_space a).

(** A blank line starts the text [y]: a line feed, white space only, and
    another line feed. *)
Definition blank_line_at (y : list ascii) : Prop :=
  exists ws rest, y = newline :: ws ++ newline :: rest /\ forallb is_space ws = true.

(** No blank line anywhere in [b]. *)
Definition no_blank_line (b : list ascii) : Prop :=
  forall p1 p2, b = p1 ++ p2 -> ~ blank_line_at p2.

(** A block as [split_raw_hands] returns them: not empty, no white space
    at its ends and no blank line inside. *)
Definition trimmed_block (b : list ascii) : Prop :=
  b <> [] /\
  (forall a, head b = Some a -> is_space a = false) /\
  (forall a, last b = Some a -> is_space a = false) /\
  no_blank_line b.

(** The blocks written one after the other with an empty line between
    two of them. *)
Fixpoint join_blocks (blocks : list (list ascii)) : list ascii :=
  match blocks with
  | [] => []
  | b :: bs =>
      match bs with
      | [] => b
      | _ :: _ => b ++ newline :: newline :: join_blocks bs
      end
  end.

(** ** Identifiers and the parse loop of [main] *)

(** An identifier token starts the text [x]: the word [Hand] in any case,
    white space or none, a number sign and digits. *)
Definition hand_token (x : str) : Prop :=
  exists w ws ds rest,
    x = w ++ ws ++ "#"%char :: ds ++ rest /\
    str_lower w = s "hand" /\ forallb is_space ws = true /\ digits ds.

(** [try: ... except Exception: ...] around one call: what the call
    returns, or nothing when it raises. *)
Definition catch {A} (r : result A) : option A :=
  match r with Ok a => Some a | Raise _ => None end.

(** The loop of [main] over the blocks: a block on which [parse_hand]
    raises is reported and left out.  Each block comes with the number
    [id] would give for it. *)
Definition parse_hands (hero_name : str) (all_raw_hands : list (str * Z)) : list Hand.t :=
  omap (fun raw => catch (parse_hand raw.1 raw.2 hero_name)) all_raw_hands.

(** The time step of [parse_hand] does not raise on the block. *)
Definition time_ok (raw : str) : bool :=
  match parse_time raw with Ok _ => true | Raise _ => false end.

(** ** Counting sessions and hands *)

(** The number of neighbours in [l] whose times are more than [gap]
    apart. *)
Fixpoint breaks (gap : Z) (l : list (Z * Hand.t)) : nat :=
  match l with
  | a :: l' =>
      match l' with
      | b :: _ => (if (gap <? b.1 - a.1)%Z then 1 else 0) + breaks gap l'
      | [] => 0
      end
  | [] => 0
  end.

Definition sumZ (l : list Z) : Z := foldr Z.add 0%Z l.

(** The hand was played at time [t]. *)
Definition played_at (t : Z) (h : Hand.t) : Prop := Hand.datetime h = Some t.

#[global] Instance played_at_dec t h : Decision (played_at t h) :=
  decide (Hand.datetime h = Some t).

(** The labels of [l] in the order of their first occurrence. *)
Fixpoint first_seen (l : list (list ascii)) : list (list ascii) :=
  match l with
  | [] => []
  | x :: l' => x :: filter (fun y => y <> x) (first_seen l')
  end.

(** The sessions that carry one stake label. *)
Definition unmixed (sessions : list Session.t) : list Session.t :=
  filter (fun sn => Session.limit sn <> mixed) sessions.

(** ** The JSON export

    The values [export_full_to_json] hands to [json.dump]: the dicts and
    lists the tracker has built, with strings, numbers, [None] and
    [datetime] objects at the leaves. *)
Unset Elimination Schemes.
Inductive py :=
| PyNone
| PyInt (n : Z)
| PyFloat (x : float)
| PyStr (x : str)
| PyDatetime (t : datetime)
| PyList (l : list py)
| PyDict (d : list (str * py)).
Set Elimination Schemes.

(** What [json.dump] can encode with the default encoder: [None],
    numbers (with [allow_nan] left on, any float), strings, lists and
    dicts with string keys of such values.  On any other object the
    encoder calls [default], which raises [TypeError]. *)
Fixpoint json_encodable (v : py) : bool :=
  match v with
  | PyNone | PyInt _ | PyFloat _ | PyStr _ => true
  | PyDatetime _ => false
  | PyList l => forallb json_encodable l
  | PyDict d => forallb (fun kv => json_encodable (snd kv)) d
  end.

Definition py_opt {A} (f : A -> py) (o : option A) : py :=
  match o with Some a => f a | None => PyNone end.

(** The dict [parse_hand] returns. *)
Definition hand_dict (h : Hand.t) : py :=
  PyDict [
    (s "hand_id", match Hand.hand_id h with inl x => PyStr x | inr n => PyInt n end);
    (s "datetime", py_opt PyDatetime (Hand.datetime h));
    (s "limit", PyStr (Hand.limit h));
    (s "bb_size", py_opt PyFloat (Hand.bb_size h));
    (s "hero_result_money", PyFloat (Hand.hero_result_money h));
    (s "hero_result_bb", py_opt PyFloat (Hand.hero_result_bb h));
    (s "raw", PyStr (Hand.raw h))].

(** The dict [build_sessions] appends to [result]. *)
Definition session_dict (sn : Session.t) : py :=
  PyDict [
    (s "session_id", PyInt (Session.session_id sn));
    (s "start_time", PyDatetime (Session.start_time sn));
    (s "end_time", PyDatetime (Session.end_time sn));
    (s "duration_minutes", PyInt (Session.duration_minutes sn));
    (s "hands_count", PyInt (Session.hands_count sn));
    (s "limit", PyStr (Session.limit sn));
    (s "total_result_money", PyFloat (Session.total_result_money sn));
    (s "total_result_bb", py_opt PyFloat (Session.total_result_bb sn));
    (s "bb_per_100", py_opt PyFloat (Session.bb_per_100 sn));
    (s "hands", PyList (map hand_dict (Session.hands sn)))].

(** The dict [build_limits_stats] appends to [results]. *)
Definition stake_dict (st : StakeStat.t) : py :=
  PyDict [
    (s "limit", PyStr (StakeStat.limit st));
    (s "sessions_count", PyInt (StakeStat.sessions_count (StakeStat.totals st)));
    (s "hands_count", PyInt (StakeStat.hands_count (StakeStat.totals st)));
    (s "total_result_money", PyFloat (StakeStat.total_result_money (StakeStat.totals st)));
    (s "total_result_bb", PyFloat (StakeStat.total_result_bb (StakeStat.totals st)));
    (s "bb_per_100", py_opt PyFloat (StakeStat.bb_per_100 st))].

(** The dict [build_summary] returns. *)
Definition summary_dict (sm : Summary.t) : py :=
  PyDict [
    (s "total_hands", PyInt (Summary.total_hands sm));
    (s "total_sessions", PyInt (Summary.total_sessions sm));
    (s "total_result_money",
       match Summary.total_result_money sm with Int n => PyInt n | Float x => PyFloat x end);
    (s "total_result_bb", py_opt PyFloat (Summary.total_result_bb sm));
    (s "overall_bb_per_100", py_opt PyFloat (Summary.overall_bb_per_100 sm));
    (s "first_hand_time", py_opt PyDatetime (Summary.first_hand_time sm));
    (s "last_hand_time", py_opt PyDatetime (Summary.last_hand_time sm))].

(** How a call of [export_full_to_json] ends, once the file is open:
    [json.dump] writes the whole document, or it raises [TypeError] at the
    first object it cannot encode. *)
Inductive export_outcome := Exported | RaisesTypeError.

Definition export_full_to_json (summary : Summary.t) (sessions : list Session.t)
    (limits : list StakeStat.t) : export_outcome :=
  let data := PyDict [
    (s "summary", summary_dict summary);
    (s "sessions", PyList (map session_dict sessions));
    (s "limits", PyList (map stake_dict limits))] in
  if json_encodable data then Exported else RaisesTypeError.

(** [main] from the parsed hands to the JSON export. *)
Definition report_then_export (hands : list Hand.t) (session_gap_minutes : Z)
    : result export_outcome :=
  sessions ← build_sessions hands session_gap_minutes;
  limits ← build_limits_stats sessions;
  summary ← build_summary hands sessions;
  Ok (export_full_to_json summary sessions limits).

(* ================================================================== *)
(** * Properties *)
(* ================================================================== *)

(** ** The matcher *)

Section Matcher.
Context {A : Type}.
Implicit Types (k : list ascii -> list (nat * list ascii) -> option A).

Lemma star_Some_inv p g x : forall c k res,
  star p g x c k = Some res ->
  exists x' c', (exists w, x = w ++ x' /\ forallb p w = true) /\ k x' c' = Some res.
Proof.
  induction x as [|a x IH]; intros c k res H.
  - exists [], c. split; [exists []; auto |].
    destruct g; simpl in H; [exact H |]. destruct (k [] c); [exact H | discriminate].
  - destruct g; simpl in H.
    + destruct (p a) eqn:Ea.
      * destruct (star p true x c k) eqn:Es.
        -- simpl in H. injection H as ->.
           destruct (IH _ _ _ Es) as (x' & c' & (w & -> & Hw) & Hk).
           exists x', c'. split; [| exact Hk]. exists (a :: w). simpl. rewrite Ea. auto.
        -- simpl in H. exists (a :: x), c. split; [exists []; auto | exact H].
      * exists (a :: x), c. split; [exists []; auto | exact H].
    + destruct (k (a :: x) c) eqn:Ek.
      * simpl in H. exists (a :: x), c. split; [exists []; auto | congruence].
      * simpl in H. destruct (p a) eqn:Ea; [| discriminate].
        destruct (IH _ _ _ H) as (x' & c' & (w & -> & Hw) & Hk).
        exists x', c'. split; [| exact Hk]. exists (a :: w). simpl. rewrite Ea. auto.
Qed.

Lemma star_None_intro p g x : forall c k,
  (forall w x', x = w ++ x' -> forallb p w = true -> k x' c = None) ->
  star p g x c k = None.
Proof.
  induction x as [|a x IH]; intros c k H.
  - assert (k [] c = None) as E by (apply (H [] []); reflexivity).
    destruct g; simpl; rewrite E; reflexivity.
  - assert (k (a :: x) c = None) as E by (apply (H [] (a :: x)); reflexivity).
    assert (Hrec : p a = true -> star p g x c k = None).
    { intros Ea. apply IH. intros w x' -> Hw. apply (H (a :: w) x'); [reflexivity |].
      simpl. rewrite Ea. exact Hw. }
    destruct g; simpl; rewrite E; destruct (p a); simpl; auto; rewrite Hrec; auto.
Qed.

(** A successful run comes from a match of the pattern. *)
Lemma matches_Some_inv r : forall x c k res,
  matches r x c k = Some res ->
  exists x' c', lang r x x' /\ k x' c' = Some res.
Proof.
  induction r as [|p|r1 IH1 r2 IH2|r1 IH1 r2 IH2|r1 IH1|p g|n r1 IH1];
    intros x c k res H; simpl in *.
  - eauto.
  - destruct x as [|a x]; [discriminate |]. destruct (p a) eqn:Ea; [| discriminate].
    exists x, c. eauto.
  - destruct (IH1 _ _ _ _ H) as (x1 & c1 & L1 & H1).
    destruct (IH2 _ _ _ _ H1) as (x2 & c2 & L2 & H2). eauto 6.
  - destruct (matches r1 x c k) eqn:E1; simpl in H.
    + injection H as ->. destruct (IH1 _ _ _ _ E1) as (x' & c' & L & Hk). eauto.
    + destruct (IH2 _ _ _ _ H) as (x' & c' & L & Hk). eauto.
  - destruct (matches r1 x c k) eqn:E1; simpl in H.
    + injection H as ->. destruct (IH1 _ _ _ _ E1) as (x' & c' & L & Hk). eauto.
    + eauto.
  - apply star_Some_inv in H. exact H.
  - destruct (IH1 _ _ _ _ H) as (x' & c' & L & Hk). eauto.
Qed.

(** When no match of the pattern lets the continuation succeed, the run
    fails. *)
Lemma matches_None_intro r : forall x c k,
  (forall x' c', lang r x x' -> k x' c' = None) ->
  matches r x c k = None.
Proof.
  induction r as [|p|r1 IH1 r2 IH2|r1 IH1 r2 IH2|r1 IH1|p g|n r1 IH1];
    intros x c k H; simpl in *.
  - auto.
  - destruct x as [|a x]; [reflexivity |]. destruct (p a) eqn:Ea; [| reflexivity].
    apply H. eauto.
  - apply IH1. intros x1 c1 L1. apply IH2. intros x2 c2 L2. apply H. eauto.
  - rewrite IH1 by (intros; apply H; auto). simpl. apply IH2. intros; apply H; auto.
  - rewrite IH1 by (intros; apply H; auto). simpl. apply H. auto.
  - apply star_None_intro. intros w x' -> Hw. apply H. eauto.
  - apply IH1. intros x' c' L. apply H. exact L.
Qed.
End Matcher.

Section Characters.
Lemma ascii_eqb_eq a b : ascii_eqb a b = true <-> a = b.
Proof.
  unfold ascii_eqb, code. rewrite Nat.eqb_eq. split; [| congruence].
  intros H. rewrite <- (ascii_nat_embedding a), <- (ascii_nat_embedding b). congruence.
Qed.

Lemma ci_lower p a : ci p a = true <-> lower a = lower p.
Proof. apply ascii_eqb_eq. Qed.

Lemma lit_eq p a : lit p a = true <-> a = p.
Proof. apply ascii_eqb_eq. Qed.

Lemma ci_refl_lower p a : lower a = lower p -> ci p a = true.
Proof. apply ci_lower. Qed.

(** Digits are not white space, signs or points. *)
Lemma digit_not_space a : is_digit a = true -> is_space a = false.
Proof.
  destruct a as [[] [] [] [] [] [] [] []]; vm_compute; intros; congruence.
Qed.

Lemma digit_not_char (x : string) a c :
  s x = [c] -> is_digit c = false -> is_digit a = true -> chr_is x a = false.
Proof.
  intros Hx Hc Ha. unfold chr_is. rewrite Hx.
  destruct (lit c a) eqn:E; [| reflexivity].
  apply lit_eq in E. congruence.
Qed.

Lemma forallb_app_true {B} (f : B -> bool) l1 l2 :
  forallb f l1 = true -> forallb f l2 = true -> forallb f (l1 ++ l2) = true.
Proof. intros H1 H2. rewrite forallb_app, H1, H2. reflexivity. Qed.

Lemma consumed_app (w x' : list ascii) : consumed (w ++ x') x' = w.
Proof.
  unfold consumed. rewrite length_app.
  replace (length w + length x' - length x') with (length w) by lia.
  rewrite firstn_app, Nat.sub_diag, firstn_all. simpl. apply app_nil_r.
Qed.

Lemma lang_prefix r : forall x x', lang r x x' -> exists w, x = w ++ x'.
Proof.
  induction r as [|p|r1 IH1 r2 IH2|r1 IH1 r2 IH2|r1 IH1|p g|n r1 IH1];
    intros x x' L; simpl in L.
  - exists []. auto.
  - destruct L as (a & -> & _). exists [a]. reflexivity.
  - destruct L as (x1 & L1 & L2).
    destruct (IH1 _ _ L1) as [w1 ->]. destruct (IH2 _ _ L2) as [w2 ->].
    exists (w1 ++ w2). rewrite app_assoc. reflexivity.
  - destruct L as [L|L]; eauto.
  - destruct L as [L| ->]; [eauto | exists []; reflexivity].
  - destruct L as (w & -> & _). eauto.
  - eauto.
Qed.
End Characters.

Section Forward.
Context {A : Type}.
Implicit Types (k : list ascii -> list (nat * list ascii) -> option A).

(** A literal word is matched in one way only. *)
Lemma lit_str_forward f w : forall w' x c k,
  Forall2 (fun p a => f p a = true) w w' ->
  matches (lit_str f w) (w' ++ x) c k = k x c.
Proof.
  induction w as [|p w IH]; intros w' x c k H; inv H; simpl; [reflexivity |].
  match goal with H : f p _ = true |- _ => rewrite H end. apply IH. assumption.
Qed.

(** Greedy repetition takes the whole run when the rest then matches. *)
Lemma star_greedy_forward p ds : forall post c k res,
  forallb p ds = true ->
  match post with a :: _ => p a = false | [] => True end ->
  k post c = Some res ->
  star p true (ds ++ post) c k = Some res.
Proof.
  induction ds as [|d ds IH]; intros post c k res Hds Hpost Hk; simpl in *.
  - destruct post as [|a post]; simpl; [exact Hk |]. rewrite Hpost. exact Hk.
  - apply andb_true_iff in Hds as [Hd Hds]. rewrite Hd.
    rewrite (IH post c k res); auto.
Qed.

(** Lazy repetition stops at the first place where the rest matches. *)
Lemma star_lazy_forward p gap : forall x c k res,
  forallb p gap = true ->
  (forall g1 g2, gap = g1 ++ g2 -> g2 <> [] -> k (g2 ++ x) c = None) ->
  k x c = Some res ->
  star p false (gap ++ x) c k = Some res.
Proof.
  induction gap as [|a gap IH]; intros x c k res Hgap Hmin Hk; simpl in *.
  - destruct x; simpl; rewrite Hk; reflexivity.
  - apply andb_true_iff in Hgap as [Ha Hgap].
    assert (E : k ((a :: gap) ++ x) c = None)
      by (apply (Hmin [] (a :: gap)); [reflexivity | discriminate]).
    simpl in E. rewrite E, Ha. simpl.
    apply IH; auto.
    intros g1 g2 -> Hg2. apply (Hmin (a :: g1) g2); [reflexivity | exact Hg2].
Qed.

Lemma plus_greedy_forward p ds post c k res :
  ds <> [] -> forallb p ds = true ->
  match post with a :: _ => p a = false | [] => True end ->
  k post c = Some res ->
  matches (plus p) (ds ++ post) c k = Some res.
Proof.
  intros Hne Hds Hpost Hk. destruct ds as [|d ds]; [congruence |].
  simpl in *. apply andb_true_iff in Hds as [Hd Hds]. rewrite Hd.
  apply star_greedy_forward; auto.
Qed.
End Forward.

Section Search.
Lemma match_here_None r x :
  (forall x', ~ lang r x x') -> match_here r x = None.
Proof.
  intros H. apply matches_None_intro. intros x' c' L. destruct (H x' L).
Qed.

Lemma match_here_Some_inv r x m :
  match_here r x = Some m -> exists x', lang r x x'.
Proof.
  intros H. apply matches_Some_inv in H as (x' & c' & L & _). eauto.
Qed.

Lemma search_here r x m : match_here r x = Some m -> search r x = Some m.
Proof. intros H. destruct x; simpl; rewrite H; reflexivity. Qed.

(** Positions without a match are skipped. *)
Lemma search_skip r pre suf :
  (forall p1 p2, pre = p1 ++ p2 -> p2 <> [] -> match_here r (p2 ++ suf) = None) ->
  search r (pre ++ suf) = search r suf.
Proof.
  induction pre as [|a pre IH]; intros H; [reflexivity |].
  assert (E : match_here r ((a :: pre) ++ suf) = None)
    by (apply (H [] (a :: pre)); [reflexivity | discriminate]).
  simpl in *. rewrite E.
  apply IH. intros p1 p2 -> Hp2. apply (H (a :: p1) p2); [reflexivity | exact Hp2].
Qed.

Lemma search_None r x :
  (forall p1 p2, x = p1 ++ p2 -> match_here r p2 = None) -> search r x = None.
Proof.
  induction x as [|a x IH]; intros H; simpl.
  - rewrite (H [] []) by reflexivity. reflexivity.
  - rewrite (H [] (a :: x)) by reflexivity.
    apply IH. intros p1 p2 ->. apply (H (a :: p1) p2). reflexivity.
Qed.

Lemma search_Some_inv r x m :
  search r x = Some m -> exists p1 p2, x = p1 ++ p2 /\ match_here r p2 = Some m.
Proof.
  induction x as [|a x IH]; simpl; intros H.
  - destruct (match_here r []) eqn:E; [| discriminate]. exists [], []. split; [reflexivity | congruence].
  - destruct (match_here r (a :: x)) eqn:E.
    + exists [], (a :: x). split; [reflexivity | congruence].
    + destruct (IH H) as (p1 & p2 & -> & Hm). exists (a :: p1), p2. auto.
Qed.
End Search.

(** ** The patterns of the hand parser *)

Section Patterns.
Lemma upper_N a : upper a = "N"%char <-> ci "N" a = true.
Proof. destruct a as [[] [] [] [] [] [] [] []]; vm_compute; split; congruence. Qed.
Lemma upper_P a : upper a = "P"%char <-> ci "P" a = true.
Proof. destruct a as [[] [] [] [] [] [] [] []]; vm_compute; split; congruence. Qed.
Lemma upper_L a : upper a = "L"%char <-> ci "L" a = true.
Proof. destruct a as [[] [] [] [] [] [] [] []]; vm_compute; split; congruence. Qed.

Lemma stake_letters_iff l :
  stake_letters l <->
  exists a b, l = [a; b] /\ (ci "N" a = true \/ ci "P" a = true) /\ ci "L" b = true.
Proof.
  unfold stake_letters, str_upper. split.
  - intros [H|H]; destruct l as [|a [|b [|? ?]]]; try discriminate;
      injection H as Ha Hb; exists a, b;
      (split; [reflexivity |]); split;
      [left; apply upper_N, Ha | apply upper_L, Hb
      |right; apply upper_P, Ha | apply upper_L, Hb].
  - intros (a & b & -> & [Ha|Ha] & Hb); [left | right]; simpl;
      apply upper_L in Hb; [apply upper_N in Ha | apply upper_P in Ha];
      rewrite Ha, Hb; reflexivity.
Qed.

Lemma Forall2_ci_lower w w' :
  Forall2 (fun p a => ci p a = true) w w' <-> str_lower w' = str_lower w.
Proof.
  unfold str_lower. split.
  - induction 1 as [|p a w w' H _ IH]; [reflexivity |].
    simpl. apply ci_lower in H. congruence.
  - revert w'. induction w as [|p w IH]; intros [|a w'] H; try discriminate; constructor.
    + injection H as H _. apply ci_lower, H.
    + injection H as _ H. apply IH, H.
Qed.

Lemma lang_lit_str f w : forall x x',
  lang (lit_str f w) x x' ->
  exists w', x = w' ++ x' /\ Forall2 (fun p a => f p a = true) w w'.
Proof.
  induction w as [|p w IH]; intros x x' L; simpl in L.
  - subst. exists []. split; [reflexivity | constructor].
  - destruct L as (x1 & (a & -> & Ha) & L).
    destruct (IH _ _ L) as (w' & -> & F). exists (a :: w'). split; [reflexivity |].
    constructor; assumption.
Qed.

Lemma lang_plus p x x' :
  lang (plus p) x x' -> exists ds, x = ds ++ x' /\ ds <> [] /\ forallb p ds = true.
Proof.
  simpl. intros (x1 & (a & -> & Ha) & (w & -> & Hw)).
  exists (a :: w). split; [reflexivity |]. split; [discriminate |].
  simpl. rewrite Ha. exact Hw.
Qed.

Lemma lang_digits x x' :
  lang (plus is_digit) x x' -> exists ds, x = ds ++ x' /\ digits ds.
Proof.
  intros L. apply lang_plus in L as (ds & -> & H1 & H2). exists ds. split; [reflexivity |].
  split; assumption.
Qed.

Lemma lang_letters x x' :
  lang stake_letters_re x x' -> exists l, x = l ++ x' /\ stake_letters l.
Proof.
  simpl. intros [L|L];
    destruct L as (x1 & (a & -> & Ha) & (x2 & (b & -> & Hb) & ->));
    exists [a; b]; (split; [reflexivity |]); apply stake_letters_iff;
    exists a, b; auto.
Qed.

Lemma lang_limit_tail x x' :
  lang limit_tail_re x x' ->
  exists ws ds, x = ws ++ ds ++ x' /\ opt_space ws /\ digits ds.
Proof.
  unfold limit_tail_re. cbn [lang]. intros (x1 & Hs & L).
  apply lang_digits in L as (ds & E & Hd). subst x1.
  destruct Hs as [(w & -> & Hw)| <-].
  - exists [w], ds. split; [reflexivity |]. split; [right; eauto | exact Hd].
  - exists [], ds. split; [reflexivity |]. split; [left; reflexivity | exact Hd].
Qed.

Lemma lang_limit x x' : lang limit_re x x' -> stake_token x.
Proof.
  unfold limit_re. cbn [lang]. intros (x1 & L1 & L2).
  apply lang_letters in L1 as (l & -> & Hl).
  apply lang_limit_tail in L2 as (ws & ds & -> & Hws & Hds).
  exists l, ws, ds, x'. auto.
Qed.
End Patterns.

Section LimitForward.
Context {A : Type}.
Implicit Types (k : list ascii -> list (nat * list ascii) -> option A).

Lemma letters_forward l x c k res :
  stake_letters l ->
  k x ((1, l) :: c) = Some res ->
  matches stake_letters_re (l ++ x) c k = Some res.
Proof.
  intros Hl Hk. apply stake_letters_iff in Hl as (a & b & -> & Ha & Hb).
  unfold stake_letters_re, word_ci. cbn [matches lit_str s list_ascii_of_string app].
  change (consumed (a :: b :: x) x) with (consumed ([a; b] ++ x) x).
  rewrite consumed_app, Hb, Hk.
  destruct (ci "N" a); [reflexivity |].
  destruct Ha as [Ha|Ha]; [discriminate |]. rewrite Ha. reflexivity.
Qed.

Lemma limit_tail_forward ws ds post c k res :
  opt_space ws -> digits ds -> no_digit_ahead post ->
  k post ((2, ds) :: c) = Some res ->
  matches limit_tail_re (ws ++ ds ++ post) c k = Some res.
Proof.
  intros Hws [Hne Hds] Hpost Hk.
  assert (Hplus : matches (plus is_digit) (ds ++ post) c
            (fun x1 c1 => k x1 ((2, consumed (ds ++ post) x1) :: c1)) = Some res).
  { apply plus_greedy_forward; auto. rewrite consumed_app. exact Hk. }
  unfold limit_tail_re. cbn [matches].
  destruct Hws as [->|(w & -> & Hw)]; cbn [app].
  - rewrite Hplus. destruct ds as [|d ds]; [congruence |].
    simpl in Hds. apply andb_true_iff in Hds as [Hd _].
    cbn [app]. rewrite (digit_not_space d Hd). reflexivity.
  - rewrite Hw, Hplus. reflexivity.
Qed.
End LimitForward.

Lemma limit_forward l ws ds post :
  stake_letters l -> opt_space ws -> digits ds -> no_digit_ahead post ->
  match_here limit_re (l ++ ws ++ ds ++ post)
  = Some (MatchObj (l ++ ws ++ ds) [(2, ds); (1, l)]).
Proof.
  intros Hl Hws Hds Hpost. unfold match_here, limit_re. cbn [matches].
  apply letters_forward; [exact Hl |].
  apply limit_tail_forward; auto.
  replace (l ++ ws ++ ds ++ post) with ((l ++ ws ++ ds) ++ post)
    by (rewrite <- !app_assoc; reflexivity).
  rewrite consumed_app. reflexivity.
Qed.

Section HeroPatterns.
Lemma lower_w a : lower a = "w"%char -> ci "w" a = true /\ ci "l" a = false.
Proof. destruct a as [[] [] [] [] [] [] [] []]; vm_compute; intros; split; congruence. Qed.
Lemma lower_l a : lower a = "l"%char -> ci "w" a = false /\ ci "l" a = true.
Proof. destruct a as [[] [] [] [] [] [] [] []]; vm_compute; intros; split; congruence. Qed.

Lemma keyword_words kw :
  keyword kw <->
  Forall2 (fun p a => ci p a = true) (s "won") kw \/
  Forall2 (fun p a => ci p a = true) (s "lost") kw.
Proof.
  unfold keyword. rewrite !Forall2_ci_lower. reflexivity.
Qed.

Lemma lang_keyword x x' :
  lang keyword_re x x' -> exists kw, x = kw ++ x' /\ keyword kw.
Proof.
  unfold keyword_re, word_ci. cbn [lang]. intros [L|L];
    apply lang_lit_str in L as (kw & -> & F); exists kw;
    (split; [reflexivity |]); apply keyword_words; auto.
Qed.

Lemma is_sign_text a : is_sign a = true -> sign_text [a].
Proof.
  unfold is_sign. intros H. apply orb_true_iff in H as [H|H];
    apply lit_eq in H; subst; [right; left | right; right]; reflexivity.
Qed.

Lemma lang_frac x x' :
  lang frac_re x x' -> exists fr, x = fr ++ x' /\ frac_text fr.
Proof.
  unfold frac_re. cbn [lang]. intros [(x1 & (a & -> & Ha) & L)| ->].
  - apply lang_digits in L as (fd & -> & Hfd). apply lit_eq in Ha. subst a.
    exists (s "." ++ fd). split; [reflexivity |]. right. eauto.
  - exists []. split; [reflexivity | left; reflexivity].
Qed.

Lemma lang_number x x' :
  lang number_re x x' -> exists num, x = num ++ x' /\ number_text num.
Proof.
  unfold number_re. cbn [lang]. intros (x1 & Hs & x2 & Hd & Hf).
  apply lang_digits in Hd as (ip & E1 & Hip). subst x1.
  apply lang_frac in Hf as (fr & E2 & Hfr). subst x2.
  destruct Hs as [(a & -> & Ha)| <-].
  - exists ([a] ++ ip ++ fr). split; [rewrite <- !app_assoc; reflexivity |].
    exists [a], ip, fr. split; [reflexivity |]. split; [apply is_sign_text, Ha | auto].
  - exists ([] ++ ip ++ fr). split; [rewrite <- !app_assoc; reflexivity |].
    exists [], ip, fr. split; [reflexivity |]. split; [left; reflexivity | auto].
Qed.

Lemma lang_clause y y' : lang clause_re y y' -> clause_at y.
Proof.
  unfold clause_re. cbn [lang]. intros (x1 & Lk & x2 & (sp & E & Hsp) & Ln).
  apply lang_keyword in Lk as (kw & -> & Hkw). subst x1.
  apply lang_number in Ln as (num & -> & Hnum).
  exists kw, sp, num, y'. auto.
Qed.

Lemma lang_hero hero_name y y' : lang (hero_re hero_name) y y' -> hero_match_at hero_name y.
Proof.
  unfold hero_re. cbn [lang]. intros (x1 & Ln & x2 & (gap & E & Hgap) & Lc).
  apply lang_lit_str in Ln as (nm & -> & F). subst x1.
  exists nm, gap, x2. split; [reflexivity |]. split; [apply Forall2_ci_lower, F |].
  split; [exact Hgap | eapply lang_clause, Lc].
Qed.
End HeroPatterns.

Section HeroForward.
Context {A : Type}.
Implicit Types (k : list ascii -> list (nat * list ascii) -> option A).

Lemma keyword_forward kw x c k res :
  keyword kw ->
  k x ((1, kw) :: c) = Some res ->
  matches keyword_re (kw ++ x) c k = Some res.
Proof.
  intros Hkw Hk. unfold keyword_re. cbn [matches].
  apply keyword_words in Hkw as [F|F].
  - unfold word_ci. rewrite lit_str_forward by exact F.
    rewrite consumed_app, Hk. reflexivity.
  - unfold word_ci at 2. rewrite (lit_str_forward ci (s "lost")) by exact F.
    rewrite consumed_app, Hk.
    inv F. match goal with H : ci "l" _ = true |- _ => apply ci_lower in H; apply lower_l in H as [H _] end.
    unfold word_ci. cbn [matches lit_str s list_ascii_of_string app].
    match goal with H : ci "w" _ = false |- _ => rewrite H end. reflexivity.
Qed.

Lemma frac_forward fr post c k res :
  frac_text fr -> number_ends fr post ->
  k post (frac_caps fr c) = Some res ->
  matches frac_re (fr ++ post) c k = Some res.
Proof.
  intros Hfr [Hpost Hdot] Hk. unfold frac_re. cbn [matches].
  destruct Hfr as [->|(fd & -> & Hne & Hfd)].
  - cbn [app frac_caps] in *. rewrite Hk.
    unfold plus. cbn [matches].
    destruct post as [|a [|d rest]]; [reflexivity | |].
    + destruct (chr_is "." a); reflexivity.
    + destruct (chr_is "." a) eqn:Ea; [| reflexivity].
      apply lit_eq in Ea. subst a.
      rewrite (Hdot eq_refl d rest eq_refl). reflexivity.
  - cbn [s list_ascii_of_string app].
    replace (chr_is "." ".") with true by reflexivity.
    rewrite (plus_greedy_forward is_digit fd post _ _ res); auto.
    change ("."%char :: fd ++ post) with (("."%char :: fd) ++ post).
    rewrite consumed_app. destruct fd; [congruence | exact Hk].
Qed.

Lemma number_forward sg ip fr post c k res :
  sign_text sg -> digits ip -> frac_text fr -> number_ends fr post ->
  k post (frac_caps fr c) = Some res ->
  matches number_re (sg ++ ip ++ fr ++ post) c k = Some res.
Proof.
  intros Hsg [Hne Hip] Hfr Hend Hk.
  assert (Hrest : matches (Cat (plus is_digit) frac_re) (ip ++ fr ++ post) c k = Some res).
  { cbn [matches]. apply plus_greedy_forward; auto.
    - destruct Hfr as [->|(fd & -> & _)]; [apply Hend | reflexivity].
    - apply frac_forward; auto. }
  unfold number_re. cbn [matches].
  destruct Hsg as [->|[->| ->]]; cbn [s list_ascii_of_string app].
  - cbn [matches] in Hrest. rewrite Hrest.
    destruct ip as [|d ip]; [congruence |]. cbn [app].
    simpl in Hip. apply andb_true_iff in Hip as [Hd _].
    unfold is_sign.
    rewrite (digit_not_char "+" d "+" eq_refl eq_refl Hd).
    rewrite (digit_not_char "-" d "-" eq_refl eq_refl Hd). reflexivity.
  - replace (is_sign "+") with true by reflexivity.
    cbn [matches] in Hrest. rewrite Hrest. reflexivity.
  - replace (is_sign "-") with true by reflexivity.
    cbn [matches] in Hrest. rewrite Hrest. reflexivity.
Qed.

Lemma clause_forward kw sp sg ip fr post c k res :
  keyword kw -> is_space sp = true ->
  sign_text sg -> digits ip -> frac_text fr -> number_ends fr post ->
  k post ((2, sg ++ ip ++ fr) :: frac_caps fr ((1, kw) :: c)) = Some res ->
  matches clause_re (kw ++ sp :: (sg ++ ip ++ fr) ++ post) c k = Some res.
Proof.
  intros Hkw Hsp Hsg Hip Hfr Hend Hk. unfold clause_re. cbn [matches].
  apply keyword_forward; [exact Hkw |]. rewrite Hsp.
  rewrite <- !app_assoc. apply number_forward; auto.
  replace (sg ++ ip ++ fr ++ post) with ((sg ++ ip ++ fr) ++ post)
    by (rewrite <- !app_assoc; reflexivity).
  rewrite consumed_app. exact Hk.
Qed.
End HeroForward.

Lemma hero_forward hero_name nm gap kw sp sg ip fr post :
  same_name hero_name nm -> forallb is_dot gap = true ->
  keyword kw -> is_space sp = true ->
  sign_text sg -> digits ip -> frac_text fr -> number_ends fr post ->
  (forall g1 g2, gap = g1 ++ g2 -> g2 <> [] ->
     ~ clause_at (g2 ++ kw ++ sp :: (sg ++ ip ++ fr) ++ post)) ->
  match_here (hero_re hero_name) (nm ++ gap ++ kw ++ sp :: (sg ++ ip ++ fr) ++ post)
  = Some (MatchObj (nm ++ gap ++ kw ++ sp :: sg ++ ip ++ fr)
            ((2, sg ++ ip ++ fr) :: frac_caps fr [(1, kw)])).
Proof.
  intros Hnm Hgap Hkw Hsp Hsg Hip Hfr Hend Hmin.
  unfold match_here, hero_re. cbn [matches].
  rewrite lit_str_forward by (apply Forall2_ci_lower, Hnm).
  apply star_lazy_forward; [exact Hgap | |].
  - intros g1 g2 E Hg2. apply matches_None_intro.
    intros x' c' L. exfalso. apply (Hmin g1 g2 E Hg2). eapply lang_clause, L.
  - apply clause_forward; auto. f_equal. f_equal.
    replace (nm ++ gap ++ kw ++ sp :: (sg ++ ip ++ fr) ++ post)
      with ((nm ++ gap ++ kw ++ sp :: sg ++ ip ++ fr) ++ post).
    + apply consumed_app.
    + rewrite <- !app_assoc. simpl. rewrite <- !app_assoc. reflexivity.
Qed.

Lemma matches_Cat_inv {A} r1 r2 x c (k : list ascii -> list (nat * list ascii) -> option A) res :
  matches (Cat r1 r2) x c k = Some res ->
  exists x1 c1, lang r1 x x1 /\ matches r2 x1 c1 k = Some res.
Proof. cbn [matches]. apply matches_Some_inv. Qed.

Lemma matches_Grp_inv {A} n r x c (k : list ascii -> list (nat * list ascii) -> option A) res :
  matches (Grp n r) x c k = Some res ->
  exists x1 c1, lang r x x1 /\ k x1 ((n, consumed x x1) :: c1) = Some res.
Proof. cbn [matches]. intros H. apply matches_Some_inv in H. exact H. Qed.

Lemma hero_match_number hero_name y m :
  match_here (hero_re hero_name) y = Some m ->
  exists num, group 2 (m_groups m) = Some num /\ number_text num.
Proof.
  unfold match_here, hero_re. intros H.
  apply matches_Cat_inv in H as (x1 & c1 & _ & H).
  apply matches_Cat_inv in H as (x2 & c2 & _ & H).
  unfold clause_re in H.
  apply matches_Cat_inv in H as (x3 & c3 & _ & H).
  apply matches_Cat_inv in H as (x4 & c4 & _ & H).
  apply matches_Grp_inv in H as (x5 & c5 & L & H).
  injection H as <-. cbn [m_groups group Nat.eqb].
  apply lang_number in L as (num & -> & Hnum).
  rewrite consumed_app. eauto.
Qed.


Section Numbers.
Lemma break_at_digits ip r :
  forallb is_digit ip = true ->
  (r = [] \/ exists fd, r = s "." ++ fd) ->
  break_at (chr_is ".") (ip ++ r) = (ip, r).
Proof.
  intros Hip Hr. induction ip as [|d ip IH]; simpl in *.
  - destruct Hr as [->|(fd & ->)]; reflexivity.
  - apply andb_true_iff in Hip as [Hd Hip].
    rewrite (digit_not_char "." d "." eq_refl eq_refl Hd), IH by exact Hip. reflexivity.
Qed.

Lemma float_of_unsigned_number neg ip fr :
  digits ip -> frac_text fr ->
  float_of_unsigned neg (ip ++ fr) = Ok (decimal_value neg ip (drop 1 fr)).
Proof.
  intros [Hne Hip] Hfr. unfold float_of_unsigned, decimal_value, all_digits.
  destruct Hfr as [->|(fd & -> & Hfne & Hfd)].
  - rewrite break_at_digits by auto. destruct ip; [congruence |].
    rewrite Hip. simpl drop. rewrite app_nil_r. reflexivity.
  - rewrite break_at_digits by eauto. destruct ip as [|d ip]; [congruence |].
    cbn [s list_ascii_of_string app drop]. rewrite Hip, Hfd.
    destruct fd; [congruence | reflexivity].
Qed.

Lemma py_float_number sg ip fr :
  sign_text sg -> digits ip -> frac_text fr ->
  py_float (sg ++ ip ++ fr) = Ok (number_value sg ip fr).
Proof.
  intros Hsg Hip Hfr. unfold number_value.
  destruct Hsg as [->|[->| ->]]; cbn [s list_ascii_of_string app].
  - pose proof (float_of_unsigned_number false ip fr Hip Hfr) as E.
    destruct Hip as [Hne Hip]. destruct ip as [|d ip]; [congruence |].
    simpl in Hip. apply andb_true_iff in Hip as [Hd _].
    cbn [app py_float] in *.
    rewrite (digit_not_char "-" d "-" eq_refl eq_refl Hd).
    rewrite (digit_not_char "+" d "+" eq_refl eq_refl Hd). exact E.
  - apply (float_of_unsigned_number false ip fr Hip Hfr).
  - apply (float_of_unsigned_number true ip fr Hip Hfr).
Qed.

Lemma py_float_text num : number_text num -> exists x, py_float num = Ok x.
Proof.
  intros (sg & ip & fr & -> & Hsg & Hip & Hfr). rewrite py_float_number; eauto.
Qed.

Lemma py_float_digits ds : digits ds -> py_float ds = Ok (float_of_digits ds).
Proof.
  intros Hds.
  pose proof (py_float_number [] ds [] (or_introl eq_refl) Hds (or_introl eq_refl)) as E.
  simpl in E. rewrite app_nil_r in E. rewrite E.
  unfold number_value, decimal_value, float_of_digits. simpl. rewrite app_nil_r.
  reflexivity.
Qed.

Lemma fltb_pos_truthy b : fltb fzero b = true -> feqb b fzero = false.
Proof. destruct b as [[]|[]| |[] m e]; cbn; congruence. Qed.

Lemma parse_result_bb_Some b m :
  parse_result_bb (Some b) m = Ok (if fltb fzero b then Some (fdiv m b) else None).
Proof.
  unfold parse_result_bb, float_truthy, truediv.
  destruct (fltb fzero b) eqn:E.
  - rewrite (fltb_pos_truthy b E). reflexivity.
  - rewrite andb_false_r. reflexivity.
Qed.
End Numbers.

(** ** The hand parser *)

Section Dates.
Lemma times_forward {A} p n : forall w x c (k : list ascii -> list (nat * list ascii) -> option A),
  length w = n -> forallb p w = true ->
  matches (times n (Chr p)) (w ++ x) c k = k x c.
Proof.
  induction n as [|n IH]; intros [|a w] x c k Hl Hw; try discriminate; [reflexivity |].
  simpl in *. apply andb_true_iff in Hw as [Ha Hw]. rewrite Ha. apply IH; [lia | exact Hw].
Qed.

Lemma lang_times p n : forall x x',
  lang (times n (Chr p)) x x' ->
  exists w, x = w ++ x' /\ length w = n /\ forallb p w = true.
Proof.
  induction n as [|n IH]; intros x x' L; simpl in L.
  - subst. exists []. auto.
  - destruct L as (x1 & (a & -> & Ha) & L).
    destruct (IH _ _ L) as (w & -> & Hl & Hw).
    exists (a :: w). simpl. rewrite Ha. auto.
Qed.

Lemma lang_ndigits n x x' :
  lang (digits_re n) x x' -> exists w, x = w ++ x' /\ ndigits n w.
Proof.
  intros L. apply lang_times in L as (w & -> & H1 & H2). exists w. split; [reflexivity |].
  split; assumption.
Qed.

Lemma lang_sep (c : string) a x x' :
  s c = [a] -> lang (sep c) x x' -> x = s c ++ x'.
Proof.
  intros Hc (b & -> & Hb). unfold chr_is in Hb. rewrite Hc in *.
  apply lit_eq in Hb. subst. reflexivity.
Qed.

Lemma lang_stamp x x' : lang stamp_re x x' -> exists w, x = w ++ x' /\ stamp_shape w.
Proof.
  unfold stamp_re. cbn [lang].
  intros (x1 & Ly & x2 & S1 & x3 & Lmo & x4 & S2 & x5 & Ld & x6 & S3 &
          x7 & Lh & x8 & S4 & x9 & Lmi & x10 & S5 & Lsec).
  apply lang_ndigits in Ly as (y & -> & Hy).
  apply (lang_sep "-" "-") in S1; [subst x1 | reflexivity].
  apply lang_ndigits in Lmo as (mo & -> & Hmo).
  apply (lang_sep "-" "-") in S2; [subst x3 | reflexivity].
  apply lang_ndigits in Ld as (d & -> & Hd).
  apply (lang_sep " " " ") in S3; [subst x5 | reflexivity].
  apply lang_ndigits in Lh as (h & -> & Hh).
  apply (lang_sep ":" ":") in S4; [subst x7 | reflexivity].
  apply lang_ndigits in Lmi as (mi & -> & Hmi).
  apply (lang_sep ":" ":") in S5; [subst x9 | reflexivity].
  apply lang_ndigits in Lsec as (sec & -> & Hsec).
  exists (stamp_text y mo d h mi sec). split.
  - unfold stamp_text. rewrite <- !app_assoc. reflexivity.
  - exists y, mo, d, h, mi, sec. auto 10.
Qed.

Lemma lang_date x x' : lang date_re x x' -> stamp_at x.
Proof. intros L. apply lang_stamp in L as (w & -> & Hw). exists w, x'. auto. Qed.

Lemma stamp_forward {A} w x c (k : list ascii -> list (nat * list ascii) -> option A) :
  stamp_shape w -> matches stamp_re (w ++ x) c k = k x c.
Proof.
  intros (y & mo & d & h & mi & sec & -> & [Ly Hy] & [Lmo Hmo] & [Ld Hd] &
          [Lh Hh] & [Lmi Hmi] & [Lsec Hsec]).
  unfold stamp_re, stamp_text, digits_re, sep. cbn [matches].
  rewrite <- !app_assoc.
  rewrite times_forward by assumption. cbn [s list_ascii_of_string app].
  replace (chr_is "-" "-") with true by reflexivity.
  rewrite times_forward by assumption. cbn [s list_ascii_of_string app].
  replace (chr_is "-" "-") with true by reflexivity.
  rewrite times_forward by assumption. cbn [s list_ascii_of_string app].
  replace (chr_is " " " ") with true by reflexivity.
  rewrite times_forward by assumption. cbn [s list_ascii_of_string app].
  replace (chr_is ":" ":") with true by reflexivity.
  rewrite times_forward by assumption. cbn [s list_ascii_of_string app].
  replace (chr_is ":" ":") with true by reflexivity.
  rewrite times_forward by assumption. reflexivity.
Qed.

Lemma date_forward w post :
  stamp_shape w -> match_here date_re (w ++ post) = Some (MatchObj w [(1, w)]).
Proof.
  intros Hw. unfold match_here, date_re. cbn [matches].
  rewrite stamp_forward by exact Hw. rewrite consumed_app. reflexivity.
Qed.

Lemma strptime_stamp y mo d h mi sec :
  ndigits 4 y -> ndigits 2 mo -> ndigits 2 d ->
  ndigits 2 h -> ndigits 2 mi -> ndigits 2 sec ->
  strptime (stamp_text y mo d h mi sec)
  = mk_datetime (int_of_digits y) (int_of_digits mo) (int_of_digits d)
      (int_of_digits h) (int_of_digits mi) (int_of_digits sec).
Proof.
  intros [Ly Hy] [Lmo Hmo] [Ld Hd] [Lh Hh] [Lmi Hmi] [Lsec Hsec].
  destruct y as [|? [|? [|? [|? [|? ?]]]]]; try discriminate.
  destruct mo as [|? [|? [|? ?]]]; try discriminate.
  destruct d as [|? [|? [|? ?]]]; try discriminate.
  destruct h as [|? [|? [|? ?]]]; try discriminate.
  destruct mi as [|? [|? [|? ?]]]; try discriminate.
  destruct sec as [|? [|? [|? ?]]]; try discriminate.
  cbn [forallb] in Hy, Hmo, Hd, Hh, Hmi, Hsec.
  repeat match goal with
         | H : _ && _ = true |- _ => apply andb_true_iff in H as [? ?]
         end.
  unfold stamp_text. cbn [s list_ascii_of_string app strptime].
  unfold all_digits. cbn [forallb].
  repeat match goal with
         | H : is_digit _ = true |- _ => rewrite H; clear H
         end.
  reflexivity.
Qed.

Lemma parse_time_first pre w post :
  stamp_shape w ->
  (forall p1 p2, pre = p1 ++ p2 -> p2 <> [] -> ~ stamp_at (p2 ++ w ++ post)) ->
  parse_time (pre ++ w ++ post) = (t ← strptime w; Ok (Some t)).
Proof.
  intros Hw Hfirst. unfold parse_time.
  rewrite search_skip.
  - rewrite (search_here _ _ _ (date_forward w post Hw)). reflexivity.
  - intros p1 p2 E Hp2. apply match_here_None. intros x' L.
    apply (Hfirst p1 p2 E Hp2). eapply lang_date, L.
Qed.

Lemma parse_time_none raw :
  (forall p1 p2, raw = p1 ++ p2 -> ~ stamp_at p2) -> parse_time raw = Ok None.
Proof.
  intros H. unfold parse_time. rewrite search_None; [reflexivity |].
  intros p1 p2 E. apply match_here_None. intros x' L.
  apply (H p1 p2 E). eapply lang_date, L.
Qed.
End Dates.

Section ParseHand.
Lemma parse_result_money_total raw hero_name :
  exists x, parse_result_money raw hero_name = Ok x.
Proof.
  unfold parse_result_money.
  destruct (search (hero_re hero_name) raw) as [m|] eqn:E; [| eauto].
  apply search_Some_inv in E as (p1 & p2 & _ & E).
  apply hero_match_number in E as (num & Hg & Hnum).
  unfold group_of. rewrite Hg. simpl.
  destruct (py_float_text num Hnum) as [x ->]. simpl. eauto.
Qed.

Lemma parse_result_bb_total bb m : exists o, parse_result_bb bb m = Ok o.
Proof.
  destruct bb as [b|]; [| exists None; reflexivity].
  rewrite parse_result_bb_Some. eauto.
Qed.

(** [parse_hand] raises only out of its first step; otherwise the hand
    it returns holds the results of the six steps. *)
Lemma parse_hand_cases raw id hero_name :
  (exists e, parse_time raw = Raise e /\ parse_hand raw id hero_name = Raise e) \/
  (exists t money bb,
     parse_time raw = Ok t /\
     parse_result_money raw hero_name = Ok money /\
     parse_result_bb (parse_bb_size raw) money = Ok bb /\
     parse_hand raw id hero_name
     = Ok (Hand.mk (parse_hand_id raw id) t (parse_limit raw) (parse_bb_size raw)
             money bb raw)).
Proof.
  unfold parse_hand. destruct (parse_time raw) as [t|e]; [right | left; eauto].
  destruct (parse_result_money_total raw hero_name) as [money Hm].
  destruct (parse_result_bb_total (parse_bb_size raw) money) as [bb Hb].
  exists t, money, bb. rewrite Hm. cbn [mbind result_bind]. rewrite Hb. auto.
Qed.

Lemma search_limit_first pre l ws ds post :
  stake_letters l -> opt_space ws -> digits ds -> no_digit_ahead post ->
  (forall p1 p2, pre = p1 ++ p2 -> p2 <> [] ->
     ~ stake_token (p2 ++ l ++ ws ++ ds ++ post)) ->
  search limit_re (pre ++ l ++ ws ++ ds ++ post)
  = Some (MatchObj (l ++ ws ++ ds) [(2, ds); (1, l)]).
Proof.
  intros Hl Hws Hds Hpost Hfirst. rewrite search_skip.
  - apply search_here, limit_forward; assumption.
  - intros p1 p2 E Hp2. apply match_here_None. intros x' L.
    apply (Hfirst p1 p2 E Hp2). eapply lang_limit, L.
Qed.

Lemma search_limit_none raw :
  (forall p1 p2, raw = p1 ++ p2 -> ~ stake_token p2) -> search limit_re raw = None.
Proof.
  intros H. apply search_None. intros p1 p2 E. apply match_here_None.
  intros x' L. apply (H p1 p2 E). eapply lang_limit, L.
Qed.

Lemma parse_bb_size_first raw l ws ds :
  search limit_re raw = Some (MatchObj (l ++ ws ++ ds) [(2, ds); (1, l)]) ->
  digits ds ->
  parse_bb_size raw = Some (fdiv (float_of_digits ds) (float_of_Z 100)).
Proof.
  intros E Hds. unfold parse_bb_size. rewrite E.
  cbn [group_of m_groups group Nat.eqb default].
  rewrite py_float_digits by exact Hds. reflexivity.
Qed.

Lemma search_hero_first hero_name pre nm gap kw sp sg ip fr post :
  same_name hero_name nm -> forallb is_dot gap = true ->
  keyword kw -> is_space sp = true ->
  sign_text sg -> digits ip -> frac_text fr -> number_ends fr post ->
  (forall p1 p2, pre = p1 ++ p2 -> p2 <> [] ->
     ~ hero_match_at hero_name
         (p2 ++ nm ++ gap ++ kw ++ sp :: (sg ++ ip ++ fr) ++ post)) ->
  (forall g1 g2, gap = g1 ++ g2 -> g2 <> [] ->
     ~ clause_at (g2 ++ kw ++ sp :: (sg ++ ip ++ fr) ++ post)) ->
  search (hero_re hero_name)
    (pre ++ nm ++ gap ++ kw ++ sp :: (sg ++ ip ++ fr) ++ post)
  = Some (MatchObj (nm ++ gap ++ kw ++ sp :: sg ++ ip ++ fr)
            ((2, sg ++ ip ++ fr) :: frac_caps fr [(1, kw)])).
Proof.
  intros Hnm Hgap Hkw Hsp Hsg Hip Hfr Hend Hfirst Hmin. rewrite search_skip.
  - apply search_here, hero_forward; assumption.
  - intros p1 p2 E Hp2. apply match_here_None. intros x' L.
    apply (Hfirst p1 p2 E Hp2). eapply lang_hero, L.
Qed.

Lemma search_hero_none hero_name raw :
  (forall p1 p2, raw = p1 ++ p2 -> ~ hero_match_at hero_name p2) ->
  search (hero_re hero_name) raw = None.
Proof.
  intros H. apply search_None. intros p1 p2 E. apply match_here_None.
  intros x' L. apply (H p1 p2 E). eapply lang_hero, L.
Qed.

Lemma group1_frac_caps fr kw : group 1 (frac_caps fr [(1, kw)]) = Some kw.
Proof. destruct fr; reflexivity. Qed.
End ParseHand.

(** C8: whenever parse_hand returns a hand (it raises only when its time
    step raises), the stake label of the hand is the upper-cased text of
    the first stake token of the block, the letters NL or PL in any case,
    optionally one white-space character, and the whole run of digits
    that follows, and it is "unknown" when the block has no stake token;
    the block "nl 25" gets the label "NL 25". *)
Theorem C8_stake_label (raw : str) (id : Z) (hero_name : str) :
  match parse_hand raw id hero_name with
  | Ok h =>
      (forall pre l ws ds post,
         raw = pre ++ l ++ ws ++ ds ++ post ->
         stake_letters l -> opt_space ws -> digits ds -> no_digit_ahead post ->
         (forall p1 p2, pre = p1 ++ p2 -> p2 <> [] ->
            ~ stake_token (p2 ++ l ++ ws ++ ds ++ post)) ->
         Hand.limit h = str_upper (l ++ ws ++ ds)) /\
      ((forall p1 p2, raw = p1 ++ p2 -> ~ stake_token p2) ->
         Hand.limit h = s "unknown") /\
      (raw = s "nl 25" -> Hand.limit h = s "NL 25")
  | Raise e => parse_time raw = Raise e
  end.
Proof.
  destruct (parse_hand_cases raw id hero_name)
    as [(e & Ht & ->)|(t & money & bb & Ht & Hm & Hb & ->)]; [exact Ht |].
  cbn [Hand.limit]. unfold parse_limit. split; [| split].
  - intros pre l ws ds post -> Hl Hws Hds Hpost Hfirst.
    rewrite search_limit_first by assumption. reflexivity.
  - intros Hnone. rewrite search_limit_none by assumption. reflexivity.
  - intros ->. reflexivity.
Qed.

(** C6: whenever parse_hand returns a hand, its bb_size is float(digits)
    / 100 for the digits of the first stake token of the block and is
    absent when the block has no stake token; its hero_result_bb is
    hero_result_money / bb_size when bb_size is present and greater than
    zero, and absent otherwise; for the token NL0 bb_size is 0.0 and
    hero_result_bb is absent. *)
Theorem C6_big_blind (raw : str) (id : Z) (hero_name : str) :
  match parse_hand raw id hero_name with
  | Ok h =>
      (forall pre l ws ds post,
         raw = pre ++ l ++ ws ++ ds ++ post ->
         stake_letters l -> opt_space ws -> digits ds -> no_digit_ahead post ->
         (forall p1 p2, pre = p1 ++ p2 -> p2 <> [] ->
            ~ stake_token (p2 ++ l ++ ws ++ ds ++ post)) ->
         Hand.bb_size h = Some (fdiv (float_of_digits ds) (float_of_Z 100))) /\
      ((forall p1 p2, raw = p1 ++ p2 -> ~ stake_token p2) ->
         Hand.bb_size h = None) /\
      Hand.hero_result_bb h
      = match Hand.bb_size h with
        | Some b =>
            if fltb fzero b then Some (fdiv (Hand.hero_result_money h) b) else None
        | None => None
        end /\
      (raw = s "NL0" ->
         Hand.bb_size h = Some fzero /\ Hand.hero_result_bb h = None)
  | Raise e => parse_time raw = Raise e
  end.
Proof.
  destruct (parse_hand_cases raw id hero_name)
    as [(e & Ht & ->)|(t & money & bb & Ht & Hm & Hb & ->)]; [exact Ht |].
  cbn [Hand.bb_size Hand.hero_result_bb Hand.hero_result_money].
  assert (Hbb : bb = match parse_bb_size raw with
                     | Some b => if fltb fzero b then Some (fdiv money b) else None
                     | None => None
                     end).
  { destruct (parse_bb_size raw) as [b|].
    - rewrite parse_result_bb_Some in Hb. congruence.
    - simpl in Hb. congruence. }
  split; [| split; [| split]].
  - intros pre l ws ds post -> Hl Hws Hds Hpost Hfirst.
    eapply parse_bb_size_first; [| exact Hds].
    apply search_limit_first; assumption.
  - intros Hnone. unfold parse_bb_size.
    rewrite search_limit_none by assumption. reflexivity.
  - exact Hbb.
  - intros ->. rewrite Hbb. split; reflexivity.
Qed.

(** C2, as the code has it: parse_hand raises exactly when the first text
    of the shape YYYY-MM-DD HH:MM:SS in the block is refused by strptime,
    with the exception strptime raises; when strptime accepts it the call
    returns a hand with that time, and when the block has no such text it
    returns a hand without a time.  strptime reads the six fields as
    numbers and raises ValueError when one of them is out of range. *)
Theorem C2_raises_only_on_invalid_timestamp (raw : str) (id : Z) (hero_name : str) :
  (forall pre w post,
     raw = pre ++ w ++ post -> stamp_shape w ->
     (forall p1 p2, pre = p1 ++ p2 -> p2 <> [] -> ~ stamp_at (p2 ++ w ++ post)) ->
     match strptime w with
     | Ok t => exists h, parse_hand raw id hero_name = Ok h /\ Hand.datetime h = Some t
     | Raise e => parse_hand raw id hero_name = Raise e
     end) /\
  ((forall p1 p2, raw = p1 ++ p2 -> ~ stamp_at p2) ->
     exists h, parse_hand raw id hero_name = Ok h /\ Hand.datetime h = None) /\
  (forall y mo d h mi sec,
     ndigits 4 y -> ndigits 2 mo -> ndigits 2 d ->
     ndigits 2 h -> ndigits 2 mi -> ndigits 2 sec ->
     strptime (stamp_text y mo d h mi sec)
     = mk_datetime (int_of_digits y) (int_of_digits mo) (int_of_digits d)
         (int_of_digits h) (int_of_digits mi) (int_of_digits sec)).
Proof.
  split; [| split].
  - intros pre w post -> Hw Hfirst.
    pose proof (parse_time_first pre w post Hw Hfirst) as Ht.
    destruct (parse_hand_cases (pre ++ w ++ post) id hero_name)
      as [(e & Ht' & ->)|(t & money & bb & Ht' & _ & _ & ->)];
      rewrite Ht in Ht'; destruct (strptime w) as [t0|e0]; simpl in Ht';
      try discriminate.
    + congruence.
    + eexists. split; [reflexivity |]. simpl. congruence.
  - intros Hnone. pose proof (parse_time_none raw Hnone) as Ht.
    destruct (parse_hand_cases raw id hero_name)
      as [(e & Ht' & ->)|(t & money & bb & Ht' & _ & _ & ->)]; [congruence |].
    eexists. split; [reflexivity |]. simpl. congruence.
  - apply strptime_stamp.
Qed.

(** C2 as stated fails: the block "2024-13-01 10:00:00" makes parse_hand
    raise ValueError. *)
Lemma C2_counterexample :
  parse_hand (s "2024-13-01 10:00:00") 0 (s "Hero") = Raise ValueError.
Proof. vm_compute. reflexivity. Qed.

(** C1, as the code has it: whenever parse_hand returns a hand, its
    hero_result_money is the number of the first match of the hero
    pattern, the name of the hero in any case, then as few characters as
    possible, none of them a line feed, then won or lost, one white-space
    character and a decimal number, taken with the sign +1 for won and -1
    for lost; it is 0.0 when the pattern matches nowhere. *)
Theorem C1_hero_result_money (raw : str) (id : Z) (hero_name : str) :
  match parse_hand raw id hero_name with
  | Ok h =>
      (forall pre nm gap kw sp sg ip fr post,
         raw = pre ++ nm ++ gap ++ kw ++ sp :: (sg ++ ip ++ fr) ++ post ->
         same_name hero_name nm -> forallb is_dot gap = true ->
         keyword kw -> is_space sp = true ->
         sign_text sg -> digits ip -> frac_text fr -> number_ends fr post ->
         (forall p1 p2, pre = p1 ++ p2 -> p2 <> [] ->
            ~ hero_match_at hero_name
                (p2 ++ nm ++ gap ++ kw ++ sp :: (sg ++ ip ++ fr) ++ post)) ->
         (forall g1 g2, gap = g1 ++ g2 -> g2 <> [] ->
            ~ clause_at (g2 ++ kw ++ sp :: (sg ++ ip ++ fr) ++ post)) ->
         Hand.hero_result_money h
         = fmul (float_of_Z (if decide (str_lower kw = s "won") then 1 else -1))
             (number_value sg ip fr)) /\
      ((forall p1 p2, raw = p1 ++ p2 -> ~ hero_match_at hero_name p2) ->
         Hand.hero_result_money h = fzero)
  | Raise e => parse_time raw = Raise e
  end.
Proof.
  destruct (parse_hand_cases raw id hero_name)
    as [(e & Ht & ->)|(t & money & bb & Ht & Hm & Hb & ->)]; [exact Ht |].
  cbn [Hand.hero_result_money]. unfold parse_result_money in Hm. split.
  - intros pre nm gap kw sp sg ip fr post -> Hnm Hgap Hkw Hsp Hsg Hip Hfr Hend Hfirst Hmin.
    rewrite search_hero_first in Hm by assumption.
    cbn [group_of m_groups group Nat.eqb default] in Hm.
    rewrite group1_frac_caps in Hm. cbn [default from_option] in Hm.
    unfold Datatypes.id in Hm.
    rewrite py_float_number in Hm by assumption.
    cbn [mbind result_bind] in Hm. congruence.
  - intros Hnone. rewrite search_hero_none in Hm by assumption. congruence.
Qed.

(** C1 as stated fails: in the block "Hero", line feed, "won 5" the name of
    the hero is followed by a won clause with the number 5, and yet
    hero_result_money is 0.0, not 5.0. *)
Lemma C1_counterexample :
  exists h,
    parse_hand (s "Hero" ++ ["010"%char] ++ s "won 5") 0 (s "Hero") = Ok h /\
    Hand.hero_result_money h = fzero /\
    fmul (float_of_Z 1) (number_value [] (s "5") []) <> fzero.
Proof.
  eexists. split; [vm_compute; reflexivity |]. split; [reflexivity |].
  vm_compute. discriminate.
Qed.

(** ** The session builder *)

Section Segmentation.
Variable gap : Z.

Lemma seg_finish_fold l : forall S c p,
  c <> [] ->
  seg_finish (fold_left (seg_step gap) l (S, c, Some p)) = S ++ seg_rec gap c p l.
Proof.
  induction l as [|h l IH]; intros S c p Hc; simpl.
  - destruct c; [congruence | reflexivity].
  - destruct (gap <? h.1 - p)%Z.
    + rewrite IH by discriminate. rewrite <- app_assoc. reflexivity.
    + rewrite IH; [reflexivity |]. destruct c; discriminate.
Qed.

Lemma segment_cons h l : segment gap (h :: l) = seg_rec gap [h] h.1 l.
Proof.
  unfold segment. simpl.
  change (seg_finish (fold_left (seg_step gap) l ([], [h], Some h.1)) = seg_rec gap [h] h.1 l).
  rewrite seg_finish_fold by discriminate. reflexivity.
Qed.

Lemma segment_nil : segment gap [] = [].
Proof. reflexivity. Qed.

Lemma seg_rec_concat l : forall c p, concat (seg_rec gap c p l) = c ++ l.
Proof.
  induction l as [|h l IH]; intros c p; simpl.
  - rewrite app_nil_r. reflexivity.
  - destruct (gap <? h.1 - p)%Z; simpl; rewrite IH; [reflexivity |].
    rewrite <- app_assoc. reflexivity.
Qed.

Lemma seg_rec_nonempty l : forall c p,
  c <> [] -> Forall (fun g => g <> []) (seg_rec gap c p l).
Proof.
  induction l as [|h l IH]; intros c p Hc; simpl.
  - constructor; [assumption | constructor].
  - destruct (gap <? h.1 - p)%Z.
    + constructor; [assumption |]. apply IH. discriminate.
    + apply IH. destruct c; discriminate.
Qed.

(** The first group extends [current]. *)
Lemma seg_rec_head l : forall c p,
  exists r gs, seg_rec gap c p l = (c ++ r) :: gs.
Proof.
  induction l as [|h l IH]; intros c p; simpl.
  - exists [], []. rewrite app_nil_r. reflexivity.
  - destruct (gap <? h.1 - p)%Z.
    + exists [], (seg_rec gap [h] h.1 l). rewrite app_nil_r. reflexivity.
    + destruct (IH (c ++ [h]) h.1) as (r & gs & E).
      exists (h :: r), gs. rewrite E, <- app_assoc. reflexivity.
Qed.

(** Between two groups next to each other the gap is exceeded. *)
Lemma seg_rec_break l : forall c p x i g g' a b,
  last c = Some x -> x.1 = p ->
  seg_rec gap c p l !! i = Some g ->
  seg_rec gap c p l !! S i = Some g' ->
  last g = Some a -> head g' = Some b ->
  (gap < b.1 - a.1)%Z.
Proof.
  induction l as [|h l IH]; intros c p x i g g' a b Hx Hp Hg Hg' Ha Hb; simpl in *.
  - destruct i; discriminate.
  - destruct (gap <? h.1 - p)%Z eqn:E.
    + destruct i as [|i]; simpl in *.
      * destruct (seg_rec_head l [h] h.1) as (r & gs & E2).
        rewrite E2 in Hg'. simplify_eq/=. lia.
      * eapply (IH [h] h.1 h i g g'); eauto.
    + eapply (IH (c ++ [h]) h.1 h i g g'); eauto.
      apply last_snoc.
Qed.

Lemma seg_rec_index0 l : forall c p j,
  j < length c -> group_index (seg_rec gap c p l) j = 0.
Proof.
  intros c p j Hj. destruct (seg_rec_head l c p) as (r & gs & E).
  rewrite E. simpl. rewrite length_app.
  destruct (Nat.ltb_spec j (length c + length r)); [reflexivity | lia].
Qed.

(** Two neighbours of the input end up in the same group exactly when
    the gap between them is not exceeded. *)
Lemma seg_rec_index l : forall c p x i a b,
  last c = Some x -> x.1 = p ->
  length c <= S i ->
  (c ++ l) !! i = Some a -> (c ++ l) !! S i = Some b ->
  group_index (seg_rec gap c p l) i = group_index (seg_rec gap c p l) (S i)
  <-> (b.1 - a.1 <= gap)%Z.
Proof.
  induction l as [|h l IH]; intros c p x i a b Hx Hp Hi Ha Hb.
  - rewrite app_nil_r in *. apply lookup_lt_Some in Hb. lia.
  - assert (Hc : 0 < length c) by (destruct c; [discriminate | simpl; lia]).
    simpl. destruct (Z.ltb_spec gap (h.1 - p)) as [E|E].
    + destruct (decide (S i = length c)) as [Hl|Hl].
      * (* the neighbours are [x] and [h] *)
        assert (a = x) as ->.
        { rewrite lookup_app_l in Ha by lia. rewrite last_lookup in Hx.
          replace (pred (length c)) with i in Hx by lia. congruence. }
        assert (b = h) as ->.
        { rewrite lookup_app_r in Hb by lia.
          replace (S i - length c) with 0 in Hb by lia. simpl in Hb. congruence. }
        simpl. destruct (Nat.ltb_spec i (length c)); [| lia].
        destruct (Nat.ltb_spec (S i) (length c)); [lia |].
        split; [discriminate | lia].
      * simpl.
        destruct (Nat.ltb_spec i (length c)); [lia |].
        destruct (Nat.ltb_spec (S i) (length c)); [lia |].
        rewrite lookup_app_r in Ha, Hb by lia.
        replace (S i - length c) with (S (i - length c)) in * by lia.
        rewrite <- (IH [h] h.1 h (i - length c) a b); simpl; auto; try lia.
    + destruct (decide (S i = length c)) as [Hl|Hl].
      * assert (a = x) as ->.
        { rewrite lookup_app_l in Ha by lia. rewrite last_lookup in Hx.
          replace (pred (length c)) with i in Hx by lia. congruence. }
        assert (b = h) as ->.
        { rewrite lookup_app_r in Hb by lia.
          replace (S i - length c) with 0 in Hb by lia. simpl in Hb. congruence. }
        rewrite !seg_rec_index0 by (rewrite length_app; simpl; lia).
        split; [lia | reflexivity].
      * apply (IH (c ++ [h]) h.1 h i a b).
        -- apply last_snoc.
        -- reflexivity.
        -- rewrite length_app. simpl. lia.
        -- rewrite <- app_assoc. exact Ha.
        -- rewrite <- app_assoc. exact Hb.
Qed.
End Segmentation.

Section Sorting.
Lemma insert_by_time_perm x l : Permutation (insert_by_time x l) (x :: l).
Proof.
  induction l as [|y l IH]; simpl; [reflexivity |].
  destruct (x.1 <=? y.1)%Z; [reflexivity |].
  rewrite IH. apply perm_swap.
Qed.

Lemma sort_by_time_perm l : Permutation (sort_by_time l) l.
Proof.
  induction l as [|x l IH]; simpl; [reflexivity |].
  rewrite insert_by_time_perm. constructor. exact IH.
Qed.

Lemma insert_by_time_sorted x l :
  StronglySorted by_time l -> StronglySorted by_time (insert_by_time x l).
Proof.
  induction l as [|y l IH]; intros Hl; simpl.
  - repeat constructor.
  - apply StronglySorted_cons in Hl as [Hy Hl].
    destruct (Z.leb_spec x.1 y.1) as [E|E].
    + apply StronglySorted_cons. split.
      * constructor; [exact E |].
        eapply Forall_impl; [exact Hy |]. unfold by_time. intros; simpl in *; lia.
      * apply StronglySorted_cons. auto.
    + apply StronglySorted_cons. split; [| auto].
      rewrite (insert_by_time_perm x l). constructor; [| exact Hy].
      unfold by_time. lia.
Qed.

Lemma sort_by_time_sorted l : StronglySorted by_time (sort_by_time l).
Proof.
  induction l as [|x l IH]; simpl; [constructor |].
  apply insert_by_time_sorted, IH.
Qed.

(** Hands with the same time keep their order: the sort is stable. *)
Lemma insert_by_time_le x l :
  Forall (fun y => (x.1 <= y.1)%Z) l -> insert_by_time x l = x :: l.
Proof.
  destruct l as [|y l]; [reflexivity |]. intros H. inv H. simpl.
  destruct (Z.leb_spec x.1 y.1); [reflexivity | lia].
Qed.

Lemma sort_by_time_id l : StronglySorted by_time l -> sort_by_time l = l.
Proof.
  induction 1 as [|x l Hl IH Hx]; simpl; [reflexivity |].
  rewrite IH. apply insert_by_time_le. exact Hx.
Qed.

Lemma with_time_datetime hands :
  Forall (fun th => Hand.datetime th.2 = Some th.1) (with_time hands).
Proof.
  induction hands as [|h hs IH]; simpl; [constructor |].
  unfold with_time in *. simpl.
  destruct (Hand.datetime h) eqn:E; simpl; [constructor |]; auto.
Qed.

Lemma with_time_filter hands :
  map snd (with_time hands) = List.filter has_time hands.
Proof.
  induction hands as [|h hs IH]; simpl; [reflexivity |].
  unfold with_time, has_time in *. simpl.
  destruct (Hand.datetime h); simpl; [f_equal |]; exact IH.
Qed.

Lemma with_time_none hands :
  Forall (fun h => Hand.datetime h = None) hands -> with_time hands = [].
Proof.
  induction 1 as [|h hs Hh _ IH]; [reflexivity |].
  unfold with_time in *. simpl. rewrite Hh. simpl. exact IH.
Qed.
End Sorting.

Section MakeSession.
Lemma last_item_cons {A} (a : A) l : exists b, last (a :: l) = Some b.
Proof.
  revert a. induction l as [|c l IH]; intros a; [exists a; reflexivity |].
  destruct (IH c) as [b Hb]. exists b. exact Hb.
Qed.

Lemma per_100_pos b n : (0 < n)%Z ->
  per_100 b n = Ok (fmul (fdiv b (float_of_Z n)) (float_of_Z 100)).
Proof.
  intros Hn. unfold per_100, truediv_int.
  destruct (Z.eqb_spec n 0); [lia | reflexivity].
Qed.

Lemma make_session_ok idx g :
  g <> [] -> exists sn, make_session idx g = Ok sn /\ session_view idx g sn.
Proof.
  destruct g as [|a g]; [congruence | intros _].
  destruct (last_item_cons a g) as [b Hb].
  unfold make_session, last_item. rewrite Hb.
  cbn [first_item mbind result_bind].
  change (truediv_int ?x 60) with (Ok (fdiv x (float_of_Z 60))).
  cbn [mbind result_bind].
  destruct (bb_sum (omap (fun h : Z * Hand.t => Hand.hero_result_bb h.2) (a :: g)))
    as [t|] eqn:Et.
  - rewrite per_100_pos by (rewrite length_cons; lia).
    eexists; split; [reflexivity |].
    unfold session_view; cbn [Session.session_id Session.hands Session.hands_count
      Session.start_time Session.end_time Session.limit Session.total_result_money
      Session.total_result_bb].
    rewrite Hb, Et. repeat split.
  - eexists; split; [reflexivity |].
    unfold session_view; cbn [Session.session_id Session.hands Session.hands_count
      Session.start_time Session.end_time Session.limit Session.total_result_money
      Session.total_result_bb].
    rewrite Hb, Et. repeat split.
Qed.

Lemma make_sessions_ok gs : forall k,
  Forall (fun g => g <> []) gs ->
  exists sessions,
    mapM (fun '(idx, sess) => make_session idx sess) (enumerate k gs) = Ok sessions /\
    length sessions = length gs /\
    forall i g, gs !! i = Some g ->
      exists sn, sessions !! i = Some sn /\ session_view (k + Z.of_nat i) g sn.
Proof.
  induction gs as [|g gs IH]; intros k Hne.
  - exists []. repeat split. intros i g Hi. destruct i; discriminate.
  - inv Hne. destruct (make_session_ok k g) as (sn & E & V); [assumption |].
    destruct (IH (k + 1)%Z) as (ss & E2 & Hlen & Hss); [assumption |].
    exists (sn :: ss). simpl. rewrite E. cbn [mbind result_bind].
    rewrite E2. cbn [mbind result_bind]. repeat split.
    + simpl. congruence.
    + intros [|i] g' Hi; simpl in *.
      * injection Hi as <-. exists sn. rewrite Z.add_0_r. auto.
      * destruct (Hss i g' Hi) as (sn' & ? & V').
        exists sn'. split; [assumption |].
        replace (k + Z.of_nat (S i))%Z with (k + 1 + Z.of_nat i)%Z by lia.
        exact V'.
Qed.
End MakeSession.

Section BuildSessions.
Lemma segment_concat gap l : concat (segment gap l) = l.
Proof.
  destruct l as [|h l]; [reflexivity |].
  rewrite segment_cons, seg_rec_concat. reflexivity.
Qed.

Lemma segment_nonempty gap l : Forall (fun g => g <> []) (segment gap l).
Proof.
  destruct l as [|h l]; [constructor |].
  rewrite segment_cons. apply seg_rec_nonempty. discriminate.
Qed.

Lemma segment_break gap l i g g' a b :
  segment gap l !! i = Some g -> segment gap l !! S i = Some g' ->
  last g = Some a -> head g' = Some b -> (gap < b.1 - a.1)%Z.
Proof.
  destruct l as [|h l]; [destruct i; discriminate |].
  rewrite segment_cons. apply (seg_rec_break gap l [h] h.1 h); reflexivity.
Qed.

Lemma segment_index gap l i a b :
  l !! i = Some a -> l !! S i = Some b ->
  group_index (segment gap l) i = group_index (segment gap l) (S i)
  <-> (b.1 - a.1 <= gap)%Z.
Proof.
  destruct l as [|h l]; [discriminate |]. intros Ha Hb.
  rewrite segment_cons.
  apply (seg_rec_index gap l [h] h.1 h i a b); simpl; auto; lia.
Qed.

Lemma group_index_map {A B} (f : A -> B) gs : forall i,
  group_index (map (map f) gs) i = group_index gs i.
Proof.
  induction gs as [|g gs IH]; intros i; simpl; [reflexivity |].
  rewrite length_map, IH. reflexivity.
Qed.

Lemma concat_sorted_groups {A} (R : relation A) gs : forall i j g g' x y,
  StronglySorted R (concat gs) -> i < j ->
  gs !! i = Some g -> gs !! j = Some g' -> x ∈ g -> y ∈ g' -> R x y.
Proof.
  induction gs as [|g0 gs IH]; intros i j g g' x y Hs Hij Hi Hj Hx Hy.
  - destruct i; discriminate.
  - simpl in Hs. apply StronglySorted_app in Hs as (Hc & _ & Hs).
    destruct j as [|j]; [lia |]. simpl in Hj.
    destruct i as [|i]; simpl in Hi.
    + injection Hi as ->. apply Hc; [assumption |].
      apply list_elem_of_In, in_concat. exists g'.
      split; apply list_elem_of_In; [eapply list_elem_of_lookup_2; eauto | assumption].
    + apply (IH i j g g'); auto. lia.
Qed.

(** The sessions [build_sessions] returns are built, one by one and in
    order, from the groups of the sorted hands. *)
Lemma timedelta_in_range G :
  gap_in_range G -> timedelta_minutes G = Ok (60 * G)%Z.
Proof.
  unfold gap_in_range, timedelta_minutes. intros [H1 H2].
  destruct (Z.leb_spec (-999999999) (60 * G / 86400)); [| lia].
  destruct (Z.leb_spec (60 * G / 86400) 999999999); [| lia]. reflexivity.
Qed.

Lemma build_sessions_groups hands G :
  gap_in_range G ->
  exists sessions,
    build_sessions hands G = Ok sessions /\
    let gs := segment (60 * G) (sort_by_time (with_time hands)) in
    length sessions = length gs /\
    forall i g, gs !! i = Some g ->
      exists sn, sessions !! i = Some sn /\ session_view (1 + Z.of_nat i) g sn.
Proof.
  intros HG. unfold build_sessions. rewrite timedelta_in_range by exact HG.
  apply make_sessions_ok, segment_nonempty.
Qed.

Lemma sessions_hands gs (sessions : list Session.t) k :
  length sessions = length gs ->
  (forall i g, gs !! i = Some g ->
     exists sn, sessions !! i = Some sn /\ session_view (k + Z.of_nat i) g sn) ->
  map Session.hands sessions = map (map snd) gs.
Proof.
  intros Hlen H. apply list_eq. intros i.
  rewrite !list_lookup_fmap.
  destruct (gs !! i) as [g|] eqn:E; simpl.
  - destruct (H i g E) as (sn & -> & V). simpl. f_equal. apply V.
  - apply lookup_ge_None in E. rewrite lookup_ge_None_2 by lia. reflexivity.
Qed.

Lemma sessions_lookup gs (sessions : list Session.t) k i sn :
  length sessions = length gs ->
  (forall i g, gs !! i = Some g ->
     exists sn, sessions !! i = Some sn /\ session_view (k + Z.of_nat i) g sn) ->
  sessions !! i = Some sn ->
  exists g, gs !! i = Some g /\ session_view (k + Z.of_nat i) g sn.
Proof.
  intros Hlen H Hi.
  destruct (gs !! i) as [g|] eqn:E.
  - destruct (H i g E) as (sn' & E' & V). exists g. split; [reflexivity |]. congruence.
  - apply lookup_ge_None in E. apply lookup_lt_Some in Hi. lia.
Qed.
End BuildSessions.

Lemma concat_group_sorted {A} (R : relation A) gs i g :
  StronglySorted R (concat gs) -> gs !! i = Some g -> StronglySorted R g.
Proof.
  revert i. induction gs as [|g0 gs IH]; intros i Hs Hi; [destruct i; discriminate |].
  simpl in Hs. apply StronglySorted_app in Hs as (_ & H0 & Hs).
  destruct i as [|i]; simpl in Hi; [congruence | eauto].
Qed.

Lemma concat_group_Forall {A} (P : A -> Prop) gs i g :
  Forall P (concat gs) -> gs !! i = Some g -> Forall P g.
Proof.
  revert i. induction gs as [|g0 gs IH]; intros i Hs Hi; [destruct i; discriminate |].
  simpl in Hs. apply Forall_app in Hs as [H0 Hs].
  destruct i as [|i]; simpl in Hi; [congruence | eauto].
Qed.

Lemma sorted_with_time_datetime hands :
  Forall (fun th => Hand.datetime th.2 = Some th.1) (sort_by_time (with_time hands)).
Proof.
  rewrite (sort_by_time_perm (with_time hands)). apply with_time_datetime.
Qed.

Lemma head_elem_of {A} (l : list A) x : head l = Some x -> x ∈ l.
Proof. destruct l; [discriminate |]. intros [= ->]. left. Qed.

Lemma last_elem_of {A} (l : list A) x : last l = Some x -> x ∈ l.
Proof.
  rewrite last_lookup. apply list_elem_of_lookup_2.
Qed.

(** C3: for a gap threshold G that timedelta can hold, build_sessions
    returns, without raising, sessions whose hands, one session after the
    other, are the hands that have a time in ascending order of time (so
    every hand with a time lies in a session, the last one and a single
    one too, and no session is empty), and two neighbours of this order
    lie in the same session exactly when the difference of their times is
    at most G minutes; a new session starts exactly when the difference
    exceeds G minutes.  The order is stated by what it is: [sorted] holds
    the hands of the input that have a time, each with its time, and is
    ascending. *)
Theorem C3_new_session_iff_gap_exceeded (hands : list Hand.t) (G : Z) :
  gap_in_range G ->
  exists sessions sorted,
    build_sessions hands G = Ok sessions /\
    Permutation (map snd sorted) (List.filter has_time hands) /\
    Forall (fun th => Hand.datetime th.2 = Some th.1) sorted /\
    StronglySorted by_time sorted /\
    concat (map Session.hands sessions) = map snd sorted /\
    Forall (fun sn => Session.hands sn <> []) sessions /\
    forall i a b, sorted !! i = Some a -> sorted !! S i = Some b ->
      group_index (map Session.hands sessions) i
        = group_index (map Session.hands sessions) (S i)
      <-> (b.1 - a.1 <= 60 * G)%Z.
Proof.
  intros HG.
  destruct (build_sessions_groups hands G HG) as (sessions & E & Hlen & Hs).
  cbv zeta in Hlen, Hs.
  set (sorted := sort_by_time (with_time hands)) in *.
  pose proof (sessions_hands _ _ _ Hlen Hs) as Hh.
  exists sessions, sorted. split; [exact E |].
  split; [| split; [| split; [| split; [| split]]]].
  - rewrite <- with_time_filter. apply Permutation_map, sort_by_time_perm.
  - apply sorted_with_time_datetime.
  - apply sort_by_time_sorted.
  - rewrite Hh, <- concat_map. rewrite segment_concat. reflexivity.
  - apply Forall_lookup. intros i sn Hi.
    destruct (sessions_lookup _ _ _ _ _ Hlen Hs Hi) as (g & Hg & V).
    destruct V as (_ & -> & _).
    pose proof (segment_nonempty (60 * G) sorted) as Hne.
    rewrite Forall_lookup in Hne. specialize (Hne i g Hg).
    destruct g; [congruence | discriminate].
  - intros i a b Ha Hb. rewrite Hh, !group_index_map.
    apply segment_index; assumption.
Qed.

(** C3 at the three hands [demo_hands] and a threshold of 30 minutes. *)
Lemma C3_witness :
  gap_in_range 30 /\
  exists sessions sorted,
    build_sessions demo_hands 30 = Ok sessions /\
    Permutation (map snd sorted) (List.filter has_time demo_hands) /\
    Forall (fun th => Hand.datetime th.2 = Some th.1) sorted /\
    StronglySorted by_time sorted /\
    concat (map Session.hands sessions) = map snd sorted /\
    Forall (fun sn => Session.hands sn <> []) sessions /\
    forall i a b, sorted !! i = Some a -> sorted !! S i = Some b ->
      group_index (map Session.hands sessions) i
        = group_index (map Session.hands sessions) (S i)
      <-> (b.1 - a.1 <= 60 * 30)%Z.
Proof.
  assert (H : gap_in_range 30) by (split; apply Z.leb_le; reflexivity).
  split; [exact H | apply (C3_new_session_iff_gap_exceeded demo_hands 30 H)].
Defined.

(** C9: for a gap threshold G that timedelta can hold, build_sessions
    returns, without raising, sessions such that: the
    hands of all sessions, one session after the other, are the hands
    that have a time in ascending order of time; every session is
    non-empty, its hands are sorted by time, its start and end times are
    the times of its first and last hand, and its session_id is its
    position counted from 1; a session earlier in the list ends no later
    than a later one starts, and strictly earlier when the gap threshold
    is not negative. *)
Theorem C9_sessions_invariant (hands : list Hand.t) (G : Z) :
  gap_in_range G ->
  exists sessions sorted,
    build_sessions hands G = Ok sessions /\
    Permutation (map snd sorted) (List.filter has_time hands) /\
    Forall (fun th => Hand.datetime th.2 = Some th.1) sorted /\
    StronglySorted by_time sorted /\
    concat (map Session.hands sessions) = map snd sorted /\
    (forall i sn, sessions !! i = Some sn ->
       Session.session_id sn = (Z.of_nat i + 1)%Z /\
       Session.hands_count sn = Z.of_nat (length (Session.hands sn)) /\
       exists g,
         g <> [] /\
         Session.hands sn = map snd g /\
         Forall (fun th => Hand.datetime th.2 = Some th.1) g /\
         StronglySorted by_time g /\
         fst <$> head g = Some (Session.start_time sn) /\
         fst <$> last g = Some (Session.end_time sn)) /\
    (forall i j si sj, i < j ->
       sessions !! i = Some si -> sessions !! j = Some sj ->
       (Session.end_time si <= Session.start_time sj)%Z /\
       ((0 <= G)%Z -> (Session.end_time si < Session.start_time sj)%Z)).
Proof.
  intros HG.
  destruct (build_sessions_groups hands G HG) as (sessions & E & Hlen & Hs).
  cbv zeta in Hlen, Hs.
  set (sorted := sort_by_time (with_time hands)) in *.
  set (gs := segment (60 * G) sorted) in *.
  pose proof (sessions_hands _ _ _ Hlen Hs) as Hh.
  pose proof (segment_concat (60 * G) sorted) as Hc. fold gs in Hc.
  pose proof (sort_by_time_sorted (with_time hands)) as Hsorted. fold sorted in Hsorted.
  pose proof (sorted_with_time_datetime hands) as Hdt. fold sorted in Hdt.
  pose proof (segment_nonempty (60 * G) sorted) as Hne. fold gs in Hne.
  rewrite Forall_lookup in Hne.
  exists sessions, sorted. split; [exact E |]. split; [| split; [| split; [| split; [| split]]]].
  - rewrite <- with_time_filter. apply Permutation_map, sort_by_time_perm.
  - exact Hdt.
  - exact Hsorted.
  - rewrite Hh, <- concat_map, Hc. reflexivity.
  - intros i sn Hi.
    destruct (sessions_lookup _ _ _ _ _ Hlen Hs Hi) as (g & Hg & V).
    destruct V as (Vid & Vh & Vc & Vs & Ve & _).
    split; [lia |]. split; [rewrite Vh, length_map; exact Vc |].
    exists g. repeat split; auto.
    + eapply Hne; eauto.
    + eapply concat_group_Forall; [| exact Hg]. rewrite Hc. exact Hdt.
    + eapply concat_group_sorted; [| exact Hg]. rewrite Hc. exact Hsorted.
  - intros i j si sj Hij Hi Hj.
    destruct (sessions_lookup _ _ _ _ _ Hlen Hs Hi) as (g & Hg & V).
    destruct (sessions_lookup _ _ _ _ _ Hlen Hs Hj) as (g' & Hg' & V').
    destruct V as (_ & _ & _ & _ & Ve & _).
    destruct V' as (_ & _ & _ & Vs' & _).
    destruct (last g) as [a|] eqn:Ha; [| discriminate].
    destruct (head g') as [b|] eqn:Hb; [| discriminate].
    simpl in Ve, Vs'. injection Ve as <-. injection Vs' as <-.
    assert (Hab : by_time a b).
    { apply (concat_sorted_groups by_time gs i j g g'); auto.
      - rewrite Hc. exact Hsorted.
      - apply last_elem_of, Ha.
      - apply head_elem_of, Hb. }
    split; [exact Hab |]. intros Hpos.
    destruct (gs !! S i) as [g1|] eqn:Hg1;
      [| apply lookup_ge_None in Hg1; apply lookup_lt_Some in Hg'; lia].
    destruct (head g1) as [b1|] eqn:Hb1;
      [| destruct g1; [exfalso; eapply Hne; eauto | discriminate]].
    pose proof (segment_break _ _ _ _ _ _ _ Hg Hg1 Ha Hb1) as Hbr.
    destruct (decide (S i = j)) as [<-|Hn].
    + assert (b1 = b) by congruence. subst. lia.
    + assert (Hb1b : by_time b1 b).
      { apply (concat_sorted_groups by_time gs (S i) j g1 g'); auto.
        - rewrite Hc. exact Hsorted.
        - lia.
        - apply head_elem_of, Hb1.
        - apply head_elem_of, Hb. }
      unfold by_time in *. lia.
Qed.

(** C9 at the three hands [demo_hands] and a threshold of 30 minutes. *)
Lemma C9_witness :
  gap_in_range 30 /\
  exists sessions sorted,
    build_sessions demo_hands 30 = Ok sessions /\
    Permutation (map snd sorted) (List.filter has_time demo_hands) /\
    Forall (fun th => Hand.datetime th.2 = Some th.1) sorted /\
    StronglySorted by_time sorted /\
    concat (map Session.hands sessions) = map snd sorted /\
    (forall i sn, sessions !! i = Some sn ->
       Session.session_id sn = (Z.of_nat i + 1)%Z /\
       Session.hands_count sn = Z.of_nat (length (Session.hands sn)) /\
       exists g,
         g <> [] /\
         Session.hands sn = map snd g /\
         Forall (fun th => Hand.datetime th.2 = Some th.1) g /\
         StronglySorted by_time g /\
         fst <$> head g = Some (Session.start_time sn) /\
         fst <$> last g = Some (Session.end_time sn)) /\
    (forall i j si sj, i < j ->
       sessions !! i = Some si -> sessions !! j = Some sj ->
       (Session.end_time si <= Session.start_time sj)%Z /\
       ((0 <= 30)%Z -> (Session.end_time si < Session.start_time sj)%Z)).
Proof.
  assert (H : gap_in_range 30) by (split; apply Z.leb_le; reflexivity).
  split; [exact H | apply (C9_sessions_invariant demo_hands 30 H)].
Defined.

(** ** The stake aggregator *)

Section Stats.
Implicit Types (d : stats_dict) (l k : str).

Lemma dict_get_set_eq k v d : dict_get k (dict_set k v d) = Some v.
Proof.
  induction d as [|[k' v'] d IH]; simpl.
  - destruct (decide (k = k)); congruence.
  - destruct (decide (k' = k)) as [->|Hn]; simpl.
    + destruct (decide (k = k)); congruence.
    + destruct (decide (k' = k)); [congruence | exact IH].
Qed.

Lemma dict_get_set_ne k l v d : k <> l -> dict_get l (dict_set k v d) = dict_get l d.
Proof.
  intros Hkl. induction d as [|[k' v'] d IH]; simpl.
  - destruct (decide (k = l)); congruence.
  - destruct (decide (k' = k)) as [->|Hn]; simpl.
    + destruct (decide (k = l)); congruence.
    + destruct (decide (k' = l)); [reflexivity | exact IH].
Qed.

Lemma dict_get_None k d : dict_get k d = None <-> k ∉ map fst d.
Proof.
  induction d as [|[k' v'] d IH]; simpl.
  - split; [intros _ H; inv H | reflexivity].
  - rewrite not_elem_of_cons. destruct (decide (k' = k)) as [->|Hn].
    + split; [discriminate | intros [H _]; congruence].
    + rewrite IH. split; [intros H; split; [congruence | exact H] | intros [_ H]; exact H].
Qed.

Lemma dict_set_keys k v d :
  map fst (dict_set k v d)
  = if decide (k ∈ map fst d) then map fst d else map fst d ++ [k].
Proof.
  induction d as [|[k' v'] d IH]; simpl.
  - destruct (decide (k ∈ [])) as [H|_]; [inv H | reflexivity].
  - destruct (decide (k' = k)) as [->|Hn]; simpl.
    + destruct (decide (k ∈ k :: map fst d)) as [_|H]; [reflexivity |].
      exfalso. apply H. left.
    + rewrite IH.
      destruct (decide (k ∈ map fst d)) as [H|H];
        destruct (decide (k ∈ k' :: map fst d)) as [H'|H']; try reflexivity.
      * exfalso. apply H'. right. exact H.
      * exfalso. apply elem_of_cons in H' as [->|H']; [congruence | auto].
Qed.

Lemma dict_set_NoDup k v d : NoDup (map fst d) -> NoDup (map fst (dict_set k v d)).
Proof.
  intros Hd. rewrite dict_set_keys.
  destruct (decide (k ∈ map fst d)) as [H|H]; [exact Hd |].
  apply NoDup_app. split; [exact Hd |]. split.
  - intros x Hx Hk. apply list_elem_of_singleton in Hk as ->. auto.
  - apply NoDup_singleton.
Qed.

Lemma dict_get_elem_of k v d :
  NoDup (map fst d) -> (k, v) ∈ d -> dict_get k d = Some v.
Proof.
  induction d as [|[k' v'] d IH]; intros Hd Hin; [inv Hin |].
  simpl in *. apply NoDup_cons in Hd as [Hk Hd].
  apply elem_of_cons in Hin as [[= -> ->]|Hin].
  - destruct (decide (k' = k')); congruence.
  - destruct (decide (k' = k)) as [->|Hn]; [| auto].
    exfalso. apply Hk. apply list_elem_of_fmap. exists (k, v). auto.
Qed.

Lemma stats_step_mixed d sn : Session.limit sn = mixed -> stats_step d sn = d.
Proof.
  intros H. unfold stats_step. fold mixed.
  destruct (decide (Session.limit sn = mixed)); [reflexivity | contradiction].
Qed.

Lemma stats_step_get d sn l :
  dict_get l (stats_step d sn)
  = if decide (Session.limit sn = l /\ l <> mixed)
    then Some (acc_add (default acc_init (dict_get l d)) sn)
    else dict_get l d.
Proof.
  unfold stats_step. fold mixed.
  destruct (decide (Session.limit sn = mixed)) as [Hm|Hm].
  - destruct (decide (Session.limit sn = l /\ l <> mixed)) as [[H1 H2]|_];
      [congruence | reflexivity].
  - destruct (decide (Session.limit sn = l /\ l <> mixed)) as [[H1 H2]|H].
    + rewrite H1. apply dict_get_set_eq.
    + apply dict_get_set_ne. intros H1. apply H. split; congruence.
Qed.

Lemma stats_step_NoDup d sn : NoDup (map fst d) -> NoDup (map fst (stats_step d sn)).
Proof.
  intros Hd. unfold stats_step.
  destruct (decide (Session.limit sn = s "mixed")); [exact Hd |].
  apply dict_set_NoDup, Hd.
Qed.

Lemma fold_stats_NoDup sessions : forall d,
  NoDup (map fst d) -> NoDup (map fst (fold_left stats_step sessions d)).
Proof.
  induction sessions as [|sn ss IH]; intros d Hd; simpl; [exact Hd |].
  apply IH, stats_step_NoDup, Hd.
Qed.

Lemma fold_stats_get sessions : forall d l,
  l <> mixed ->
  dict_get l (fold_left stats_step sessions d)
  = match dict_get l d, sessions_at l sessions with
    | None, [] => None
    | o, same => Some (fold_left acc_add same (default acc_init o))
    end.
Proof.
  unfold sessions_at.
  induction sessions as [|sn ss IH]; intros d l Hl; simpl.
  - destruct (dict_get l d); reflexivity.
  - rewrite IH by assumption. rewrite stats_step_get.
    destruct (decide (Session.limit sn = l /\ l <> mixed)) as [[H1 H2]|H].
    + rewrite filter_cons_True by assumption. simpl.
      destruct (dict_get l d); destruct (filter _ ss); reflexivity.
    + rewrite filter_cons_False by (intros H1; apply H; auto).
      reflexivity.
Qed.

Lemma fold_stats_no_mixed sessions : forall d,
  dict_get mixed d = None -> dict_get mixed (fold_left stats_step sessions d) = None.
Proof.
  induction sessions as [|sn ss IH]; intros d Hd; simpl; [exact Hd |].
  apply IH. rewrite stats_step_get.
  destruct (decide (Session.limit sn = mixed /\ mixed <> mixed)) as [[_ H]|_];
    [congruence | exact Hd].
Qed.

Lemma fold_stats_skip_mixed sessions : forall d,
  fold_left stats_step sessions d
  = fold_left stats_step (filter (fun sn => Session.limit sn <> mixed) sessions) d.
Proof.
  induction sessions as [|sn ss IH]; intros d; simpl; [reflexivity |].
  destruct (decide (Session.limit sn = mixed)) as [H|H].
  - rewrite filter_cons_False by auto. rewrite stats_step_mixed by exact H. apply IH.
  - rewrite filter_cons_True by exact H. simpl. apply IH.
Qed.

Lemma stake_bb100_ok a : exists o, stake_bb100 a = Ok o.
Proof.
  unfold stake_bb100. destruct (Z.ltb_spec 0 (StakeStat.hands_count a)); [| eauto].
  destruct (float_truthy _); [| eauto].
  rewrite per_100_pos by assumption. eauto.
Qed.

Lemma finish_stats_ok d :
  exists stats, mapM finish_stat d = Ok stats /\
    Forall2 (fun e st => finish_stat e = Ok st) d stats.
Proof.
  induction d as [|e d (stats & E & F)]; [exists []; split; [reflexivity | constructor] |].
  destruct (stake_bb100_ok e.2) as [o Ho].
  exists (StakeStat.mk e.1 e.2 (round2 <$> o) :: stats). simpl.
  assert (Hf : finish_stat e = Ok (StakeStat.mk e.1 e.2 (round2 <$> o))).
  { unfold finish_stat. rewrite Ho. reflexivity. }
  rewrite Hf. cbn [mbind result_bind]. rewrite E. cbn [mbind result_bind].
  split; [reflexivity | constructor; assumption].
Qed.

Lemma finish_stat_inv e st :
  finish_stat e = Ok st ->
  exists o, stake_bb100 e.2 = Ok o /\ StakeStat.bb_per_100 st = round2 <$> o /\
    StakeStat.limit st = e.1 /\ StakeStat.totals st = e.2.
Proof.
  unfold finish_stat. destruct (stake_bb100 e.2) as [o|] eqn:E; [| discriminate].
  cbn [mbind result_bind]. intros [= <-]. exists o. auto.
Qed.
End Stats.

Section StatsSpec.
Lemma sessions_at_elem l sessions :
  sessions_at l sessions <> [] <-> exists sn, sn ∈ sessions /\ Session.limit sn = l.
Proof.
  unfold sessions_at. split.
  - destruct (filter _ sessions) as [|sn same] eqn:E; [congruence |]. intros _.
    assert (H : sn ∈ filter (fun sn => Session.limit sn = l) sessions)
      by (rewrite E; left).
    apply list_elem_of_filter in H as [H1 H2]. eauto.
  - intros (sn & Hin & Hl) E.
    assert (H : sn ∈ filter (fun sn => Session.limit sn = l) sessions)
      by (apply list_elem_of_filter; auto).
    rewrite E in H. inv H.
Qed.

(** The entries of the result: one per label, each the running total of
    the sessions with that label. *)
Lemma build_limits_stats_spec sessions :
  exists stats,
    build_limits_stats sessions = Ok stats /\
    NoDup (map StakeStat.limit stats) /\
    (forall l, l ∈ map StakeStat.limit stats
       <-> l <> mixed /\ sessions_at l sessions <> []) /\
    forall st, st ∈ stats ->
      StakeStat.totals st
        = fold_left acc_add (sessions_at (StakeStat.limit st) sessions) acc_init /\
      finish_stat (StakeStat.limit st, StakeStat.totals st) = Ok st.
Proof.
  unfold build_limits_stats.
  set (d := fold_left stats_step sessions []).
  destruct (finish_stats_ok d) as (stats & E & F).
  assert (Hnd : NoDup (map fst d)) by (apply fold_stats_NoDup; constructor).
  assert (Hkeys : map StakeStat.limit stats = map fst d).
  { clear -F. induction F as [|e st d stats Hf _ IH]; [reflexivity |].
    simpl. destruct (finish_stat_inv _ _ Hf) as (o & _ & _ & -> & _).
    f_equal. exact IH. }
  assert (Hget : forall l, l ∈ map fst d <-> l <> mixed /\ sessions_at l sessions <> []).
  { intros l. destruct (decide (l = mixed)) as [->|Hl].
    - split; [| intros [H _]; congruence].
      intros Hin. exfalso. revert Hin. apply dict_get_None.
      apply fold_stats_no_mixed. reflexivity.
    - pose proof (fold_stats_get sessions [] l Hl) as Hg. fold d in Hg. simpl in Hg.
      split.
      + intros Hin. split; [exact Hl |]. intros Hs. rewrite Hs in Hg.
        apply dict_get_None in Hg. contradiction.
      + intros [_ Hs]. destruct (sessions_at l sessions); [congruence |].
        destruct (decide (l ∈ map fst d)) as [H|H]; [exact H |].
        apply dict_get_None in H. congruence. }
  exists stats. split; [exact E |]. split; [rewrite Hkeys; exact Hnd |].
  split; [intros l; rewrite Hkeys; apply Hget |].
  intros st Hst.
  apply list_elem_of_lookup in Hst as [i Hi].
  destruct (Forall2_lookup_r _ _ _ _ _ F Hi) as (e & He & Hf).
  destruct (finish_stat_inv _ _ Hf) as (o & _ & _ & Hl & Ht).
  assert (Hin : (e.1, e.2) ∈ d).
  { destruct e. eapply list_elem_of_lookup_2; eauto. }
  pose proof (dict_get_elem_of _ _ _ Hnd Hin) as Hg.
  assert (Hk : e.1 ∈ map fst d) by (apply list_elem_of_fmap; exists e; split; [reflexivity | destruct e; exact Hin]).
  apply Hget in Hk as [Hm Hs].
  unfold d in Hg. rewrite (fold_stats_get sessions [] _ Hm) in Hg. simpl in Hg.
  rewrite Hl, Ht. split; [| destruct e; exact Hf].
  destruct (sessions_at e.1 sessions); [congruence |].
  injection Hg as <-. reflexivity.
Qed.

Lemma remove_dups_two (labels : list (list ascii)) a b :
  a ∈ labels -> b ∈ labels -> a <> b -> session_limit labels = mixed.
Proof.
  intros Ha Hb Hab. unfold session_limit.
  apply elem_of_remove_dups in Ha, Hb.
  destruct (remove_dups labels) as [|x [|y r]]; [inv Ha | | reflexivity].
  apply list_elem_of_singleton in Ha, Hb. congruence.
Qed.
End StatsSpec.

(** C4: build_limits_stats returns, without raising, exactly one StakeStat
    per distinct stake label other than "mixed" that some session carries;
    each one is the running total of the sessions with its label; the
    result is the same when the "mixed" sessions are dropped from the
    input, so that nothing of a "mixed" session enters any StakeStat; and
    a session gets the label "mixed" as soon as two of its hands carry
    different labels. *)
Theorem C4_mixed_sessions_excluded (sessions : list Session.t) :
  exists stats,
    build_limits_stats sessions = Ok stats /\
    NoDup (map StakeStat.limit stats) /\
    (forall l, l ∈ map StakeStat.limit stats
       <-> l <> mixed /\ exists sn, sn ∈ sessions /\ Session.limit sn = l) /\
    (forall st, st ∈ stats ->
       StakeStat.totals st
         = fold_left acc_add (sessions_at (StakeStat.limit st) sessions) acc_init) /\
    build_limits_stats (filter (fun sn => Session.limit sn <> mixed) sessions)
      = Ok stats /\
    (forall labels a b, a ∈ labels -> b ∈ labels -> a <> b ->
       session_limit labels = mixed).
Proof.
  destruct (build_limits_stats_spec sessions) as (stats & E & Hnd & Hk & Hst).
  exists stats. split; [exact E |]. split; [exact Hnd |].
  split; [intros l; rewrite Hk, sessions_at_elem; reflexivity |].
  split; [intros st Hin; apply Hst, Hin |].
  split; [| apply remove_dups_two].
  unfold build_limits_stats in *. rewrite <- fold_stats_skip_mixed. exact E.
Qed.




(** ** The summary *)

Section SummarySpec.
Lemma fold_min_spec ts : forall t,
  fold_left Z.min ts t ∈ t :: ts /\
  forall x, x ∈ t :: ts -> (fold_left Z.min ts t <= x)%Z.
Proof.
  induction ts as [|u ts IH]; intros t; simpl.
  - split; [left |]. intros x Hx. apply list_elem_of_singleton in Hx. lia.
  - destruct (IH (Z.min t u)) as [Hin Hle]. split.
    + apply elem_of_cons in Hin as [Hin|Hin]; [| right; right; exact Hin].
      rewrite Hin. destruct (Z.min_spec t u) as [[_ ->]|[_ ->]]; [left | right; left].
    + intros x Hx.
      assert (H0 : (fold_left Z.min ts (Z.min t u) <= Z.min t u)%Z) by (apply Hle; left).
      apply elem_of_cons in Hx as [->|Hx]; [lia |].
      apply elem_of_cons in Hx as [->|Hx]; [lia |].
      apply Hle. right. exact Hx.
Qed.

Lemma fold_max_spec ts : forall t,
  fold_left Z.max ts t ∈ t :: ts /\
  forall x, x ∈ t :: ts -> (x <= fold_left Z.max ts t)%Z.
Proof.
  induction ts as [|u ts IH]; intros t; simpl.
  - split; [left |]. intros x Hx. apply list_elem_of_singleton in Hx. lia.
  - destruct (IH (Z.max t u)) as [Hin Hle]. split.
    + apply elem_of_cons in Hin as [Hin|Hin]; [| right; right; exact Hin].
      rewrite Hin. destruct (Z.max_spec t u) as [[_ ->]|[_ ->]]; [right; left | left].
    + intros x Hx.
      assert (H0 : (Z.max t u <= fold_left Z.max ts (Z.max t u))%Z) by (apply Hle; left).
      apply elem_of_cons in Hx as [->|Hx]; [lia |].
      apply elem_of_cons in Hx as [->|Hx]; [lia |].
      apply Hle. right. exact Hx.
Qed.

Lemma omap_datetime_none hands :
  Forall (fun h => Hand.datetime h = None) hands -> omap Hand.datetime hands = [].
Proof.
  induction 1 as [|h hs Hh _ IH]; [reflexivity |].
  simpl. rewrite Hh. exact IH.
Qed.

Lemma build_sessions_no_time hands G :
  gap_in_range G ->
  Forall (fun h => Hand.datetime h = None) hands -> build_sessions hands G = Ok [].
Proof.
  intros HG H. unfold build_sessions.
  rewrite with_time_none by exact H. rewrite timedelta_in_range by exact HG.
  reflexivity.
Qed.

(** [build_summary] on a non-empty list. *)
Lemma build_summary_cons hands sessions :
  hands <> [] ->
  exists sm,
    build_summary hands sessions = Ok sm /\
    Summary.total_hands sm = Z.of_nat (length hands) /\
    Summary.total_sessions sm = Z.of_nat (length sessions) /\
    Summary.first_hand_time sm = min_time (omap Hand.datetime hands) /\
    Summary.last_hand_time sm = max_time (omap Hand.datetime hands).
Proof.
  destruct hands as [|h hs]; [congruence | intros _].
  unfold build_summary.
  destruct (bb_sum (omap Hand.hero_result_bb (h :: hs))) as [b|].
  - rewrite per_100_pos by (rewrite length_cons; lia).
    eexists. split; [reflexivity |]. repeat split.
  - eexists. split; [reflexivity |]. repeat split.
Qed.
End SummarySpec.

(** C7: for a non-empty hand list in which no hand has a time,
    build_sessions (with a gap threshold that timedelta can hold) returns
    no session and build_summary, on the hands and
    these sessions, returns total_hands equal to the length of the list,
    total_sessions 0 and no first or last hand time; for the empty hand
    list, build_summary returns the summary whose counts and money total
    are 0 and whose other fields, the two times among them, are absent;
    for any other hand list, first_hand_time and last_hand_time are the
    least and the greatest of the times of the hands that have one. *)
Theorem C7_summary_times :
  (forall hands G,
     gap_in_range G ->
     hands <> [] -> Forall (fun h => Hand.datetime h = None) hands ->
     exists sessions sm,
       build_sessions hands G = Ok sessions /\
       build_summary hands sessions = Ok sm /\
       Summary.total_hands sm = Z.of_nat (length hands) /\
       Summary.total_sessions sm = 0%Z /\
       Summary.first_hand_time sm = None /\
       Summary.last_hand_time sm = None) /\
  (forall sessions,
     build_summary [] sessions = Ok (Summary.mk 0 0 (Int 0) None None None None)) /\
  (forall hands sessions,
     hands <> [] ->
     exists sm,
       build_summary hands sessions = Ok sm /\
       Summary.total_hands sm = Z.of_nat (length hands) /\
       Summary.total_sessions sm = Z.of_nat (length sessions) /\
       let times := omap Hand.datetime hands in
       (times = [] ->
          Summary.first_hand_time sm = None /\ Summary.last_hand_time sm = None) /\
       (times <> [] ->
          exists lo hi,
            Summary.first_hand_time sm = Some lo /\
            Summary.last_hand_time sm = Some hi /\
            lo ∈ times /\ hi ∈ times /\
            forall t, t ∈ times -> (lo <= t <= hi)%Z)).
Proof.
  split; [| split].
  - intros hands G HG Hne Hnone.
    destruct (build_summary_cons hands [] Hne) as (sm & E & Hh & Hs & Hf & Hl).
    exists [], sm. rewrite omap_datetime_none in Hf, Hl by exact Hnone.
    split; [apply build_sessions_no_time; assumption |]. auto.
  - reflexivity.
  - intros hands sessions Hne.
    destruct (build_summary_cons hands sessions Hne) as (sm & E & Hh & Hs & Hf & Hl).
    exists sm. split; [exact E |]. split; [exact Hh |]. split; [exact Hs |].
    intros times. fold times in Hf, Hl. split.
    + intros Ht. rewrite Ht in Hf, Hl. auto.
    + intros Ht. destruct times as [|t ts]; [congruence |]. simpl in Hf, Hl.
      destruct (fold_min_spec ts t) as [Hmin1 Hmin2].
      destruct (fold_max_spec ts t) as [Hmax1 Hmax2].
      exists (fold_left Z.min ts t), (fold_left Z.max ts t).
      repeat split; auto.
Qed.

(** ** The caller's list *)

Section Heap.
Implicit Types (h : gmap nat (list Hand.t)).

Lemma alloc_fresh v h l h' :
  alloc v h = (l, h') -> h !! l = None /\ h' = <[l := v]> h.
Proof.
  unfold alloc. intros [= <- <-]. split; [| reflexivity].
  apply not_elem_of_dom, is_fresh.
Qed.

Lemma load_store l v h : load l (store l v h) = v.
Proof. unfold load, store. rewrite lookup_insert_eq. reflexivity. Qed.

Lemma Forall2_heap_insert h l v (Sl : list nat) (S : list (list (Z * Hand.t))) :
  l ∉ Sl ->
  Forall2 (fun r g => h !! r = Some (map snd g)) Sl S ->
  Forall2 (fun r g => <[l := v]> h !! r = Some (map snd g)) Sl S.
Proof.
  intros Hl F. induction F as [|l0 g Sl S H F IH]; constructor.
  - rewrite lookup_insert_ne; [exact H |]. intros E. subst. apply Hl. left.
  - apply IH. intros Hin. apply Hl. right. exact Hin.
Qed.

Lemma Forall2_heap_fresh h l (Sl : list nat) (S : list (list (Z * Hand.t))) :
  h !! l = None ->
  Forall2 (fun r g => h !! r = Some (map snd g)) Sl S ->
  l ∉ Sl.
Proof.
  intros Hl F Hin. induction F as [|l0 g Sl S H F IH]; [inv Hin |].
  apply elem_of_cons in Hin as [->|Hin]; [congruence | auto].
Qed.

Lemma seg_step_inv gap h0 h st sp hand st' h' :
  seg_inv h0 h st sp ->
  seg_step_st gap st hand h = (st', h') ->
  seg_inv h0 h' st' (seg_step gap sp hand).
Proof.
  destruct st as [[Sl cl] pv], sp as [[S c] pv'].
  intros (Hpv & Hsub & Hc & HS & Hnin & H0) Hstep. simpl in *. subst pv'.
  unfold seg_step_st, alloc in Hstep.
  assert (Hl : h !! fresh (dom h) = None) by apply not_elem_of_dom, is_fresh.
  assert (Halloc : forall Sl' S',
            Forall2 (fun r g => h !! r = Some (map snd g)) Sl' S' ->
            seg_inv h0 (<[fresh (dom h) := [hand.2]]> h)
              (Sl', fresh (dom h), Some hand.1) (S', [hand], Some hand.1)).
  { intros Sl' S' F. unfold seg_inv. simpl.
    pose proof (Forall2_heap_fresh _ _ _ _ Hl F) as Hn.
    split; [reflexivity |]. split; [apply insert_subseteq_r; [| exact Hsub] |].
    - eapply lookup_weaken_None; eauto.
    - split; [apply lookup_insert_eq |]. split; [apply Forall2_heap_insert; auto |].
      split; [exact Hn |]. eapply lookup_weaken_None; eauto. }
  destruct pv as [p|].
  - destruct (gap <? hand.1 - p)%Z.
    + injection Hstep as <- <-. apply Halloc.
      apply Forall2_app; [exact HS |]. constructor; [exact Hc | constructor].
    + injection Hstep as <- <-. unfold seg_inv, store, load. simpl.
      rewrite Hc. simpl.
      split; [reflexivity |]. split; [apply insert_subseteq_r; assumption |].
      split; [rewrite lookup_insert_eq, map_app; reflexivity |].
      split; [apply Forall2_heap_insert; assumption |]. auto.
  - injection Hstep as <- <-. apply Halloc. exact HS.
Qed.

Lemma seg_loop_inv gap h0 hands : forall h st sp st' h',
  seg_inv h0 h st sp ->
  seg_loop_st gap hands st h = (st', h') ->
  seg_inv h0 h' st' (fold_left (seg_step gap) hands sp).
Proof.
  induction hands as [|hand rest IH]; intros h st sp st' h' Hinv Hloop; simpl in *.
  - injection Hloop as <- <-. exact Hinv.
  - destruct (seg_step_st gap st hand h) as [st1 h1] eqn:E.
    eapply IH; [| exact Hloop]. eapply seg_step_inv; eauto.
Qed.

Lemma with_time_map_snd (g : list (Z * Hand.t)) :
  Forall (fun th => Hand.datetime th.2 = Some th.1) g -> with_time (map snd g) = g.
Proof.
  induction 1 as [|[t x] g H _ IH]; [reflexivity |].
  unfold with_time in *. simpl in *. rewrite H. simpl. f_equal. exact IH.
Qed.

Lemma mapM_ext {X Y} (f g : X -> result Y) l :
  Forall (fun x => f x = g x) l -> mapM f l = mapM g l.
Proof.
  induction 1 as [|x l H _ IH]; [reflexivity |]. simpl. rewrite H, IH. reflexivity.
Qed.

Lemma make_sessions_heap h (Sl : list nat) (S : list (list (Z * Hand.t))) : forall k,
  Forall2 (fun r g => h !! r = Some (map snd g)) Sl S ->
  Forall (Forall (fun th => Hand.datetime th.2 = Some th.1)) S ->
  mapM (fun '(idx, sess) => make_session idx (with_time (load sess h))) (enumerate k Sl)
  = mapM (fun '(idx, sess) => make_session idx sess) (enumerate k S).
Proof.
  intros k F. revert k. induction F as [|l g Sl S H F IH]; intros k HS; [reflexivity |].
  inv HS. cbn [enumerate mapM].
  replace (load l h) with (map snd g) by (unfold load; rewrite H; reflexivity).
  rewrite with_time_map_snd by assumption. rewrite IH by assumption. reflexivity.
Qed.

Lemma with_time_filter_has_time hands :
  with_time (List.filter has_time hands) = with_time hands.
Proof.
  induction hands as [|x hs IH]; [reflexivity |].
  unfold with_time, has_time in *. simpl.
  destruct (Hand.datetime x) eqn:E; simpl; [rewrite E; simpl; f_equal |]; exact IH.
Qed.

Lemma Forall_concat_groups {X} (P : X -> Prop) gs :
  Forall P (concat gs) -> Forall (Forall P) gs.
Proof.
  induction gs as [|g gs IH]; simpl; intros H; [constructor |].
  apply Forall_app in H as [H1 H2]. constructor; auto.
Qed.

(** [build_sessions] on the heap returns what [build_sessions] on the
    contents of the list returns, and leaves every list that existed
    before the call as it was. *)
Lemma build_sessions_st_spec h l hs G :
  h !! l = Some hs ->
  exists h', build_sessions_st l G h = (build_sessions hs G, h') /\ h ⊆ h'.
Proof.
  intros Hl. unfold build_sessions_st.
  destruct (alloc (List.filter has_time (load l h)) h) as [l1 h1] eqn:A1.
  apply alloc_fresh in A1 as [F1 ->].
  set (sorted := sort_by_time (with_time hs)).
  assert (Hload1 : load l1 (<[l1 := List.filter has_time (load l h)]> h)
                   = List.filter has_time hs).
  { unfold load. rewrite lookup_insert_eq, Hl. reflexivity. }
  rewrite Hload1, with_time_filter_has_time. fold sorted.
  unfold store. rewrite insert_insert_eq.
  unfold build_sessions. fold sorted.
  destruct (timedelta_minutes G) as [gap|e].
  2: { eexists. split; [reflexivity |]. apply insert_subseteq. exact F1. }
  cbn [mbind result_bind].
  destruct (alloc [] (<[l1 := map snd sorted]> h)) as [l2 h3] eqn:A2.
  apply alloc_fresh in A2 as [F2 ->].
  assert (Hne : l2 <> l1).
  { intros ->. rewrite lookup_insert_eq in F2. discriminate. }
  assert (Hload2 : load l1 (<[l2 := []]> (<[l1 := map snd sorted]> h)) = map snd sorted).
  { unfold load. rewrite lookup_insert_ne by exact Hne. rewrite lookup_insert_eq. reflexivity. }
  rewrite Hload2.
  pose proof (sorted_with_time_datetime hs) as Hdt. fold sorted in Hdt.
  rewrite with_time_map_snd by exact Hdt.
  set (h3 := <[l2 := []]> (<[l1 := map snd sorted]> h)).
  assert (Hsub : h ⊆ h3).
  { unfold h3. apply insert_subseteq_r.
    - rewrite lookup_insert_ne in F2; [exact F2 | congruence].
    - apply insert_subseteq. exact F1. }
  assert (Hinv : seg_inv h h3 ([], l2, None) ([], [], None)).
  { unfold seg_inv. simpl. split; [reflexivity |]. split; [exact Hsub |].
    split; [apply lookup_insert_eq |]. split; [constructor |].
    split; [intros H; inv H |].
    rewrite lookup_insert_ne in F2; [exact F2 | congruence]. }
  destruct (seg_loop_st gap sorted ([], l2, None) h3)
    as [[[Sl cl] pv] h4] eqn:Eloop.
  pose proof (seg_loop_inv _ _ _ _ _ _ _ _ Hinv Eloop) as Hfin.
  unfold segment.
  destruct (fold_left (seg_step gap) sorted ([], [], None))
    as [[S c] pv'] eqn:Efold.
  destruct Hfin as (_ & Hsub4 & Hc & HS & _ & _). simpl in Hc, HS.
  exists h4. split; [| exact Hsub4]. f_equal.
  assert (Hgs : Forall (Forall (fun th : Z * Hand.t => Hand.datetime th.2 = Some th.1))
                  (segment gap sorted)).
  { apply Forall_concat_groups. rewrite segment_concat. exact Hdt. }
  unfold segment in Hgs. rewrite Efold in Hgs.
  replace (load cl h4) with (map snd c) by (unfold load; rewrite Hc; reflexivity).
  destruct c as [|x c]; simpl map.
  - apply make_sessions_heap; assumption.
  - apply make_sessions_heap; [| assumption].
    apply Forall2_app; [exact HS |]. constructor; [exact Hc | constructor].
Qed.
End Heap.

(** C10: when the caller's list holds the hands hs, build_sessions run on
    the heap returns what build_sessions returns on hs, every list that
    existed before the call, the caller's list among them, has the same
    contents after the call, and build_summary called next on the same
    list reads hs, in the order the caller had. *)
Theorem C10_caller_list_unchanged (h : gmap nat (list Hand.t)) (l : nat)
    (hs : list Hand.t) (G : Z) :
  h !! l = Some hs ->
  exists h',
    build_sessions_st l G h = (build_sessions hs G, h') /\
    (forall l' v, h !! l' = Some v -> h' !! l' = Some v) /\
    load l h' = hs /\
    sessions_then_summary l G h
    = (sessions ← build_sessions hs G;
       summary ← build_summary hs sessions;
       Ok (sessions, summary), h').
Proof.
  intros Hl. destruct (build_sessions_st_spec h l hs G Hl) as (h' & E & Hsub).
  assert (Hload : load l h' = hs).
  { unfold load. rewrite (lookup_weaken _ _ _ _ Hl Hsub). reflexivity. }
  exists h'. split; [exact E |]. split; [| split; [exact Hload |]].
  - intros l' v Hv. eapply lookup_weaken; eauto.
  - unfold sessions_then_summary. rewrite E, Hload. reflexivity.
Qed.

(** C10 at the heap [demo_heap]. *)
Lemma C10_witness :
  exists hs, demo_heap !! 0 = Some hs /\
  exists h', build_sessions_st 0 30 demo_heap = (build_sessions hs 30, h') /\
    (forall l' v, demo_heap !! l' = Some v -> h' !! l' = Some v) /\
    load 0 h' = hs /\
    sessions_then_summary 0 30 demo_heap
    = (sessions ← build_sessions hs 30;
       summary ← build_summary hs sessions;
       Ok (sessions, summary), h').
Proof.
  eexists. split; [reflexivity |].
  apply (C10_caller_list_unchanged demo_heap 0 _ 30). reflexivity.
Defined.

(** ** Instances and scenarios *)


Example demo_limits_stats :
  build_limits_stats demo_sessions
  = Ok [StakeStat.mk (s "NL25") (StakeStat.mk_acc 2 3 fzero fzero) None;
        StakeStat.mk (s "NL50") (StakeStat.mk_acc 1 4 (float_of_Z 1) (float_of_Z 2))
          (Some (float_of_Z 50))].
Proof. vm_compute. reflexivity. Qed.

Section TwoHands.
Variables (h1 h2 : Hand.t) (t : Z) (G : Z).
Hypothesis (HG : (0 <= G)%Z).
Hypothesis (HR : gap_in_range G).
Hypothesis (H1 : Hand.datetime h1 = Some t).

Lemma two_hands_sessions t2 :
  Hand.datetime h2 = Some t2 -> (t <= t2)%Z ->
  exists sessions,
    build_sessions [h1; h2] G = Ok sessions /\
    map Session.hands sessions
    = if (60 * G <? t2 - t)%Z then [[h1]; [h2]] else [[h1; h2]].
Proof.
  intros H2 Hle.
  destruct (build_sessions_groups [h1; h2] G HR) as (sessions & E & Hlen & Hs).
  exists sessions. split; [exact E |].
  rewrite (sessions_hands _ _ _ Hlen Hs).
  unfold with_time. simpl. rewrite H1, H2. simpl.
  destruct (Z.leb_spec t t2); [| lia].
  unfold segment. simpl.
  destruct (60 * G <? t2 - t)%Z; reflexivity.
Qed.

(** Two hands exactly G minutes apart share a session. *)
Lemma two_hands_at_gap :
  Hand.datetime h2 = Some (t + 60 * G)%Z ->
  exists sessions,
    build_sessions [h1; h2] G = Ok sessions /\
    map Session.hands sessions = [[h1; h2]].
Proof.
  intros H2. destruct (two_hands_sessions _ H2) as (ss & E & Hh); [lia |].
  exists ss. split; [exact E |]. rewrite Hh.
  destruct (Z.ltb_spec (60 * G) (t + 60 * G - t)); [lia | reflexivity].
Qed.

(** Two hands more than G minutes apart are in two sessions. *)
Lemma two_hands_beyond_gap e :
  (0 < e)%Z -> Hand.datetime h2 = Some (t + 60 * G + e)%Z ->
  exists sessions,
    build_sessions [h1; h2] G = Ok sessions /\
    map Session.hands sessions = [[h1]; [h2]].
Proof.
  intros He H2. destruct (two_hands_sessions _ H2) as (ss & E & Hh); [lia |].
  exists ss. split; [exact E |]. rewrite Hh.
  destruct (Z.ltb_spec (60 * G) (t + 60 * G + e - t)); [reflexivity | lia].
Qed.
End TwoHands.

(** One hand with a time gives one session. *)
Lemma single_hand_session h t G :
  gap_in_range G ->
  Hand.datetime h = Some t ->
  exists sessions,
    build_sessions [h] G = Ok sessions /\ map Session.hands sessions = [[h]].
Proof.
  intros HG H.
  destruct (build_sessions_groups [h] G HG) as (sessions & E & Hlen & Hs).
  exists sessions. split; [exact E |].
  rewrite (sessions_hands _ _ _ Hlen Hs).
  unfold with_time. simpl. rewrite H. reflexivity.
Qed.

(** The sessions of [build_sessions] have a positive number of hands. *)
Lemma build_sessions_hands_count hands G sessions :
  build_sessions hands G = Ok sessions ->
  Forall (fun sn => (0 < Session.hands_count sn)%Z) sessions.
Proof.
  intros E.
  assert (HG : gap_in_range G).
  { unfold build_sessions, timedelta_minutes, gap_in_range in *.
    destruct (Z.leb_spec (-999999999) (60 * G / 86400)); [| discriminate].
    destruct (Z.leb_spec (60 * G / 86400) 999999999); [lia | discriminate]. }
  destruct (build_sessions_groups hands G HG) as (ss & E' & Hlen & Hs).
  assert (ss = sessions) by congruence. subst ss.
  apply Forall_lookup. intros i sn Hi.
  destruct (sessions_lookup _ _ _ _ _ Hlen Hs Hi) as (g & Hg & V).
  destruct V as (_ & _ & -> & _).
  pose proof (segment_nonempty (60 * G) (sort_by_time (with_time hands))) as Hne.
  rewrite Forall_lookup in Hne. specialize (Hne i g Hg).
  destruct g; [congruence | simpl; lia].
Qed.

Example scenario_one_session :
  (fun ss => map (fun sn => (Session.session_id sn, Session.hands_count sn,
                             Session.total_result_money sn, Session.total_result_bb sn,
                             Session.bb_per_100 sn)) ss)
    <$> (match build_sessions (scenario_hands "10:20:00") 30 with Ok ss => Some ss | Raise _ => None end)
  = Some [(1%Z, 2%Z, fdiv (float_of_Z 3) (float_of_Z 2), Some (float_of_Z 6), Some (float_of_Z 300))].
Proof. vm_compute. reflexivity. Qed.

Example scenario_two_sessions :
  (fun ss => map (fun sn => (Session.session_id sn, Session.hands_count sn)) ss)
    <$> (match build_sessions (scenario_hands "10:31:00") 30 with Ok ss => Some ss | Raise _ => None end)
  = Some [(1%Z, 1%Z); (2%Z, 1%Z)].
Proof. vm_compute. reflexivity. Qed.

(* ================================================================== *)
(** * Blocks, identifiers, counts and the export *)
(* ================================================================== *)

(** ** Splitting a file into blocks *)

Section MatcherMore.
Context {A : Type}.
Implicit Types (k : list ascii -> list (nat * list ascii) -> option A).

Lemma star_None_inv p g x : forall c k,
  star p g x c k = None ->
  forall w x', x = w ++ x' -> forallb p w = true -> k x' c = None.
Proof.
  induction x as [|a x IH]; intros c k H w x' E Hw.
  - destruct w; [| discriminate]. simpl in E. subst x'.
    destruct g; simpl in H; [exact H |]. destruct (k [] c); [discriminate | reflexivity].
  - assert (Hk : k (a :: x) c = None /\ (p a = true -> star p g x c k = None)).
    { destruct g; simpl in H.
      - destruct (p a).
        + destruct (star p true x c k); [discriminate |]. simpl in H. auto.
        + split; [exact H | discriminate].
      - destruct (k (a :: x) c); [discriminate |]. simpl in H.
        split; [reflexivity |]. intros Ha. rewrite Ha in H. exact H. }
    destruct Hk as [Hk Hrec].
    destruct w as [|b w]; simpl in E.
    + subst x'. exact Hk.
    + injection E as <- ->. simpl in Hw. apply andb_true_iff in Hw as [Hb Hw].
      eapply IH; [apply Hrec, Hb | reflexivity | exact Hw].
Qed.

(** A failed run leaves no match of the pattern whose continuation
    succeeds. *)
Lemma matches_None_inv r : forall x c k,
  matches r x c k = None ->
  forall x', lang r x x' -> exists c', k x' c' = None.
Proof.
  induction r as [|p|r1 IH1 r2 IH2|r1 IH1 r2 IH2|r1 IH1|p g|n r1 IH1];
    intros x c k H x' L; simpl in *.
  - subst. eauto.
  - destruct L as (a & -> & Ha). rewrite Ha in H. eauto.
  - destruct L as (x1 & L1 & L2).
    destruct (IH1 _ _ _ H _ L1) as (c1 & H1). eapply IH2; eauto.
  - destruct (matches r1 x c k) eqn:E1; [discriminate |]. simpl in H.
    destruct L as [L|L]; eauto.
  - destruct (matches r1 x c k) eqn:E1; [discriminate |]. simpl in H.
    destruct L as [L| ->]; eauto.
  - destruct L as (w & -> & Hw). exists c. eapply star_None_inv; eauto.
  - destruct (IH1 _ _ _ H _ L) as (c1 & H1). eauto.
Qed.
End MatcherMore.

Lemma match_here_None_inv r x x' : match_here r x = None -> ~ lang r x x'.
Proof.
  intros H L. destruct (matches_None_inv r _ _ _ H _ L) as (c' & Hc). discriminate.
Qed.

Section Strip.
Lemma lstrip_decomp x :
  exists w, x = w ++ lstrip x /\ forallb is_space w = true.
Proof.
  induction x as [|a x (w & E & Hw)]; simpl.
  - exists []. auto.
  - destruct (is_space a) eqn:Ea.
    + exists (a :: w). simpl. rewrite Ea. split; [congruence | exact Hw].
    + exists []. auto.
Qed.

Lemma lstrip_head x a : head (lstrip x) = Some a -> is_space a = false.
Proof.
  induction x as [|b x IH]; simpl; [discriminate |].
  destruct (is_space b) eqn:Eb; [exact IH |]. simpl. congruence.
Qed.

Lemma lstrip_spaces x : forallb is_space x = true -> lstrip x = [].
Proof.
  induction x as [|a x IH]; simpl; [reflexivity |].
  intros H. apply andb_true_iff in H as [Ha H]. rewrite Ha. auto.
Qed.

Lemma lstrip_id x : (forall a, head x = Some a -> is_space a = false) -> lstrip x = x.
Proof.
  destruct x as [|b x]; [reflexivity |]. intros H. simpl. rewrite (H b); reflexivity.
Qed.

Lemma rstrip_decomp x :
  exists w, x = rstrip x ++ w /\ forallb is_space w = true.
Proof.
  unfold rstrip. destruct (lstrip_decomp (rev x)) as (w & E & Hw).
  exists (rev w). split.
  - rewrite <- rev_app_distr, <- E, rev_involutive. reflexivity.
  - rewrite forallb_forall in *. intros a Ha. apply Hw, in_rev, Ha.
Qed.

Lemma rstrip_last x a : last (rstrip x) = Some a -> is_space a = false.
Proof.
  unfold rstrip. intros H. apply (lstrip_head (rev x)).
  rewrite <- (rev_involutive (lstrip (rev x))) at 1.
  destruct (rev (lstrip (rev x))) as [|b l] using rev_ind; [discriminate |].
  rewrite last_snoc in H. rewrite rev_app_distr. simpl. exact H.
Qed.

Lemma rstrip_head x a :
  (forall b, head x = Some b -> is_space b = false) ->
  head (rstrip x) = Some a -> is_space a = false.
Proof.
  intros Hx H. destruct (rstrip_decomp x) as (w & E & _).
  apply Hx. rewrite E. destruct (rstrip x); [discriminate | exact H].
Qed.

Lemma strip_decomp x :
  exists w1 w2, x = w1 ++ strip x ++ w2 /\
    forallb is_space w1 = true /\ forallb is_space w2 = true.
Proof.
  unfold strip. destruct (lstrip_decomp x) as (w1 & E1 & H1).
  destruct (rstrip_decomp (lstrip x)) as (w2 & E2 & H2).
  exists w1, w2. split; [| auto]. rewrite <- E2. exact E1.
Qed.

Lemma strip_head x a : head (strip x) = Some a -> is_space a = false.
Proof. apply rstrip_head. apply lstrip_head. Qed.

Lemma strip_last x a : last (strip x) = Some a -> is_space a = false.
Proof. apply rstrip_last. Qed.

Lemma strip_spaces x : forallb is_space x = true -> strip x = [].
Proof. intros H. unfold strip. rewrite lstrip_spaces by exact H. reflexivity. Qed.

Lemma rstrip_id x : (forall a, last x = Some a -> is_space a = false) -> rstrip x = x.
Proof.
  intros H. unfold rstrip. rewrite lstrip_id; [apply rev_involutive |].
  intros a Ha. apply H. rewrite <- (rev_involutive x).
  destruct (rev x) as [|b l]; [discriminate |]. simpl in *.
  rewrite last_snoc. exact Ha.
Qed.

Lemma strip_id x :
  (forall a, head x = Some a -> is_space a = false) ->
  (forall a, last x = Some a -> is_space a = false) ->
  strip x = x.
Proof.
  intros H1 H2. unfold strip. rewrite lstrip_id by exact H1. apply rstrip_id, H2.
Qed.

Lemma strip_strip x : strip (strip x) = strip x.
Proof. apply strip_id; [apply strip_head | apply strip_last]. Qed.

Lemma filter_nonspace_spaces w :
  forallb is_space w = true -> List.filter nonspace w = [].
Proof.
  induction w as [|a w IH]; simpl; [reflexivity |]. intros H.
  apply andb_true_iff in H as [Ha H]. unfold nonspace at 1. rewrite Ha. simpl. auto.
Qed.

Lemma filter_nonspace_strip x : List.filter nonspace (strip x) = List.filter nonspace x.
Proof.
  destruct (strip_decomp x) as (w1 & w2 & E & H1 & H2).
  rewrite E at 2. rewrite !List.filter_app.
  rewrite (filter_nonspace_spaces w1 H1), (filter_nonspace_spaces w2 H2).
  rewrite app_nil_r. reflexivity.
Qed.
End Strip.

Section Split.
Lemma lang_blank x x' :
  lang blank_re x x' <->
  exists ws, x = newline :: ws ++ newline :: x' /\ forallb is_space ws = true.
Proof.
  unfold blank_re. cbn [lang]. split.
  - intros (x1 & (a & -> & Ha) & x2 & (ws & -> & Hws) & (b & -> & Hb)).
    apply lit_eq in Ha, Hb. subst. eauto.
  - intros (ws & -> & Hws). exists (ws ++ newline :: x'). split.
    + exists newline. split; reflexivity.
    + exists (newline :: x'). split; [eauto |]. exists newline. split; reflexivity.
Qed.

Lemma blank_line_lang y : blank_line_at y <-> exists y', lang blank_re y y'.
Proof.
  unfold blank_line_at. split.
  - intros (ws & rest & -> & Hws). exists rest. apply lang_blank. eauto.
  - intros (y' & L). apply lang_blank in L as (ws & -> & Hws). eauto.
Qed.

Lemma match_blank_None y : match_here blank_re y = None <-> ~ blank_line_at y.
Proof.
  split.
  - intros H B. apply blank_line_lang in B as (y' & L).
    eapply match_here_None_inv; eauto.
  - intros H. apply match_here_None. intros x' L. apply H, blank_line_lang. eauto.
Qed.

(** What a match of the blank-line pattern consumes. *)
Lemma match_blank_Some y m :
  match_here blank_re y = Some m ->
  exists ws rest,
    y = newline :: ws ++ newline :: rest /\ forallb is_space ws = true /\
    m_group0 m = newline :: ws ++ [newline].
Proof.
  intros H. apply matches_Some_inv in H as (x' & c' & L & H). injection H as <-.
  apply lang_blank in L as (ws & -> & Hws). exists ws, x'. split; [reflexivity |].
  split; [exact Hws |]. simpl.
  change (newline :: ws ++ newline :: x') with ((newline :: ws) ++ [newline] ++ x').
  rewrite app_assoc, consumed_app. reflexivity.
Qed.

Lemma split_go_skip r w : forall cur x,
  split_go r (length w) cur (w ++ x) = split_go r 0 cur x \/ x = [].
Proof.
  induction w as [|a w IH]; intros cur x; simpl; [left; destruct x; reflexivity |].
  apply IH.
Qed.

Lemma split_go_skip_nil r n : forall cur x, length x <= n -> split_go r n cur x = [cur].
Proof.
  induction n as [|n IH]; intros cur [|a x] H; simpl in *; try reflexivity; try lia.
  apply IH. lia.
Qed.

(** The three equations of the scan with [blank_re]. *)
Lemma split_blank_nil cur : split_go blank_re 0 cur [] = [cur].
Proof. reflexivity. Qed.

Lemma split_blank_miss cur a x :
  ~ blank_line_at (a :: x) ->
  split_go blank_re 0 cur (a :: x) = split_go blank_re 0 (cur ++ [a]) x.
Proof. intros H. apply match_blank_None in H. simpl. rewrite H. reflexivity. Qed.

Lemma split_blank_hit cur ws rest :
  forallb is_space ws = true ->
  exists ws' rest',
    newline :: ws ++ newline :: rest = newline :: ws' ++ newline :: rest' /\
    forallb is_space ws' = true /\
    split_go blank_re 0 cur (newline :: ws ++ newline :: rest)
    = cur :: split_go blank_re 0 [] rest'.
Proof.
  intros Hws.
  destruct (match_here blank_re (newline :: ws ++ newline :: rest)) as [m|] eqn:E.
  - destruct (match_blank_Some _ _ E) as (ws' & rest' & E' & Hws' & Hg).
    exists ws', rest'. split; [exact E' |]. split; [exact Hws' |].
    cbn [split_go]. rewrite E, Hg. cbn [length].
    injection E' as E'. rewrite E'.
    destruct rest' as [|b rest'].
    + rewrite split_go_skip_nil; [reflexivity |]. rewrite !length_app. simpl. lia.
    + replace (ws' ++ newline :: b :: rest') with ((ws' ++ [newline]) ++ b :: rest')
        by (rewrite <- app_assoc; reflexivity).
      destruct (split_go_skip blank_re (ws' ++ [newline]) [] (b :: rest')) as [->|?];
        [reflexivity | discriminate].
  - exfalso. apply match_blank_None in E. apply E. exists ws, rest. auto.
Qed.
End Split.

Section SplitProps.
Lemma blank_line_nil : ~ blank_line_at [].
Proof. intros (ws & rest & E & _). discriminate. Qed.

Lemma blank_line_app y z : blank_line_at y -> blank_line_at (y ++ z).
Proof.
  intros (ws & rest & -> & Hws). exists ws, (rest ++ z). split; [| exact Hws].
  simpl. rewrite <- app_assoc. reflexivity.
Qed.

Lemma split_blank_cases cur a x :
  (~ blank_line_at (a :: x) /\
   split_go blank_re 0 cur (a :: x) = split_go blank_re 0 (cur ++ [a]) x) \/
  (exists ws rest,
     a :: x = newline :: ws ++ newline :: rest /\ forallb is_space ws = true /\
     split_go blank_re 0 cur (a :: x) = cur :: split_go blank_re 0 [] rest).
Proof.
  destruct (match_here blank_re (a :: x)) as [m|] eqn:E.
  - right. destruct (match_blank_Some _ _ E) as (ws & rest & E' & Hws & _).
    rewrite E'. destruct (split_blank_hit cur ws rest Hws) as (ws' & rest' & E2 & H2 & H3).
    exists ws', rest'. auto.
  - left. apply match_blank_None in E. split; [exact E |]. apply split_blank_miss, E.
Qed.

Lemma split_content n : forall cur x,
  length x <= n ->
  List.filter nonspace (concat (split_go blank_re 0 cur x))
  = List.filter nonspace (cur ++ x).
Proof.
  induction n as [|n IH]; intros cur [|a x] Hn; simpl in Hn; try lia;
    try (simpl; rewrite !app_nil_r; reflexivity).
  destruct (split_blank_cases cur a x) as [[_ ->]|(ws & rest & E & Hws & ->)].
  - rewrite IH by lia. rewrite <- app_assoc. reflexivity.
  - assert (Hl : length rest <= n).
    { apply (f_equal (@length ascii)) in E. simpl in E.
      rewrite length_app in E. simpl in E. lia. }
    rewrite E. simpl concat. rewrite !List.filter_app, IH by exact Hl.
    f_equal. change ([] ++ rest) with rest.
    replace (newline :: ws ++ newline :: rest)
      with (([newline] ++ ws ++ [newline]) ++ rest)
      by (simpl; rewrite <- app_assoc; reflexivity).
    rewrite List.filter_app.
    rewrite (filter_nonspace_spaces ([newline] ++ ws ++ [newline])); [reflexivity |].
    rewrite !forallb_app, Hws. reflexivity.
Qed.

Lemma split_single x : forall cur,
  (forall p1 p2, x = p1 ++ p2 -> ~ blank_line_at p2) ->
  split_go blank_re 0 cur x = [cur ++ x].
Proof.
  induction x as [|a x IH]; intros cur H; [simpl; rewrite app_nil_r; reflexivity |].
  rewrite split_blank_miss by (apply (H []); reflexivity).
  rewrite IH; [rewrite <- app_assoc; reflexivity |].
  intros p1 p2 ->. apply (H (a :: p1)). reflexivity.
Qed.

Lemma snoc_suffix {X} (cur : list X) a p1 p2 :
  cur ++ [a] = p1 ++ p2 -> p2 <> [] -> exists q, p2 = q ++ [a] /\ cur = p1 ++ q.
Proof.
  intros E Hp2. destruct p2 as [|b p2 _] using rev_ind; [congruence |].
  rewrite app_assoc in E. apply app_inj_tail in E as [-> ->]. eauto.
Qed.

Lemma split_no_blank n : forall cur x,
  length x <= n ->
  (forall p1 p2, cur = p1 ++ p2 -> p2 <> [] -> ~ blank_line_at (p2 ++ x)) ->
  Forall no_blank_line (split_go blank_re 0 cur x).
Proof.
  assert (Hclose : forall cur x,
    (forall p1 p2, cur = p1 ++ p2 -> p2 <> [] -> ~ blank_line_at (p2 ++ x)) ->
    no_blank_line cur).
  { intros cur x HI p1 p2 E B. destruct p2 as [|b p2]; [apply blank_line_nil, B |].
    apply (HI p1 (b :: p2) E); [discriminate |]. apply blank_line_app, B. }
  induction n as [|n IH]; intros cur [|a x] Hn HI; simpl in Hn; try lia;
    try (constructor; [eapply Hclose, HI | constructor]).
  destruct (split_blank_cases cur a x) as [[Hm ->]|(ws & rest & E & Hws & ->)].
  - apply IH; [lia |]. intros p1 p2 E Hp2.
    destruct (snoc_suffix _ _ _ _ E Hp2) as (q & -> & ->).
    rewrite <- app_assoc. destruct q as [|b q]; [exact Hm |].
    apply (HI p1 (b :: q)); [reflexivity | discriminate].
  - constructor; [eapply Hclose, HI |]. apply IH.
    + apply (f_equal (@length ascii)) in E. simpl in E.
      rewrite length_app in E. simpl in E. lia.
    + intros p1 p2 E2 Hp2. destruct p1; destruct p2; try discriminate. congruence.
Qed.

Lemma no_blank_line_sub w1 b w2 : no_blank_line (w1 ++ b ++ w2) -> no_blank_line b.
Proof.
  intros H p1 p2 -> B. apply (H (w1 ++ p1) (p2 ++ w2)).
  - rewrite <- !app_assoc. reflexivity.
  - apply blank_line_app, B.
Qed.

Lemma split_raw_hands_elem text b :
  b ∈ split_raw_hands text ->
  b <> [] /\ exists b0, b0 ∈ re_split blank_re (strip text) /\ b = strip b0.
Proof.
  unfold split_raw_hands. intros H. apply list_elem_of_omap in H as (b0 & Hb0 & E).
  destruct (strip b0) as [|c r] eqn:Es; [discriminate |]. injection E as <-.
  split; [discriminate |]. exists b0. rewrite Es. auto.
Qed.

Lemma split_raw_hands_content_blocks (blocks : list (list ascii)) :
  List.filter nonspace
    (concat (omap (fun b => match strip b with [] => None | _ :: _ => Some (strip b) end)
               blocks))
  = List.filter nonspace (concat blocks).
Proof.
  induction blocks as [|b bs IH]; [reflexivity |].
  cbn [omap list_omap concat].
  rewrite List.filter_app, <- IH, <- (filter_nonspace_strip b).
  destruct (strip b) as [|c r] eqn:E; [reflexivity |].
  cbn [concat]. rewrite List.filter_app. reflexivity.
Qed.
Lemma search_None_inv r x :
  search r x = None -> forall p1 p2, x = p1 ++ p2 -> match_here r p2 = None.
Proof.
  induction x as [|a x IH]; cbn [search]; intros H p1 p2 E.
  - destruct p1; [| discriminate]. destruct p2; [| discriminate].
    destruct (match_here r []); [discriminate | reflexivity].
  - destruct (match_here r (a :: x)) eqn:Em; [discriminate |].
    destruct p1 as [|b p1]; cbn [app] in E; [subst p2; exact Em |].
    injection E as _ E. eapply IH; eauto.
Qed.

Lemma no_blank_line_search x : search blank_re x = None -> no_blank_line x.
Proof.
  intros H p1 p2 E. apply match_blank_None. eapply search_None_inv; eauto.
Qed.

Lemma trimmed_block_intro b :
  strip b = b -> b <> [] -> search blank_re b = None -> trimmed_block b.
Proof.
  intros Hs Hne Hn. split; [exact Hne |]. split; [| split].
  - intros a. rewrite <- Hs. apply strip_head.
  - intros a. rewrite <- Hs. apply strip_last.
  - apply no_blank_line_search, Hn.
Qed.

(** Every block of the result is a trimmed block. *)
Lemma split_raw_hands_blocks text : Forall trimmed_block (split_raw_hands text).
Proof.
  assert (Hall : Forall no_blank_line (re_split blank_re (strip text))).
  { apply (split_no_blank (length (strip text))); [lia |].
    intros p1 p2 E Hp2. destruct p1; destruct p2; try discriminate. congruence. }
  rewrite Forall_forall in Hall.
  apply Forall_forall. intros b Hb.
  apply split_raw_hands_elem in Hb as (Hne & b0 & Hb0 & ->).
  split; [exact Hne |]. split; [apply strip_head |]. split; [apply strip_last |].
  specialize (Hall b0 Hb0).
  destruct (strip_decomp b0) as (w1 & w2 & E & _). rewrite E in Hall.
  eapply no_blank_line_sub, Hall.
Qed.
End SplitProps.

(** X1: every block split_raw_hands returns is non-empty and begins and
    ends with a character that is not white space. *)
Theorem split_raw_hands_blocks_trimmed (text : list ascii) :
  Forall (fun b =>
    b <> [] /\
    (forall a, head b = Some a -> is_space a = false) /\
    (forall a, last b = Some a -> is_space a = false)) (split_raw_hands text).
Proof.
  eapply Forall_impl; [apply split_raw_hands_blocks |].
  intros b (H1 & H2 & H3 & _). auto.
Qed.

(** X2: on a text of white space only (the empty text included)
    split_raw_hands returns no block. *)
Theorem split_raw_hands_only_space (text : list ascii) :
  forallb is_space text = true -> split_raw_hands text = [].
Proof.
  intros H. unfold split_raw_hands. rewrite strip_spaces by exact H. reflexivity.
Qed.

(** X2 at a text of a space and a line feed. *)
Lemma split_raw_hands_only_space_witness :
  forallb is_space (s " " ++ [newline]) = true /\
  split_raw_hands (s " " ++ [newline]) = [].
Proof.
  assert (H : forallb is_space (s " " ++ [newline]) = true) by reflexivity.
  split; [exact H | apply (split_raw_hands_only_space _ H)].
Defined.

(** X3: a text without a blank line (a line feed, white space only,
    another line feed) that is not all white space gives exactly one
    block, the text with the white space at its ends removed. *)
Theorem split_raw_hands_single (text : list ascii) :
  no_blank_line text -> strip text <> [] ->
  split_raw_hands text = [strip text].
Proof.
  intros Hnb Hne. unfold split_raw_hands, re_split.
  rewrite split_single.
  - simpl. rewrite strip_strip. destruct (strip text); [congruence | reflexivity].
  - destruct (strip_decomp text) as (w1 & w2 & E & _). rewrite E in Hnb.
    apply no_blank_line_sub in Hnb. exact Hnb.
Qed.

(** X3 at the text [ab] with a space on either side. *)
Lemma split_raw_hands_single_witness :
  no_blank_line (s " ab ") /\ strip (s " ab ") <> [] /\
  split_raw_hands (s " ab ") = [strip (s " ab ")].
Proof.
  assert (H1 : no_blank_line (s " ab ")) by (apply no_blank_line_search; reflexivity).
  assert (H2 : strip (s " ab ") <> []) by (vm_compute; discriminate).
  split; [exact H1 |]. split; [exact H2 | apply (split_raw_hands_single _ H1 H2)].
Defined.

(** X4: no block split_raw_hands returns contains a blank line: every
    separator of the text is used. *)
Theorem split_raw_hands_no_blank_line (text : list ascii) :
  Forall no_blank_line (split_raw_hands text).
Proof.
  eapply Forall_impl; [apply split_raw_hands_blocks |].
  intros b (_ & _ & _ & H). exact H.
Qed.

(** X5: split_raw_hands loses and reorders nothing but white space: the
    characters of the blocks that are not white space, read block after
    block, are those of the text in the same order. *)
Theorem split_raw_hands_content (text : list ascii) :
  List.filter nonspace (concat (split_raw_hands text)) = List.filter nonspace text.
Proof.
  unfold split_raw_hands. rewrite split_raw_hands_content_blocks.
  unfold re_split. rewrite (split_content (length (strip text))) by lia.
  simpl. apply filter_nonspace_strip.
Qed.

Section Join.
Lemma split_go_scan pre : forall suf cur,
  (forall p1 p2, pre = p1 ++ p2 -> p2 <> [] -> ~ blank_line_at (p2 ++ suf)) ->
  split_go blank_re 0 cur (pre ++ suf) = split_go blank_re 0 (cur ++ pre) suf.
Proof.
  induction pre as [|a pre IH]; intros suf cur H; [rewrite app_nil_r; reflexivity |].
  cbn [app]. rewrite split_blank_miss.
  - rewrite IH; [rewrite <- app_assoc; reflexivity |].
    intros p1 p2 -> Hp2. apply (H (a :: p1) p2); [reflexivity | exact Hp2].
  - apply (H [] (a :: pre)); [reflexivity | discriminate].
Qed.

Lemma split_go_separator cur rest :
  (forall a, head rest = Some a -> is_space a = false) ->
  split_go blank_re 0 cur (newline :: newline :: rest)
  = cur :: split_go blank_re 0 [] rest.
Proof.
  intros Hhead.
  destruct (split_blank_hit cur [] rest eq_refl) as (ws & rest' & E & Hws & Hs).
  cbn [app] in E, Hs. rewrite Hs. injection E as E. f_equal.
  destruct ws as [|w ws]; cbn [app] in E; [injection E as <-; reflexivity |].
  exfalso. injection E as <- E. destruct ws as [|w' ws]; cbn [app] in E.
  - subst rest. specialize (Hhead _ eq_refl). discriminate.
  - subst rest. specialize (Hhead _ eq_refl).
    simpl in Hws. rewrite Hhead in Hws. discriminate.
Qed.

Lemma forallb_last {X} (f : X -> bool) l a :
  forallb f l = true -> last l = Some a -> f a = true.
Proof.
  intros Hl Ha. rewrite forallb_forall in Hl. apply Hl.
  apply list_elem_of_In. rewrite last_lookup in Ha. eapply list_elem_of_lookup_2, Ha.
Qed.

Lemma trimmed_block_no_match b suf :
  trimmed_block b ->
  forall p1 p2, b = p1 ++ p2 -> p2 <> [] -> ~ blank_line_at (p2 ++ suf).
Proof.
  intros (_ & _ & Hlast & Hnb) p1 p2 -> Hp2 (ws & rest & E & Hws).
  change (newline :: ws ++ newline :: rest)
    with ((newline :: ws) ++ newline :: rest) in E.
  assert (E' : p2 ++ suf = ((newline :: ws) ++ [newline]) ++ rest)
    by (rewrite <- app_assoc; exact E).
  apply app_eq_inv in E' as [(k & E1 & E2)|(k & E1 & E2)].
  - (* the empty line lies in the block *)
    apply (Hnb p1 p2 eq_refl). exists ws, k. split; [| exact Hws].
    rewrite E1, <- app_assoc. reflexivity.
  - (* the end of the block is white space *)
    destruct (last p2) as [a|] eqn:Ha; [| apply last_None in Ha; congruence].
    assert (Hsp : forallb is_space ((newline :: ws) ++ [newline]) = true)
      by (rewrite forallb_app; simpl; rewrite Hws; reflexivity).
    rewrite E1, forallb_app in Hsp. apply andb_true_iff in Hsp as [Hsp _].
    pose proof (forallb_last _ _ _ Hsp Ha) as Hsa.
    rewrite (Hlast a) in Hsa; [discriminate |].
    rewrite last_app, Ha. reflexivity.
Qed.

Lemma join_blocks_head b bs a :
  b <> [] -> head (join_blocks (b :: bs)) = Some a -> head b = Some a.
Proof.
  intros Hb. cbn [join_blocks]. destruct bs; [auto |].
  destruct b; [congruence | auto].
Qed.

Lemma join_blocks_last bs : forall b a,
  Forall trimmed_block (b :: bs) ->
  last (join_blocks (b :: bs)) = Some a -> is_space a = false.
Proof.
  induction bs as [|b' bs IH]; intros b a Hall.
  - cbn [join_blocks]. apply Forall_cons in Hall as [(_ & _ & Hl & _) _]. apply Hl.
  - apply Forall_cons in Hall as [_ Hall].
    change (join_blocks (b :: b' :: bs))
      with (b ++ [newline; newline] ++ join_blocks (b' :: bs)).
    rewrite app_assoc, last_app.
    destruct (last (join_blocks (b' :: bs))) as [c|] eqn:Ec.
    + intros [= <-]. apply (IH b' c Hall Ec).
    + apply last_None in Ec. apply Forall_cons in Hall as [(Hb' & _) _].
      exfalso. cbn [join_blocks] in Ec. destruct bs; [congruence |].
      destruct b'; [congruence | discriminate].
Qed.

Lemma split_join bs : forall b cur,
  Forall trimmed_block (b :: bs) ->
  split_go blank_re 0 cur (join_blocks (b :: bs)) = (cur ++ b) :: bs.
Proof.
  induction bs as [|b' bs IH]; intros b cur Hall;
    pose proof Hall as Hall'; apply Forall_cons in Hall' as [Hb Hbs].
  - cbn [join_blocks]. rewrite <- (app_nil_r b) at 1.
    rewrite split_go_scan by (apply trimmed_block_no_match, Hb).
    apply split_blank_nil.
  - change (join_blocks (b :: b' :: bs))
      with (b ++ newline :: newline :: join_blocks (b' :: bs)).
    rewrite split_go_scan by (apply trimmed_block_no_match, Hb).
    rewrite split_go_separator.
    + rewrite (IH b' [] Hbs). reflexivity.
    + pose proof Hbs as Hb'. apply Forall_cons in Hb' as [(Hne & Hh & _) _].
      intros a Ha. apply Hh. eapply join_blocks_head; eauto.
Qed.
End Join.

(** X6: blocks that are non-empty, without white space at their ends and
    without a blank line inside, written one after the other with an
    empty line between two of them, are split into these same blocks. *)
Theorem split_raw_hands_of_joined (blocks : list (list ascii)) :
  Forall trimmed_block blocks -> split_raw_hands (join_blocks blocks) = blocks.
Proof.
  intros Hall. destruct blocks as [|b bs]; [reflexivity |].
  unfold split_raw_hands, re_split.
  rewrite strip_id.
  - rewrite (split_join bs b [] Hall). cbn [app].
    clear -Hall. induction Hall as [|x l (Hne & Hh & Hl & _) _ IH]; [reflexivity |].
    cbn [omap list_omap]. rewrite (strip_id x Hh Hl).
    destruct x; [congruence |]. f_equal. exact IH.
  - pose proof Hall as Hb. apply Forall_cons in Hb as [(Hne & Hh & _) _].
    intros a Ha. apply Hh. eapply join_blocks_head; eauto.
  - intros a. apply join_blocks_last, Hall.
Qed.

(** X6 at two blocks of one line each. *)
Lemma split_raw_hands_of_joined_witness :
  Forall trimmed_block [s "Hand #1"; s "Hand #2"] /\
  split_raw_hands (join_blocks [s "Hand #1"; s "Hand #2"]) = [s "Hand #1"; s "Hand #2"].
Proof.
  assert (H : Forall trimmed_block [s "Hand #1"; s "Hand #2"]).
  { repeat constructor;
      (apply trimmed_block_intro; [reflexivity | discriminate | reflexivity]). }
  split; [exact H | apply (split_raw_hands_of_joined _ H)].
Defined.

(** ** Identifiers and the parse loop *)

Section HandId.
Lemma ci_hash a : ci "#" a = true <-> a = "#"%char.
Proof. destruct a as [[] [] [] [] [] [] [] []]; vm_compute; split; congruence. Qed.

Lemma lang_hand_id x x' : lang hand_id_re x x' -> hand_token x.
Proof.
  unfold hand_id_re. cbn [lang]. intros (x1 & L1 & x2 & (ws & E2 & Hws) & x3 & (a & E3 & Ha) & L4).
  apply lang_lit_str in L1 as (w & -> & Hw).
  apply lang_digits in L4 as (ds & E4 & Hds).
  apply ci_hash in Ha. subst.
  exists w, ws, ds, x'. split; [reflexivity |]. split; [| auto].
  apply Forall2_ci_lower in Hw. exact Hw.
Qed.

Lemma hand_id_forward w ws ds post :
  str_lower w = s "hand" -> forallb is_space ws = true ->
  digits ds -> no_digit_ahead post ->
  match_here hand_id_re (w ++ ws ++ "#"%char :: ds ++ post)
  = Some (MatchObj (w ++ ws ++ "#"%char :: ds) [(1, ds)]).
Proof.
  intros Hw Hws [Hne Hds] Hpost. unfold match_here, hand_id_re, word_ci. cbn [matches].
  rewrite lit_str_forward by (apply Forall2_ci_lower; exact Hw).
  erewrite star_greedy_forward; [reflexivity | exact Hws | reflexivity |].
  cbn [matches]. replace (ci "#" "#") with true by reflexivity.
  apply plus_greedy_forward; [exact Hne | exact Hds | exact Hpost |].
  rewrite consumed_app.
  replace (w ++ ws ++ "#"%char :: ds ++ post) with ((w ++ ws ++ "#"%char :: ds) ++ post).
  - rewrite consumed_app. reflexivity.
  - rewrite <- !app_assoc. reflexivity.
Qed.

Lemma parse_hand_id_first pre w ws ds post id :
  str_lower w = s "hand" -> forallb is_space ws = true ->
  digits ds -> no_digit_ahead post ->
  (forall p1 p2, pre = p1 ++ p2 -> p2 <> [] ->
     ~ hand_token (p2 ++ w ++ ws ++ "#"%char :: ds ++ post)) ->
  parse_hand_id (pre ++ w ++ ws ++ "#"%char :: ds ++ post) id = inl ds.
Proof.
  intros Hw Hws Hds Hpost Hfirst. unfold parse_hand_id. rewrite search_skip.
  - rewrite (search_here _ _ _ (hand_id_forward w ws ds post Hw Hws Hds Hpost)).
    reflexivity.
  - intros p1 p2 E Hp2. apply match_here_None. intros x' L.
    apply (Hfirst p1 p2 E Hp2). eapply lang_hand_id, L.
Qed.

Lemma parse_hand_id_none raw id :
  (forall p1 p2, raw = p1 ++ p2 -> ~ hand_token p2) -> parse_hand_id raw id = inr id.
Proof.
  intros H. unfold parse_hand_id. rewrite search_None; [reflexivity |].
  intros p1 p2 E. apply match_here_None. intros x' L.
  apply (H p1 p2 E). eapply lang_hand_id, L.
Qed.
End HandId.

(** X7: whenever parse_hand returns a hand (it raises only when its time
    step raises), the hand_id of the hand is the whole run of digits of
    the first identifier token of the block, the word Hand in any case,
    white space or none, a number sign and digits; when the block has no
    such token it is the number id gives for the block; and the field raw
    is the block itself. *)
Theorem parse_hand_hand_id (raw : str) (id : Z) (hero_name : str) :
  match parse_hand raw id hero_name with
  | Ok h =>
      (forall pre w ws ds post,
         raw = pre ++ w ++ ws ++ "#"%char :: ds ++ post ->
         str_lower w = s "hand" -> forallb is_space ws = true ->
         digits ds -> no_digit_ahead post ->
         (forall p1 p2, pre = p1 ++ p2 -> p2 <> [] ->
            ~ hand_token (p2 ++ w ++ ws ++ "#"%char :: ds ++ post)) ->
         Hand.hand_id h = inl ds) /\
      ((forall p1 p2, raw = p1 ++ p2 -> ~ hand_token p2) ->
         Hand.hand_id h = inr id) /\
      Hand.raw h = raw
  | Raise e => parse_time raw = Raise e
  end.
Proof.
  destruct (parse_hand_cases raw id hero_name)
    as [(e & Ht & ->)|(t & money & bb & _ & _ & _ & ->)]; [exact Ht |].
  cbn [Hand.hand_id Hand.raw]. split; [| split; [| reflexivity]].
  - intros pre w ws ds post -> Hw Hws Hds Hpost Hfirst.
    apply parse_hand_id_first; assumption.
  - apply parse_hand_id_none.
Qed.

Section ParseLoop.
Lemma parse_hand_catch raw id hero_name :
  match catch (parse_hand raw id hero_name) with
  | Some h => parse_time raw = Ok (Hand.datetime h) /\ Hand.raw h = raw
  | None => time_ok raw = false
  end.
Proof.
  unfold time_ok.
  destruct (parse_hand_cases raw id hero_name)
    as [(e & Ht & ->)|(t & money & bb & Ht & _ & _ & ->)]; simpl.
  - rewrite Ht. reflexivity.
  - split; [exact Ht | reflexivity].
Qed.
End ParseLoop.

(** X8: the loop of main over the blocks keeps, in their order, exactly
    the blocks on which the time step of parse_hand does not raise, one
    hand for each; the hand holds its block and the time that step
    returns for it.  A block is left out only for an invalid date. *)
Theorem parse_hands_keeps_valid_blocks (hero_name : str) (all_raw_hands : list (str * Z)) :
  let hands := parse_hands hero_name all_raw_hands in
  map Hand.raw hands = List.filter time_ok (map fst all_raw_hands) /\
  Forall (fun h => parse_time (Hand.raw h) = Ok (Hand.datetime h)) hands.
Proof.
  unfold parse_hands.
  induction all_raw_hands as [|[raw id] raws [IH1 IH2]]; [split; [reflexivity | constructor] |].
  cbn [omap list_omap map List.filter fst snd].
  pose proof (parse_hand_catch raw id hero_name) as H.
  destruct (catch (parse_hand raw id hero_name)) as [h|].
  - destruct H as [Ht Hr]. unfold time_ok at 1. rewrite Ht. cbn [map]. split.
    + rewrite Hr. f_equal. exact IH1.
    + constructor; [rewrite Hr; exact Ht | exact IH2].
  - rewrite H. split; assumption.
Qed.

(** ** More on the sessions *)

Section SessionsMore.
Lemma mapM_Ok_Forall2 {X Y} (f : X -> result Y) l : forall r,
  mapM f l = Ok r -> Forall2 (fun a b => f a = Ok b) l r.
Proof.
  induction l as [|a l IH]; intros r; simpl.
  - intros [= <-]. constructor.
  - destruct (f a) as [b|] eqn:Ea; [| discriminate]. cbn [mbind result_bind].
    destruct (mapM f l) as [bs|]; [| discriminate]. cbn [mbind result_bind].
    intros [= <-]. constructor; [exact Ea | apply IH; reflexivity].
Qed.

Lemma build_sessions_made hands G sessions :
  build_sessions hands G = Ok sessions ->
  Forall (fun sn => exists idx g, make_session idx g = Ok sn) sessions.
Proof.
  unfold build_sessions. destruct (timedelta_minutes G) as [gap|]; [| discriminate].
  cbn [mbind result_bind]. intros E. apply mapM_Ok_Forall2 in E.
  eapply Forall2_Forall_r; [exact E |].
  apply Forall_forall. intros [idx g] _ sn H. eauto.
Qed.

Lemma make_session_bb idx g sn :
  make_session idx g = Ok sn ->
  Session.hands sn = map snd g /\
  Session.total_result_bb sn
    = round2 <$> bb_sum (omap (fun h => Hand.hero_result_bb h.2) g) /\
  (Session.bb_per_100 sn = None <-> Session.total_result_bb sn = None).
Proof.
  destruct g as [|a g]; [discriminate |].
  destruct (last_item_cons a g) as [b Hb].
  unfold make_session, last_item. rewrite Hb.
  cbn [first_item mbind result_bind].
  change (truediv_int ?x 60) with (Ok (fdiv x (float_of_Z 60))).
  cbn [mbind result_bind].
  destruct (bb_sum (omap (fun h : Z * Hand.t => Hand.hero_result_bb h.2) (a :: g)))
    as [t|] eqn:Et.
  - rewrite per_100_pos by (rewrite length_cons; lia).
    cbn [mbind result_bind]. intros [= <-].
    cbn [Session.hands Session.total_result_bb Session.bb_per_100].
    split; [reflexivity |]. split; [reflexivity |]. simpl. split; discriminate.
  - cbn [mbind result_bind]. intros [= <-].
    cbn [Session.hands Session.total_result_bb Session.bb_per_100].
    split; [reflexivity |]. split; [reflexivity |]. split; reflexivity.
Qed.

Lemma bb_sum_None (hs : list Hand.t) :
  bb_sum (omap Hand.hero_result_bb hs) = None
  <-> Forall (fun h => Hand.hero_result_bb h = None) hs.
Proof.
  unfold bb_sum. induction hs as [|h hs IH]; simpl.
  - split; [constructor | reflexivity].
  - destruct (Hand.hero_result_bb h) as [b|] eqn:E.
    + split; [discriminate | intros H; inv H; congruence].
    + rewrite IH. split; [intros H; constructor; assumption | intros H; inv H; assumption].
Qed.

Lemma omap_snd {X} (f : Hand.t -> option X) (g : list (Z * Hand.t)) :
  omap (fun h => f h.2) g = omap f (map snd g).
Proof.
  induction g as [|a g IH]; [reflexivity |].
  cbn [omap list_omap map]. destruct (f a.2); [f_equal |]; exact IH.
Qed.

Lemma seg_rec_length gap l : forall c (x : Z * Hand.t),
  length (seg_rec gap c x.1 l) = S (breaks gap (x :: l)).
Proof.
  induction l as [|h l IH]; intros c x; [reflexivity |].
  cbn [seg_rec breaks]. destruct (gap <? h.1 - x.1)%Z.
  - cbn [length]. rewrite (IH [h] h). reflexivity.
  - rewrite (IH (c ++ [h]) h). reflexivity.
Qed.

Lemma segment_length gap l :
  length (segment gap l) = match l with [] => 0 | _ :: _ => S (breaks gap l) end.
Proof.
  destruct l as [|h l]; [reflexivity |].
  rewrite segment_cons. apply (seg_rec_length gap l [h] h).
Qed.

Lemma breaks_mono gap gap' l : (gap <= gap')%Z -> breaks gap' l <= breaks gap l.
Proof.
  intros Hg. induction l as [|a l IH]; [reflexivity |].
  cbn [breaks]. destruct l as [|b l]; [reflexivity |].
  destruct (Z.ltb_spec gap' (b.1 - a.1)); destruct (Z.ltb_spec gap (b.1 - a.1)); lia.
Qed.

Lemma insert_by_time_filter t x l :
  filter (fun th : Z * Hand.t => th.1 = t) (insert_by_time x l)
  = filter (fun th : Z * Hand.t => th.1 = t) (x :: l).
Proof.
  induction l as [|y l IH]; [reflexivity |].
  cbn [insert_by_time]. destruct (Z.leb_spec x.1 y.1) as [Hle|Hlt]; [reflexivity |].
  rewrite filter_cons, IH, !filter_cons.
  destruct (decide (y.1 = t)); destruct (decide (x.1 = t)); try reflexivity. lia.
Qed.

Lemma sort_by_time_filter t l :
  filter (fun th : Z * Hand.t => th.1 = t) (sort_by_time l)
  = filter (fun th : Z * Hand.t => th.1 = t) l.
Proof.
  induction l as [|x l IH]; [reflexivity |].
  cbn [sort_by_time foldr]. fold (sort_by_time l).
  rewrite insert_by_time_filter, !filter_cons, IH. reflexivity.
Qed.

Lemma filter_played_at t (l : list (Z * Hand.t)) :
  Forall (fun th => Hand.datetime th.2 = Some th.1) l ->
  filter (played_at t) (map snd l) = map snd (filter (fun th : Z * Hand.t => th.1 = t) l).
Proof.
  unfold played_at.
  induction 1 as [|x l Hx _ IH]; [reflexivity |].
  cbn [map]. rewrite !filter_cons, IH.
  destruct (decide (Hand.datetime x.2 = Some t)) as [H|H];
    destruct (decide (x.1 = t)) as [H'|H']; try reflexivity; exfalso; congruence.
Qed.

Lemma filter_played_at_has_time t hands :
  filter (played_at t) (List.filter has_time hands) = filter (played_at t) hands.
Proof.
  unfold played_at, has_time.
  induction hands as [|h hs IH]; [reflexivity |]. cbn [List.filter].
  destruct (Hand.datetime h) as [u|] eqn:E.
  - rewrite !filter_cons, IH. reflexivity.
  - rewrite filter_cons, IH. destruct (decide (Hand.datetime h = Some t)); [congruence | reflexivity].
Qed.

Lemma session_limit_same (labels : list (list ascii)) l :
  labels <> [] -> (forall x, x ∈ labels -> x = l) -> session_limit labels = l.
Proof.
  unfold session_limit. intros Hne Hall.
  assert (E : remove_dups labels = [l]); [| rewrite E; reflexivity].
  induction labels as [|x labels IH]; [congruence |].
  assert (x = l) as -> by (apply Hall; left).
  cbn [remove_dups]. destruct labels as [|y labels].
  - destruct (decide_rel elem_of l []) as [H|_]; [inv H | reflexivity].
  - assert (y = l) as -> by (apply Hall; right; left).
    destruct (decide_rel elem_of l (l :: labels)) as [_|H]; [| exfalso; apply H; left].
    apply IH; [discriminate |]. intros x Hx. apply Hall. right. exact Hx.
Qed.

Lemma session_limit_inv (labels : list (list ascii)) x :
  session_limit labels <> mixed -> x ∈ labels -> x = session_limit labels.
Proof.
  unfold session_limit, mixed. intros Hm Hx. apply elem_of_remove_dups in Hx.
  destruct (remove_dups labels) as [|a [|b r]]; try congruence.
  apply list_elem_of_singleton in Hx. exact Hx.
Qed.

Lemma sumZ_hands_count (sessions : list Session.t) :
  Forall (fun sn => Session.hands_count sn = Z.of_nat (length (Session.hands sn))) sessions ->
  sumZ (map Session.hands_count sessions)
  = Z.of_nat (length (concat (map Session.hands sessions))).
Proof.
  induction 1 as [|sn ss Hsn _ IH]; [reflexivity |].
  cbn [map concat sumZ foldr]. fold (sumZ (map Session.hands_count ss)).
  rewrite IH, Hsn, length_app. lia.
Qed.

(** What [build_sessions] returns, group by group. *)
Lemma build_sessions_view hands G :
  gap_in_range G ->
  exists sessions,
    build_sessions hands G = Ok sessions /\
    length sessions = length (segment (60 * G) (sort_by_time (with_time hands))) /\
    concat (map Session.hands sessions) = map snd (sort_by_time (with_time hands)) /\
    Forall (fun sn => exists idx g, g <> [] /\ session_view idx g sn) sessions.
Proof.
  intros HG.
  destruct (build_sessions_groups hands G HG) as (sessions & E & Hlen & Hs).
  cbv zeta in Hlen, Hs.
  exists sessions. split; [exact E |]. split; [exact Hlen |]. split.
  - rewrite (sessions_hands _ _ _ Hlen Hs), <- concat_map, segment_concat. reflexivity.
  - apply Forall_lookup. intros i sn Hi.
    destruct (sessions_lookup _ _ _ _ _ Hlen Hs Hi) as (g & Hg & V).
    exists (1 + Z.of_nat i)%Z, g. split; [| exact V].
    pose proof (segment_nonempty (60 * G) (sort_by_time (with_time hands))) as Hne.
    rewrite Forall_lookup in Hne. exact (Hne i g Hg).
Qed.
End SessionsMore.

(** X9: build_sessions raises exactly when timedelta cannot hold the gap
    threshold, whatever the hands, the empty list included; the
    exception is then OverflowError.  It never raises IndexError or
    ZeroDivisionError. *)
Theorem build_sessions_raises (hands : list Hand.t) (G : Z) :
  match build_sessions hands G with
  | Ok _ => gap_in_range G
  | Raise e => e = OverflowError /\ ~ gap_in_range G
  end.
Proof.
  unfold build_sessions, timedelta_minutes, gap_in_range.
  destruct (Z.leb_spec (-999999999) (60 * G / 86400));
    destruct (Z.leb_spec (60 * G / 86400) 999999999); cbn [andb mbind result_bind];
    try (split; [reflexivity | lia]).
  destruct (mapM _ _) eqn:E; [lia |].
  destruct (make_sessions_ok (segment (60 * G) (sort_by_time (with_time hands))) 1
              (segment_nonempty _ _)) as (ss & E' & _).
  congruence.
Qed.

(** X10: the number of sessions is 0 when no hand has a time, and
    otherwise one more than the number of neighbours, in the hands that
    have a time taken in ascending order of time, that are more than the
    threshold apart.  The order is stated by what it is: [sorted] holds
    the hands of the input that have a time, each with its time, and is
    ascending. *)
Theorem build_sessions_count (hands : list Hand.t) (G : Z) :
  gap_in_range G ->
  exists sessions sorted,
    build_sessions hands G = Ok sessions /\
    Permutation (map snd sorted) (List.filter has_time hands) /\
    Forall (fun th => Hand.datetime th.2 = Some th.1) sorted /\
    StronglySorted by_time sorted /\
    (Forall (fun h => Hand.datetime h = None) hands -> length sessions = 0) /\
    (Exists (fun h => Hand.datetime h <> None) hands ->
       length sessions = S (breaks (60 * G) sorted)).
Proof.
  intros HG. destruct (build_sessions_view hands G HG) as (sessions & E & Hlen & _).
  rewrite segment_length in Hlen.
  assert (Hperm : Permutation (map snd (sort_by_time (with_time hands)))
                    (List.filter has_time hands)).
  { rewrite <- with_time_filter. apply Permutation_map, sort_by_time_perm. }
  exists sessions, (sort_by_time (with_time hands)).
  split; [exact E |]. split; [exact Hperm |].
  split; [apply sorted_with_time_datetime |].
  split; [apply sort_by_time_sorted |]. split.
  - intros Hnone. rewrite Hlen, with_time_none by exact Hnone. reflexivity.
  - intros Hsome. rewrite Hlen.
    destruct (sort_by_time (with_time hands)) as [|a l]; [| reflexivity].
    exfalso. cbn [map] in Hperm. apply Permutation_nil_l in Hperm.
    apply Exists_exists in Hsome as (h & Hin & Hh).
    assert (Hf : h ∈ List.filter has_time hands).
    { apply list_elem_of_In, filter_In. split; [apply list_elem_of_In, Hin |].
      unfold has_time. destruct (Hand.datetime h); [reflexivity | congruence]. }
    rewrite <- Hperm in Hf. inv Hf.
Qed.

(** X10 at the three hands [demo_hands] and a threshold of 30 minutes. *)
Lemma build_sessions_count_witness :
  gap_in_range 30 /\
  exists sessions sorted,
    build_sessions demo_hands 30 = Ok sessions /\
    Permutation (map snd sorted) (List.filter has_time demo_hands) /\
    Forall (fun th => Hand.datetime th.2 = Some th.1) sorted /\
    StronglySorted by_time sorted /\
    (Forall (fun h => Hand.datetime h = None) demo_hands -> length sessions = 0) /\
    (Exists (fun h => Hand.datetime h <> None) demo_hands ->
       length sessions = S (breaks (60 * 30) sorted)).
Proof.
  assert (H : gap_in_range 30) by (split; apply Z.leb_le; reflexivity).
  split; [exact H | apply (build_sessions_count demo_hands 30 H)].
Defined.

(** X11: a larger gap threshold never gives more sessions. *)
Theorem build_sessions_gap_monotone (hands : list Hand.t) (G G' : Z) :
  gap_in_range G -> gap_in_range G' -> (G <= G')%Z ->
  exists sessions sessions',
    build_sessions hands G = Ok sessions /\
    build_sessions hands G' = Ok sessions' /\
    length sessions' <= length sessions.
Proof.
  intros HG HG' Hle.
  destruct (build_sessions_view hands G HG) as (ss & E & Hlen & _).
  destruct (build_sessions_view hands G' HG') as (ss' & E' & Hlen' & _).
  exists ss, ss'. split; [exact E |]. split; [exact E' |].
  rewrite Hlen, Hlen', !segment_length.
  destruct (sort_by_time (with_time hands)) as [|h l]; [reflexivity |].
  apply le_n_S, breaks_mono. lia.
Qed.

(** X11 at the three hands [demo_hands] and thresholds of 30 and 60 minutes. *)
Lemma build_sessions_gap_monotone_witness :
  gap_in_range 30 /\ gap_in_range 60 /\ (30 <= 60)%Z /\
  exists sessions sessions',
    build_sessions demo_hands 30 = Ok sessions /\
    build_sessions demo_hands 60 = Ok sessions' /\
    length sessions' <= length sessions.
Proof.
  assert (H1 : gap_in_range 30) by (split; apply Z.leb_le; reflexivity).
  assert (H2 : gap_in_range 60) by (split; apply Z.leb_le; reflexivity).
  assert (H3 : (30 <= 60)%Z) by (apply Z.leb_le; reflexivity).
  split; [exact H1 |]. split; [exact H2 |]. split; [exact H3 |].
  apply (build_sessions_gap_monotone demo_hands 30 60 H1 H2 H3).
Defined.

(** X12: hands played at the same time keep, through the sessions, the
    order they have in the list given to build_sessions: the sort is
    stable. *)
Theorem build_sessions_stable (hands : list Hand.t) (G : Z) :
  gap_in_range G ->
  exists sessions,
    build_sessions hands G = Ok sessions /\
    forall t, filter (played_at t) (concat (map Session.hands sessions))
              = filter (played_at t) hands.
Proof.
  intros HG. destruct (build_sessions_view hands G HG) as (sessions & E & _ & Hc & _).
  exists sessions. split; [exact E |]. intros t. rewrite Hc.
  rewrite filter_played_at by apply sorted_with_time_datetime.
  rewrite sort_by_time_filter.
  rewrite <- filter_played_at by apply with_time_datetime.
  rewrite with_time_filter. apply filter_played_at_has_time.
Qed.

(** X12 at the three hands [demo_hands] and a threshold of 30 minutes. *)
Lemma build_sessions_stable_witness :
  gap_in_range 30 /\
  (exists sessions,
    build_sessions demo_hands 30 = Ok sessions /\
    forall t, filter (played_at t) (concat (map Session.hands sessions))
              = filter (played_at t) demo_hands).
Proof.
  assert (H : gap_in_range 30) by (split; apply Z.leb_le; reflexivity).
  split; [exact H | apply (build_sessions_stable demo_hands 30 H)].
Defined.

(** X13: the label of a session is the label its hands share when all
    of them carry the same one; and when the label of a session is not
    "mixed", every hand of the session carries it. *)
Theorem build_sessions_label (hands : list Hand.t) (G : Z) :
  gap_in_range G ->
  exists sessions,
    build_sessions hands G = Ok sessions /\
    Forall (fun sn =>
      (forall l, (forall h, h ∈ Session.hands sn -> Hand.limit h = l) ->
         Session.limit sn = l) /\
      (Session.limit sn <> mixed ->
         forall h, h ∈ Session.hands sn -> Hand.limit h = Session.limit sn)) sessions.
Proof.
  intros HG. destruct (build_sessions_view hands G HG) as (sessions & E & _ & _ & Hv).
  exists sessions. split; [exact E |].
  eapply Forall_impl; [exact Hv |]. cbv beta.
  intros sn (idx & g & Hne & V). destruct V as (_ & Hh & _ & _ & _ & Hl & _).
  rewrite Hl, Hh. split.
  - intros l Hall. apply session_limit_same.
    + destruct g; [congruence | discriminate].
    + intros x Hx. apply list_elem_of_fmap in Hx as (th & -> & Hth).
      apply Hall. apply list_elem_of_fmap. eauto.
  - intros Hm h Hin. apply list_elem_of_fmap in Hin as (th & -> & Hth).
    apply session_limit_inv; [exact Hm |]. apply list_elem_of_fmap. eauto.
Qed.

(** X13 at the three hands [demo_hands] and a threshold of 30 minutes. *)
Lemma build_sessions_label_witness :
  gap_in_range 30 /\
  (exists sessions,
    build_sessions demo_hands 30 = Ok sessions /\
    Forall (fun sn =>
      (forall l, (forall h, h ∈ Session.hands sn -> Hand.limit h = l) ->
         Session.limit sn = l) /\
      (Session.limit sn <> mixed ->
         forall h, h ∈ Session.hands sn -> Hand.limit h = Session.limit sn)) sessions).
Proof.
  assert (H : gap_in_range 30) by (split; apply Z.leb_le; reflexivity).
  split; [exact H | apply (build_sessions_label demo_hands 30 H)].
Defined.

(** X14: the total in big blinds of a session is absent exactly when
    none of its hands has a result in big blinds, and its bb_per_100 is
    absent exactly when the total is. *)
Theorem build_sessions_bb_presence (hands : list Hand.t) (G : Z) :
  gap_in_range G ->
  exists sessions,
    build_sessions hands G = Ok sessions /\
    Forall (fun sn =>
      (Session.total_result_bb sn = None
         <-> Forall (fun h => Hand.hero_result_bb h = None) (Session.hands sn)) /\
      (Session.bb_per_100 sn = None <-> Session.total_result_bb sn = None)) sessions.
Proof.
  intros HG. destruct (build_sessions_view hands G HG) as (sessions & E & _).
  exists sessions. split; [exact E |].
  eapply Forall_impl; [exact (build_sessions_made _ _ _ E) |]. cbv beta.
  intros sn (idx & g & Hm). apply make_session_bb in Hm as (Hh & Hb & Hp).
  split; [| exact Hp]. rewrite Hb, Hh, omap_snd, <- bb_sum_None.
  destruct (bb_sum (omap Hand.hero_result_bb (map snd g)));
    cbn [fmap option_fmap option_map]; split; intros H;
    first [discriminate H | reflexivity].
Qed.

(** X14 at the three hands [demo_hands] and a threshold of 30 minutes. *)
Lemma build_sessions_bb_presence_witness :
  gap_in_range 30 /\
  (exists sessions,
    build_sessions demo_hands 30 = Ok sessions /\
    Forall (fun sn =>
      (Session.total_result_bb sn = None
         <-> Forall (fun h => Hand.hero_result_bb h = None) (Session.hands sn)) /\
      (Session.bb_per_100 sn = None <-> Session.total_result_bb sn = None)) sessions).
Proof.
  assert (H : gap_in_range 30) by (split; apply Z.leb_le; reflexivity).
  split; [exact H | apply (build_sessions_bb_presence demo_hands 30 H)].
Defined.

(** X15: the hands counts of the sessions add up to the number of hands
    that have a time: no such hand is lost or counted twice. *)
Theorem build_sessions_hands_total (hands : list Hand.t) (G : Z) :
  gap_in_range G ->
  exists sessions,
    build_sessions hands G = Ok sessions /\
    sumZ (map Session.hands_count sessions)
    = Z.of_nat (length (List.filter has_time hands)).
Proof.
  intros HG. destruct (build_sessions_view hands G HG) as (sessions & E & _ & Hc & Hv).
  exists sessions. split; [exact E |].
  rewrite sumZ_hands_count.
  - rewrite Hc, <- with_time_filter, !length_map.
    rewrite (Permutation_length (sort_by_time_perm (with_time hands))). reflexivity.
  - eapply Forall_impl; [exact Hv |]. cbv beta.
    intros sn (idx & g & _ & V). destruct V as (_ & -> & -> & _).
    rewrite length_map. reflexivity.
Qed.

(** X15 at the three hands [demo_hands] and a threshold of 30 minutes. *)
Lemma build_sessions_hands_total_witness :
  gap_in_range 30 /\
  (exists sessions,
    build_sessions demo_hands 30 = Ok sessions /\
    sumZ (map Session.hands_count sessions)
    = Z.of_nat (length (List.filter has_time demo_hands))).
Proof.
  assert (H : gap_in_range 30) by (split; apply Z.leb_le; reflexivity).
  split; [exact H | apply (build_sessions_hands_total demo_hands 30 H)].
Defined.

(** ** More on the stakes *)

Section StatsMore.
Implicit Types (d : list (list ascii * StakeStat.acc)).

Lemma fold_stats_keys sessions : forall d,
  map fst (fold_left stats_step sessions d)
  = map fst d
    ++ filter (fun l => l ∉ map fst d) (first_seen (map Session.limit (unmixed sessions))).
Proof.
  unfold unmixed.
  induction sessions as [|sn ss IH]; intros d; [simpl; rewrite app_nil_r; reflexivity |].
  cbn [fold_left]. rewrite IH. rewrite filter_cons.
  unfold stats_step. fold mixed.
  destruct (decide (Session.limit sn = mixed)) as [Hm|Hm].
  - destruct (decide (Session.limit sn <> mixed)); [contradiction | reflexivity].
  - destruct (decide (Session.limit sn <> mixed)); [| contradiction].
    cbn [map first_seen]. rewrite dict_set_keys, filter_cons.
    set (l := Session.limit sn). set (K := map fst d).
    set (FS := first_seen _).
    destruct (decide (l ∈ K)) as [Hin|Hout].
    + destruct (decide (l ∉ K)); [contradiction |]. f_equal.
      rewrite list_filter_filter. apply list_filter_iff. intros x. cbv beta.
      split; [| intros [H _]; exact H]. intros H. split; [exact H | congruence].
    + destruct (decide (l ∉ K)); [| contradiction].
      rewrite <- app_assoc. cbn [app]. do 2 f_equal.
      rewrite list_filter_filter. apply list_filter_iff. intros x. cbv beta.
      rewrite not_elem_of_app, not_elem_of_cons. split.
      * intros (H1 & H2 & _). auto.
      * intros [H1 H2]. split; [exact H1 |]. split; [exact H2 | apply not_elem_of_nil].
Qed.

Lemma finish_stats_totals d stats :
  mapM finish_stat d = Ok stats ->
  map StakeStat.limit stats = map fst d /\ map StakeStat.totals stats = map snd d.
Proof.
  intros E. apply mapM_Ok_Forall2 in E.
  induction E as [|e st d stats Hf _ [IH1 IH2]]; [split; reflexivity |].
  destruct (finish_stat_inv _ _ Hf) as (o & _ & _ & Hl & Ht).
  cbn [map]. rewrite Hl, Ht, IH1, IH2. split; reflexivity.
Qed.

Lemma dict_set_sum (m : StakeStat.acc -> Z) k v d :
  sumZ (map (fun e => m e.2) (dict_set k v d))
  = (sumZ (map (fun e => m e.2) d) + m v
     - match dict_get k d with Some v0 => m v0 | None => 0 end)%Z.
Proof.
  induction d as [|[k' v'] d IH]; cbn [dict_set dict_get map sumZ foldr snd].
  - lia.
  - destruct (decide (k' = k)) as [->|Hn]; cbn [map sumZ foldr snd].
    + lia.
    + fold (sumZ (map (fun e => m e.2) (dict_set k v d))).
      fold (sumZ (map (fun e => m e.2) d)). rewrite IH. lia.
Qed.

Lemma stats_step_sum (m : StakeStat.acc -> Z) (delta : Session.t -> Z) d sn :
  m acc_init = 0%Z ->
  (forall a, m (acc_add a sn) = m a + delta sn)%Z ->
  sumZ (map (fun e => m e.2) (stats_step d sn))
  = (sumZ (map (fun e => m e.2) d)
     + if decide (Session.limit sn = mixed) then 0 else delta sn)%Z.
Proof.
  intros H0 Hadd. unfold stats_step. fold mixed.
  destruct (decide (Session.limit sn = mixed)); [lia |].
  rewrite dict_set_sum, Hadd.
  destruct (dict_get (Session.limit sn) d); cbn [from_option]; unfold Datatypes.id;
    [lia |]. rewrite H0. lia.
Qed.

Lemma fold_stats_sum (m : StakeStat.acc -> Z) (delta : Session.t -> Z) sessions :
  m acc_init = 0%Z ->
  (forall a sn, m (acc_add a sn) = m a + delta sn)%Z ->
  forall d,
  sumZ (map (fun e => m e.2) (fold_left stats_step sessions d))
  = (sumZ (map (fun e => m e.2) d) + sumZ (map delta (unmixed sessions)))%Z.
Proof.
  intros H0 Hadd. unfold unmixed.
  induction sessions as [|sn ss IH]; intros d; [simpl; lia |].
  cbn [fold_left]. rewrite IH, (stats_step_sum m delta) by auto.
  rewrite filter_cons.
  destruct (decide (Session.limit sn = mixed));
    destruct (decide (Session.limit sn <> mixed)); try contradiction.
  - lia.
  - cbn [map sumZ foldr]. fold (sumZ (map delta (filter (fun sn => Session.limit sn <> mixed) ss))). lia.
Qed.

Lemma acc_add_counts same : forall a,
  Forall (fun sn => (0 < Session.hands_count sn)%Z) same ->
  StakeStat.sessions_count (fold_left acc_add same a)
    = (StakeStat.sessions_count a + Z.of_nat (length same))%Z /\
  (StakeStat.hands_count a + Z.of_nat (length same)
   <= StakeStat.hands_count (fold_left acc_add same a))%Z.
Proof.
  induction same as [|sn same IH]; intros a Hpos; [simpl; lia |].
  apply Forall_cons in Hpos as [Hsn Hpos].
  cbn [fold_left length]. destruct (IH (acc_add a sn) Hpos) as [E1 E2].
  rewrite E1. cbn [acc_add StakeStat.sessions_count StakeStat.hands_count] in *. lia.
Qed.
End StatsMore.

(** X16: build_limits_stats returns the stakes in the order in which
    their labels first appear among the sessions that are not "mixed". *)
Theorem build_limits_stats_order (sessions : list Session.t) :
  exists stats,
    build_limits_stats sessions = Ok stats /\
    map StakeStat.limit stats = first_seen (map Session.limit (unmixed sessions)).
Proof.
  destruct (build_limits_stats_spec sessions) as (stats & E & _).
  exists stats. split; [exact E |].
  unfold build_limits_stats in E. apply finish_stats_totals in E as [-> _].
  rewrite fold_stats_keys. cbn [map app].
  generalize (first_seen (map Session.limit (unmixed sessions))). intros l.
  induction l as [|x l IH]; [reflexivity |].
  rewrite filter_cons_True by apply not_elem_of_nil. rewrite IH. reflexivity.
Qed.

(** X17: over all stakes, the sessions counts add up to the number of
    sessions that are not "mixed", and the hands counts to the sum of the
    hands counts of these sessions. *)
Theorem build_limits_stats_conserves (sessions : list Session.t) :
  exists stats,
    build_limits_stats sessions = Ok stats /\
    sumZ (map (fun st => StakeStat.sessions_count (StakeStat.totals st)) stats)
      = Z.of_nat (length (unmixed sessions)) /\
    sumZ (map (fun st => StakeStat.hands_count (StakeStat.totals st)) stats)
      = sumZ (map Session.hands_count (unmixed sessions)).
Proof.
  destruct (build_limits_stats_spec sessions) as (stats & E & _).
  exists stats. split; [exact E |].
  unfold build_limits_stats in E. apply finish_stats_totals in E as [_ Ht].
  assert (Hm : forall m : StakeStat.acc -> Z,
            map (fun st => m (StakeStat.totals st)) stats
            = map (fun e => m e.2) (fold_left stats_step sessions [])).
  { intros m. rewrite <- (map_map StakeStat.totals m), Ht, map_map. reflexivity. }
  split.
  - rewrite Hm, (fold_stats_sum _ (fun _ => 1%Z)); [| reflexivity | reflexivity].
    cbn [map sumZ foldr]. generalize (unmixed sessions). intros l.
    induction l as [|x l IH]; [reflexivity |].
    cbn [map sumZ foldr length]. fold (sumZ (map (fun _ : Session.t => 1%Z) l)). lia.
  - rewrite Hm, (fold_stats_sum _ Session.hands_count); [| reflexivity | reflexivity].
    reflexivity.
Qed.

(** X18: on the sessions build_sessions returns, every stake of
    build_limits_stats counts at least one session and at least as many
    hands as sessions, so that its hands count is positive. *)
Theorem sessions_then_limits_counts (hands : list Hand.t) (G : Z) :
  gap_in_range G ->
  exists sessions stats,
    build_sessions hands G = Ok sessions /\
    build_limits_stats sessions = Ok stats /\
    Forall (fun st =>
      (0 < StakeStat.sessions_count (StakeStat.totals st)
         <= StakeStat.hands_count (StakeStat.totals st))%Z) stats.
Proof.
  intros HG. destruct (build_sessions_view hands G HG) as (sessions & E & _).
  destruct (build_limits_stats_spec sessions) as (stats & E' & _ & Hk & Hst).
  exists sessions, stats. split; [exact E |]. split; [exact E' |].
  apply Forall_forall. intros st Hin. destruct (Hst st Hin) as [-> _].
  assert (Hs : sessions_at (StakeStat.limit st) sessions <> []).
  { apply (Hk (StakeStat.limit st)), list_elem_of_fmap. eauto. }
  assert (Hp : Forall (fun sn => (0 < Session.hands_count sn)%Z)
                 (sessions_at (StakeStat.limit st) sessions)).
  { apply Forall_forall. intros sn Hsn. apply list_elem_of_filter in Hsn as [_ Hsn].
    pose proof (build_sessions_hands_count _ _ _ E) as Hall.
    rewrite Forall_forall in Hall. auto. }
  destruct (acc_add_counts _ acc_init Hp) as [H1 H2]. rewrite H1.
  cbn [acc_init StakeStat.sessions_count StakeStat.hands_count] in *.
  destruct (sessions_at (StakeStat.limit st) sessions); [congruence |].
  cbn [length] in *. lia.
Qed.

(** X18 at the three hands [demo_hands] and a threshold of 30 minutes. *)
Lemma sessions_then_limits_counts_witness :
  gap_in_range 30 /\
  (exists sessions stats,
    build_sessions demo_hands 30 = Ok sessions /\
    build_limits_stats sessions = Ok stats /\
    Forall (fun st =>
      (0 < StakeStat.sessions_count (StakeStat.totals st)
         <= StakeStat.hands_count (StakeStat.totals st))%Z) stats).
Proof.
  assert (H : gap_in_range 30) by (split; apply Z.leb_le; reflexivity).
  split; [exact H | apply (sessions_then_limits_counts demo_hands 30 H)].
Defined.

(** ** More on the summary *)

Section SummaryMore.
Lemma omap_datetime_with_time hands :
  omap Hand.datetime hands = map fst (with_time hands).
Proof.
  unfold with_time. induction hands as [|h hs IH]; [reflexivity |].
  cbn [omap list_omap]. destruct (Hand.datetime h); cbn [mbind option_bind map fst];
    [f_equal |]; exact IH.
Qed.

Lemma sorted_by_time_fst (l : list (Z * Hand.t)) :
  StronglySorted by_time l -> StronglySorted Z.le (map fst l).
Proof.
  induction 1 as [|x l Hl IH Hx]; [constructor |].
  cbn [map]. constructor; [exact IH |].
  apply Forall_fmap. eapply Forall_impl; [exact Hx |]. intros y Hy. exact Hy.
Qed.

Lemma min_time_sorted (times sorted : list Z) :
  Permutation sorted times -> StronglySorted Z.le sorted ->
  min_time times = head sorted.
Proof.
  intros Hp Hs. destruct times as [|t ts].
  - apply Permutation_nil_r in Hp as ->. reflexivity.
  - cbn [min_time]. destruct (fold_min_spec ts t) as [Hin Hle].
    destruct sorted as [|a r]; [apply Permutation_nil_l in Hp; discriminate |].
    cbn [head]. f_equal. apply StronglySorted_cons in Hs as [Ha _].
    assert (H1 : (fold_left Z.min ts t <= a)%Z).
    { apply Hle. rewrite <- Hp. left. }
    rewrite <- Hp in Hin. apply elem_of_cons in Hin as [->|Hin]; [reflexivity |].
    rewrite Forall_forall in Ha. specialize (Ha _ Hin). lia.
Qed.

Lemma max_time_sorted (times sorted : list Z) :
  Permutation sorted times -> StronglySorted Z.le sorted ->
  max_time times = last sorted.
Proof.
  intros Hp Hs. destruct times as [|t ts].
  - apply Permutation_nil_r in Hp as ->. reflexivity.
  - cbn [max_time]. destruct (fold_max_spec ts t) as [Hin Hle].
    destruct (last sorted) as [b|] eqn:Hb.
    + f_equal. apply last_Some in Hb as [r ->].
      assert (H1 : (b <= fold_left Z.max ts t)%Z).
      { apply Hle. rewrite <- Hp. apply elem_of_app. right. left. }
      rewrite <- Hp in Hin. apply elem_of_app in Hin as [Hin|Hin].
      * apply StronglySorted_app in Hs as (Hrb & _ & _).
        specialize (Hrb _ _ Hin (list_elem_of_here b [])). lia.
      * apply list_elem_of_singleton in Hin. exact Hin.
    + apply last_None in Hb. subst sorted. apply Permutation_nil_l in Hp. discriminate.
Qed.

Lemma head_concat {X} (g : list X) gs : g <> [] -> head (concat (g :: gs)) = head g.
Proof. destruct g; [congruence | reflexivity]. Qed.

Lemma last_concat {X} (gs : list (list X)) g :
  g <> [] -> last (concat (gs ++ [g])) = last g.
Proof.
  intros Hg. rewrite concat_app. cbn [concat]. rewrite app_nil_r, last_app.
  destruct (last g) eqn:E; [reflexivity |]. apply last_None in E. congruence.
Qed.

Lemma length_concat_nonempty {X} (gs : list (list X)) :
  Forall (fun g => g <> []) gs -> length gs <= length (concat gs).
Proof.
  induction 1 as [|g gs Hg _ IH]; [reflexivity |].
  cbn [concat length]. rewrite length_app. destruct g; [congruence |]. simpl. lia.
Qed.

Lemma summary_bb hands sessions :
  exists sm,
    build_summary hands sessions = Ok sm /\
    Summary.total_result_bb sm = round2 <$> bb_sum (omap Hand.hero_result_bb hands) /\
    (Summary.overall_bb_per_100 sm = None <-> Summary.total_result_bb sm = None).
Proof.
  destruct hands as [|h hs]; [eexists; split; [reflexivity |]; split; reflexivity |].
  unfold build_summary.
  destruct (bb_sum (omap Hand.hero_result_bb (h :: hs))) as [b|].
  - rewrite per_100_pos by (rewrite length_cons; lia).
    eexists. split; [reflexivity |]. split; [reflexivity |].
    cbn [mbind result_bind Summary.overall_bb_per_100 Summary.total_result_bb
         fmap option_fmap option_map].
    split; intros H; discriminate H.
  - eexists. split; [reflexivity |]. split; reflexivity.
Qed.
End SummaryMore.

(** X19: when build_summary is given the sessions build_sessions made of
    the same hands, as main does, first_hand_time is the start time of the
    first session, last_hand_time the end time of the last one (both
    absent when there is no session), and total_sessions is at most
    total_hands. *)
Theorem summary_times_from_sessions (hands : list Hand.t) (G : Z) :
  gap_in_range G ->
  exists sessions sm,
    build_sessions hands G = Ok sessions /\
    build_summary hands sessions = Ok sm /\
    Summary.first_hand_time sm = Session.start_time <$> head sessions /\
    Summary.last_hand_time sm = Session.end_time <$> last sessions /\
    (Summary.total_sessions sm <= Summary.total_hands sm)%Z.
Proof.
  intros HG.
  destruct (build_sessions_groups hands G HG) as (sessions & E & Hlen & Hs).
  cbv zeta in Hlen, Hs.
  set (sorted := sort_by_time (with_time hands)) in *.
  set (gs := segment (60 * G) sorted) in *.
  pose proof (segment_concat (60 * G) sorted) as Hc. fold gs in Hc.
  pose proof (segment_nonempty (60 * G) sorted) as Hne. fold gs in Hne.
  assert (Hperm : Permutation (map fst sorted) (omap Hand.datetime hands)).
  { rewrite omap_datetime_with_time. apply Permutation_map, sort_by_time_perm. }
  assert (Hsorted : StronglySorted Z.le (map fst sorted))
    by apply sorted_by_time_fst, sort_by_time_sorted.
  assert (Hcount : length sessions <= length hands).
  { rewrite Hlen. etransitivity; [apply length_concat_nonempty, Hne |].
    rewrite Hc. unfold sorted.
    rewrite (Permutation_length (sort_by_time_perm (with_time hands))).
    rewrite <- (length_map snd), with_time_filter.
    clear. induction hands as [|h hs IH]; [reflexivity |].
    cbn [List.filter]. destruct (has_time h); simpl; lia. }
  assert (Hfirst : head (map fst sorted) = Session.start_time <$> head sessions).
  { rewrite <- Hc. destruct gs as [|g0 gs'] eqn:Egs.
    - destruct sessions; [reflexivity | discriminate].
    - destruct (Hs 0 g0 eq_refl) as (sn & H0 & V).
      destruct sessions as [|sn' ss]; [discriminate |]. injection H0 as ->.
      destruct V as (_ & _ & _ & Vs & _). cbn [head fmap option_fmap option_map].
      rewrite <- Vs. apply Forall_cons in Hne as [Hg0 _].
      destruct g0; [congruence | reflexivity]. }
  assert (Hlast : last (map fst sorted) = Session.end_time <$> last sessions).
  { rewrite <- Hc. destruct (last gs) as [g|] eqn:Eg.
    - pose proof Eg as Eg'. apply last_Some in Eg' as [gs' Egs].
      rewrite last_lookup in Eg.
      destruct (Hs _ g Eg) as (sn & Hsn & V).
      rewrite <- Hlen, <- last_lookup in Hsn. rewrite Hsn.
      destruct V as (_ & _ & _ & _ & Ve & _). cbn [fmap option_fmap option_map].
      rewrite <- Ve, Egs. rewrite Egs in Hne. apply Forall_app in Hne as [_ Hg].
      apply Forall_cons in Hg as [Hg _].
      rewrite <- (last_concat gs' g Hg).
      generalize (concat (gs' ++ [g])). intros l. rewrite !last_lookup, length_map.
      rewrite list_lookup_fmap. reflexivity.
    - apply last_None in Eg. rewrite Eg in Hlen |- *.
      destruct sessions; [reflexivity | discriminate]. }
  destruct hands as [|h hs] eqn:Eh.
  - exists sessions, (Summary.mk 0 0 (Int 0) None None None None).
    split; [exact E |]. split; [reflexivity |].
    destruct sessions; [| simpl in Hcount; lia].
    repeat split. reflexivity.
  - rewrite <- Eh in *.
    destruct (build_summary_cons hands sessions) as (sm & Es & Hh & Hss & Hf & Hl);
      [rewrite Eh; discriminate |].
    exists sessions, sm. split; [exact E |]. split; [exact Es |].
    rewrite Hf, Hl, Hh, Hss.
    rewrite (min_time_sorted _ _ Hperm Hsorted), (max_time_sorted _ _ Hperm Hsorted).
    split; [exact Hfirst |]. split; [exact Hlast | lia].
Qed.

(** X19 at the three hands [demo_hands] and a threshold of 30 minutes. *)
Lemma summary_times_from_sessions_witness :
  gap_in_range 30 /\
  (exists sessions sm,
    build_sessions demo_hands 30 = Ok sessions /\
    build_summary demo_hands sessions = Ok sm /\
    Summary.first_hand_time sm = Session.start_time <$> head sessions /\
    Summary.last_hand_time sm = Session.end_time <$> last sessions /\
    (Summary.total_sessions sm <= Summary.total_hands sm)%Z).
Proof.
  assert (H : gap_in_range 30) by (split; apply Z.leb_le; reflexivity).
  split; [exact H | apply (summary_times_from_sessions demo_hands 30 H)].
Defined.

(** X20: build_summary returns without raising; its total in big blinds
    is absent exactly when no hand has a result in big blinds, and its
    overall_bb_per_100 is absent exactly when that total is. *)
Theorem build_summary_bb_presence (hands : list Hand.t) (sessions : list Session.t) :
  exists sm,
    build_summary hands sessions = Ok sm /\
    (Summary.total_result_bb sm = None
       <-> Forall (fun h => Hand.hero_result_bb h = None) hands) /\
    (Summary.overall_bb_per_100 sm = None <-> Summary.total_result_bb sm = None).
Proof.
  destruct (summary_bb hands sessions) as (sm & E & Hb & Hp).
  exists sm. split; [exact E |]. split; [| exact Hp].
  rewrite Hb, <- bb_sum_None.
  destruct (bb_sum (omap Hand.hero_result_bb hands));
    cbn [fmap option_fmap option_map]; split; intros H;
    first [discriminate H | reflexivity].
Qed.

(** ** The JSON export *)

Section JsonExport.
Lemma stake_dicts_encodable limits :
  forallb json_encodable (map stake_dict limits) = true.
Proof.
  induction limits as [|st l IH]; [reflexivity |].
  cbn [map forallb]. rewrite IH, andb_true_r.
  unfold stake_dict. cbn [json_encodable forallb snd].
  destruct (StakeStat.bb_per_100 st); reflexivity.
Qed.

Lemma summary_dict_encodable sm :
  json_encodable (summary_dict sm) = true
  <-> Summary.first_hand_time sm = None /\ Summary.last_hand_time sm = None.
Proof.
  unfold summary_dict. cbn [json_encodable forallb snd].
  destruct (Summary.total_result_money sm), (Summary.total_result_bb sm),
    (Summary.overall_bb_per_100 sm), (Summary.first_hand_time sm),
    (Summary.last_hand_time sm); cbn; split; try discriminate; try tauto;
    intros [? ?]; discriminate.
Qed.

Lemma export_outcome_spec sm sessions limits :
  export_full_to_json sm sessions limits = Exported
  <-> sessions = [] /\
      Summary.first_hand_time sm = None /\ Summary.last_hand_time sm = None.
Proof.
  unfold export_full_to_json. cbn [json_encodable forallb snd].
  rewrite stake_dicts_encodable, !andb_true_r.
  destruct (json_encodable (summary_dict sm)) eqn:Es.
  - apply summary_dict_encodable in Es. destruct sessions as [|sn ss].
    + cbn. tauto.
    + cbn. split; [discriminate | intros [? _]; discriminate].
  - cbn [andb]. split; [discriminate |]. intros (_ & H).
    apply summary_dict_encodable in H. congruence.
Qed.
End JsonExport.

(** X21: once the file is open, export_full_to_json raises TypeError
    exactly when there is a session or the summary holds a first or last
    hand time: json.dump cannot encode the datetime objects these
    carry. *)
Theorem export_full_to_json_raises (summary : Summary.t) (sessions : list Session.t)
    (limits : list StakeStat.t) :
  export_full_to_json summary sessions limits = RaisesTypeError
  <-> sessions <> [] \/
      Summary.first_hand_time summary <> None \/
      Summary.last_hand_time summary <> None.
Proof.
  pose proof (export_outcome_spec summary sessions limits) as H.
  destruct (export_full_to_json summary sessions limits).
  - split; [discriminate |]. destruct H as [H _].
    destruct (H eq_refl) as (H1 & H2 & H3). intros [?|[?|?]]; contradiction.
  - split; [intros _ | reflexivity].
    destruct sessions as [|sn ss]; [| left; discriminate].
    destruct (Summary.first_hand_time summary); [right; left; discriminate |].
    destruct (Summary.last_hand_time summary); [right; right; discriminate |].
    destruct H as [_ H]. discriminate H. auto.
Qed.

(** X22: main's steps from the parsed hands to the JSON export, for a
    gap threshold timedelta can hold: the three reports are built without
    raising, and the export then writes the document when no hand has a
    time and raises TypeError as soon as one hand has. *)
Theorem report_then_export_raises (hands : list Hand.t) (G : Z) :
  gap_in_range G ->
  report_then_export hands G
  = Ok (if forallb (fun h => negb (has_time h)) hands then Exported else RaisesTypeError).
Proof.
  intros HG. unfold report_then_export.
  destruct (forallb (fun h => negb (has_time h)) hands) eqn:Et.
  - assert (Hnone : Forall (fun h => Hand.datetime h = None) hands).
    { apply Forall_forall. intros h Hin. rewrite forallb_forall in Et.
      apply list_elem_of_In in Hin. specialize (Et h Hin). unfold has_time in Et.
      destruct (Hand.datetime h); [discriminate | reflexivity]. }
    rewrite build_sessions_no_time by assumption. cbn [mbind result_bind].
    change (build_limits_stats []) with (@Ok (list StakeStat.t) []).
    cbn [mbind result_bind].
    destruct hands as [|h hs]; [reflexivity |].
    destruct (build_summary_cons (h :: hs) []) as (sm & Es & _ & _ & Hf & Hl);
      [discriminate |].
    rewrite Es. cbn [mbind result_bind]. f_equal.
    apply export_outcome_spec. rewrite Hf, Hl, omap_datetime_none by assumption.
    auto.
  - destruct (build_sessions_view hands G HG) as (sessions & E & _). rewrite E.
    cbn [mbind result_bind].
    destruct (build_limits_stats_spec sessions) as (limits & El & _). rewrite El.
    cbn [mbind result_bind].
    destruct hands as [|h hs] eqn:Eh; [discriminate |]. rewrite <- Eh in *.
    destruct (build_summary_cons hands sessions) as (sm & Es & _ & _ & Hf & _);
      [rewrite Eh; discriminate |].
    rewrite Es. cbn [mbind result_bind]. f_equal.
    destruct (export_full_to_json sm sessions limits) eqn:Ex; [| reflexivity].
    apply export_outcome_spec in Ex as (_ & Hfirst & _).
    rewrite Hf in Hfirst.
    assert (Hnone : omap Hand.datetime hands = []).
    { destruct (omap Hand.datetime hands); [reflexivity | discriminate]. }
    exfalso. clear -Et Hnone.
    induction hands as [|x l IH]; [discriminate |].
    cbn [forallb omap list_omap] in *. unfold has_time in Et at 1.
    destruct (Hand.datetime x); [discriminate |]. cbn [negb andb] in Et. auto.
Qed.

(** X22 at the three hands [demo_hands] and a threshold of 30 minutes. *)
Lemma report_then_export_raises_witness :
  gap_in_range 30 /\
  (report_then_export demo_hands 30
  = Ok (if forallb (fun h => negb (has_time h)) demo_hands then Exported else RaisesTypeError)).
Proof.
  assert (H : gap_in_range 30) by (split; apply Z.leb_le; reflexivity).
  split; [exact H | apply (report_then_export_raises demo_hands 30 H)].
Defined.
